(** * user-activity-simulator: a shallow embedding of the Go sources

    The development follows the layout of the repository:
    - the shared records of [models.go];
    - the database layer ([GetTopicForUser], [WriteLocationData],
      [ReadLocationData]);
    - the simulation manager ([handleStart], [stopSimulationsInternal],
      [handleStop]) and the handler of the reads ([handleGetUser]);
    - the per-user simulator ([generateMovement], the rounds of the loop of
      [SimulateUserMovement]).

    [float64] is IEEE-754 binary64, taken from the executable specification
    [SpecFloat] of the standard library (precision 53, [emax] 1024), so that
    products are rounded exactly as the hardware rounds them. *)

From Stdlib Require Import ZArith Lia Bool List String Ascii.
From Stdlib Require Import Sorting.Sorted Sorting.Permutation.
From Stdlib Require Import Floats.SpecFloat.
From Stdlib Require Import QArith Qround Qpower.
From stdpp Require Import base option list gmap strings pretty.

Local Open Scope Z_scope.

(* ===================================================================== *)
(** * Part I: definitions *)
(* ===================================================================== *)

(** ** float64 *)

Definition prec : Z := 53.
Definition emax : Z := 1024.

Definition float64 : Type := spec_float.

(** The Go operators [*], [<] and [>] on [float64]. Comparisons with a NaN
    operand are false. *)
Definition f64_mul (x y : float64) : float64 := SFmul prec emax x y.
Definition f64_lt (x y : float64) : bool := SFltb x y.
Definition f64_gt (x y : float64) : bool := SFltb y x.
Definition f64_le (x y : float64) : bool := SFleb x y.

(** The literals [0.0] and [1.0]. *)
Definition f64_zero : float64 := S754_zero false.
Definition f64_one : float64 := S754_finite false 4503599627370496 (-52).

(** A 64-bit pattern is always a canonical float: this is the predicate that
    singles out the values of type [float64] among the [spec_float]s. *)
Definition f64_valid (x : float64) : bool := valid_binary prec emax x.

(** [float64(n)] for an [int] n: round to nearest, ties to even. *)
Definition float64_of_int (n : Z) : float64 := binary_normalize prec emax n 0 false.

Definition min_int64 : Z := - 2 ^ 63.
Definition max_int64 : Z := 2 ^ 63 - 1.

(** The integer part of a finite float (rounding toward zero). *)
Definition f64_trunc (f : float64) : option Z :=
  match f with
  | S754_zero _ => Some 0
  | S754_finite s m e => Some (cond_Zopp s (Z.shiftl (Z.pos m) e))
  | S754_infinity _ | S754_nan => None
  end.

(** [int(f)] for a [float64] f. The language leaves the result open when the
    value is not representable; the two 64-bit targets of the Go compiler
    behave as follows: amd64 ([CVTTSD2SQ]) answers the "integer indefinite"
    value [min_int64] for NaN and for everything out of range, arm64
    ([FCVTZS]) saturates and answers 0 for NaN. *)
Inductive GOARCH : Type := amd64 | arm64.

Definition int_of_float64 (arch : GOARCH) (f : float64) : Z :=
  match arch with
  | amd64 =>
      match f64_trunc f with
      | Some z => if (min_int64 <=? z) && (z <=? max_int64) then z else min_int64
      | None => min_int64
      end
  | arm64 =>
      match f with
      | S754_nan => 0
      | S754_infinity s => if s then min_int64 else max_int64
      | _ =>
          match f64_trunc f with
          | Some z => Z.max min_int64 (Z.min max_int64 z)
          | None => 0
          end
      end
  end.

(** ** models.go *)

(** [time.Time] is kept as the instant it denotes, in nanoseconds. *)
Record LocationData : Type := mkLocationData {
  DeltaX : float64;
  DeltaY : float64;
  Timestamp : Z
}.

(** [t.Before(u)] *)
Definition Before (t u : Z) : bool := t <? u.

(** ** Library interfaces *)

(** Go errors are kept as their message. *)
Definition error : Type := string.

(** [encoding/json] applied to [LocationData]: the encoder and the decoder
    either answer or fail with an error. *)
Class JSON : Type := {
  json_Marshal : LocationData -> string + error;
  json_Unmarshal : string -> LocationData + error
}.

(** [sort.Slice]: the result is a rearrangement of the input in which no
    element is [less] than one before it, as soon as [less] is a strict weak
    order. The sort is not stable, so nothing more is known of it. *)
Definition strict_weak_order {A : Type} (less : A -> A -> bool) : Prop :=
  (forall a, less a a = false) /\
  (forall a b c, less a b = true -> less b c = true -> less a c = true) /\
  (forall a b c, less a b = false -> less b c = false -> less a c = false).

Class Sort : Type := {
  sort_Slice : forall {A : Type}, (A -> A -> bool) -> list A -> list A;
  sort_Slice_perm : forall A (less : A -> A -> bool) (l : list A),
      Permutation (sort_Slice less l) l;
  sort_Slice_sorted : forall A (less : A -> A -> bool) (l : list A),
      strict_weak_order less ->
      Sorted (fun a b => less b a = false) (sort_Slice less l)
}.

(** ** The store *)

(** Modelled from the spec: the unitdb engine is an external dependency of
    the repository; it is modelled as the SampleStore of section 6, one
    append-only stream of payloads per key, together with the failures the
    Go code has branches for ([db.Get] failing, [b.PutEntry] refusing a
    payload, the commit of a batch failing). *)
Record DB : Type := mkDB {
  db_topics : gmap string (list string);
  db_get_error : option error;
  db_put_error : string -> option error;
  db_commit_error : option error
}.

(** What the process does to its surroundings: lines written with
    [log.Printf], and calls made on the store. *)
Inductive event : Type :=
| EvLog (msg : string)
| EvGet (topic : string)
| EvPutEntry (topic payload : string).

(** The package-level variable [db] (nil until [InitDB] succeeds) and the
    trace of events so far. *)
Record World : Type := mkWorld {
  db : option DB;
  trace : list event
}.

Definition emit (evs : list event) (w : World) : World :=
  {| db := db w; trace := trace w ++ evs |}.

(** [db.Get(query)] *)
Definition db_Get (d : DB) (topic : string) : list string + error :=
  match db_get_error d with
  | Some e => inr e
  | None => inl (default [] (db_topics d !! topic))
  end.

(** The entries a batch holds until it is committed. *)
Definition Batch : Type := list (string * string).

(** [b.PutEntry(entry)] *)
Definition PutEntry (d : DB) (b : Batch) (topic payload : string)
  : Batch * option error :=
  match db_put_error d payload with
  | Some e => (b, Some e)
  | None => (b ++ [(topic, payload)], None)
  end.

Definition append_entry (m : gmap string (list string)) (e : string * string)
  : gmap string (list string) :=
  <[ fst e := default [] (m !! fst e) ++ [snd e] ]> m.

(** [db.Batch(fn)]: fn fills a new batch; when fn fails the batch is
    abandoned and the error of fn returned, otherwise the batch is committed
    and the result of the commit returned. *)
Definition db_Batch (d : DB) (fn : Batch -> Batch * option error * list event)
  : option error * DB * list event :=
  let '(b, err, evs) := fn [] in
  match err with
  | Some e => (Some e, d, evs)
  | None =>
      match db_commit_error d with
      | Some e => (Some e, d, evs)
      | None =>
          (None,
           {| db_topics := fold_left append_entry b (db_topics d);
              db_get_error := db_get_error d;
              db_put_error := db_put_error d;
              db_commit_error := db_commit_error d |},
           evs)
      end
  end.

(** ** The database layer *)

(** [fmt.Sprintf("user.%s.location", userID)] *)
Definition GetTopicForUser (userID : string) : string :=
  "user." +:+ userID +:+ ".location".

(** A Go function either returns or panics. *)
Inductive go_result (A : Type) : Type :=
| Return (a : A)
| Panic (msg : string).
Arguments Return {A} a.
Arguments Panic {A} msg.

(** The slice expression [l[low:high]]: it panics unless
    [0 <= low <= high <= cap(l)]. At its one use below [high] is at most
    [len(l)], so the length stands for the capacity. *)
Definition slice_expr {A : Type} (l : list A) (low high : Z) : go_result (list A) :=
  if (0 <=? low) && (low <=? high) && (high <=? Z.of_nat (length l))
  then Return (firstn (Z.to_nat (high - low)) (skipn (Z.to_nat low) l))
  else Panic "slice bounds out of range".

Section Database.
Context `{JSON} `{Sort}.

(** The body of the loop of [WriteLocationData], in the callback given to
    [db.Batch]. *)
Definition write_step (d : DB) (userID topic : string)
    (acc : Batch * list event) (data : LocationData) : Batch * list event :=
  let '(b, evs) := acc in
  match json_Marshal data with
  | inr err =>
      (b, evs ++ [EvLog ("Error marshalling location data for user "
                         +:+ userID +:+ ": " +:+ err)])
  | inl payload =>
      match PutEntry d b topic payload with
      | (b', Some err) =>
          (b', evs ++ [EvPutEntry topic payload;
                       EvLog ("Error putting entry in batch for user "
                              +:+ userID +:+ ": " +:+ err)])
      | (b', None) => (b', evs ++ [EvPutEntry topic payload])
      end
  end.

(** The callback of [WriteLocationData]: it ends with [return nil]. *)
Definition write_callback (d : DB) (userID topic : string)
    (dataPoints : list LocationData) (b : Batch)
  : Batch * option error * list event :=
  let '(b', evs) := fold_left (write_step d userID topic) dataPoints (b, []) in
  (b', None, evs).

Definition WriteLocationData (userID : string) (dataPoints : list LocationData)
    (w : World) : option error * World :=
  match db w with
  | None => (Some "database not initialized", w)
  | Some d =>
      let topic := GetTopicForUser userID in
      let '(err, d', evs) := db_Batch d (write_callback d userID topic dataPoints) in
      (err, {| db := Some d'; trace := trace w ++ evs |})
  end.

(** The decoding loop of [ReadLocationData]. *)
Definition read_step (userID : string)
    (acc : list LocationData * list event) (rawMsg : string)
  : list LocationData * list event :=
  let '(locationDataList, evs) := acc in
  match json_Unmarshal rawMsg with
  | inr err =>
      (locationDataList,
       evs ++ [EvLog ("Error unmarshalling data for user " +:+ userID
                      +:+ ": " +:+ err +:+ ". Data: " +:+ rawMsg)])
  | inl data => (locationDataList ++ [data], evs)
  end.

(** "Validate and clamp percentages" *)
Definition clampPercents (minPercent maxPercent : float64) : float64 * float64 :=
  let minPercent := if f64_lt minPercent f64_zero then f64_zero else minPercent in
  let maxPercent := if f64_gt maxPercent f64_one then f64_one else maxPercent in
  let minPercent := if f64_gt minPercent maxPercent then maxPercent else minPercent in
  (minPercent, maxPercent).

(** [startIndex] and [endIndex], with "Ensure indices are within bounds". *)
Definition sliceIndices (arch : GOARCH) (minPercent maxPercent : float64)
    (totalEntries : Z) : Z * Z :=
  let '(minPercent, maxPercent) := clampPercents minPercent maxPercent in
  let startIndex := int_of_float64 arch (f64_mul minPercent (float64_of_int totalEntries)) in
  let endIndex := int_of_float64 arch (f64_mul maxPercent (float64_of_int totalEntries)) in
  let startIndex := if startIndex <? 0 then 0 else startIndex in
  let endIndex := if endIndex >? totalEntries then totalEntries else endIndex in
  let startIndex := if startIndex >? endIndex then endIndex else startIndex in
  (startIndex, endIndex).

(** [ReadLocationData] of the server (with percentage-based slicing). The
    nil slice and the empty slice are both the empty list. *)
Definition ReadLocationData (arch : GOARCH) (userID : string)
    (minPercent maxPercent : float64) (w : World)
  : go_result (list LocationData * option error) * World :=
  match db w with
  | None => (Return ([], Some "database not initialized"), w)
  | Some d =>
      let topic := GetTopicForUser userID in
      let w := emit [EvGet topic] w in
      match db_Get d topic with
      | inr err =>
          (Return ([], Some ("failed to get data for user " +:+ userID
                             +:+ " from DB: " +:+ err)), w)
      | inl rawMessages =>
          if Z.of_nat (length rawMessages) =? 0 then (Return ([], None), w)
          else
            let '(locationDataList, evs) :=
              fold_left (read_step userID) rawMessages ([], []) in
            let w := emit evs w in
            let locationDataList :=
              sort_Slice (fun a b => Before (Timestamp a) (Timestamp b))
                         locationDataList in
            let totalEntries := Z.of_nat (length locationDataList) in
            if totalEntries =? 0 then (Return ([], None), w)
            else
              let '(startIndex, endIndex) :=
                sliceIndices arch minPercent maxPercent totalEntries in
              match slice_expr locationDataList startIndex endIndex with
              | Return s => (Return (s, None), w)
              | Panic msg => (Panic msg, w)
              end
      end
  end.

End Database.

(** ** The simulation manager *)

(** [context.Context]: the contexts made so far live in a heap, in the order
    of their creation. A context records its parent ([None] for a child of
    [context.Background()]) and the error it was cancelled with, if any. *)
Inductive ctx_error : Type := Canceled | DeadlineExceeded.

Record Context : Type := mkContext {
  ctx_parent : option nat;
  ctx_own_err : option ctx_error
}.

(** [ctx.Err()]: a context is done once it or its parent is. The manager
    only ever makes session contexts and their children, so one level of
    parents is all there is. *)
Definition ctx_Err (cs : list Context) (c : nat) : option ctx_error :=
  match cs !! c with
  | None => None
  | Some x =>
      match ctx_own_err x with
      | Some e => Some e
      | None =>
          match ctx_parent x with
          | None => None
          | Some p => x' ← cs !! p; ctx_own_err x'
          end
      end
  end.

(** Calling the [context.CancelFunc] of context [c]: only the first
    cancellation of a context sets its error. *)
Definition cancel_ctx (c : nat) (cs : list Context) : list Context :=
  alter (fun x => {| ctx_parent := ctx_parent x;
                     ctx_own_err := Some (default Canceled (ctx_own_err x)) |}) c cs.

(** The timer of a [context.WithTimeout] firing. *)
Definition expire_ctx (c : nat) (cs : list Context) : list Context :=
  alter (fun x => {| ctx_parent := ctx_parent x;
                     ctx_own_err := Some (default DeadlineExceeded (ctx_own_err x)) |}) c cs.

(** [simulationControl]: the cancel function is named by the context it
    cancels. *)
Record simulationControl : Type := mkControl { cancelFunc : nat }.

(** The package-level variables of the manager, the heap of contexts, the
    goroutines started with [go SimulateUserMovement(userCtx, userID)], the
    session contexts a watcher goroutine waits on, and the log. *)
Record Manager : Type := mkManager {
  activeSimulations : gmap string simulationControl;
  currentSimulationCtx : option nat;
  currentUsers : list string;
  contexts : list Context;
  goroutines : list (nat * string);
  watchers : list nat;
  mlog : list string
}.

Definition initial : Manager :=
  {| activeSimulations := ∅; currentSimulationCtx := None; currentUsers := [];
     contexts := []; goroutines := []; watchers := []; mlog := [] |}.

Definition log_Println (msg : string) (m : Manager) : Manager :=
  {| activeSimulations := activeSimulations m;
     currentSimulationCtx := currentSimulationCtx m;
     currentUsers := currentUsers m;
     contexts := contexts m;
     goroutines := goroutines m;
     watchers := watchers m;
     mlog := mlog m ++ [msg] |}.

(** The body of the loop of [stopSimulationsInternal]:
    [control.cancelFunc(); delete(activeSimulations, userID)]. *)
Definition stop_one (userID : string) (control : simulationControl) (m : Manager)
  : Manager :=
  {| activeSimulations := delete userID (activeSimulations m);
     currentSimulationCtx := currentSimulationCtx m;
     currentUsers := currentUsers m;
     contexts := cancel_ctx (cancelFunc control) (contexts m);
     goroutines := goroutines m;
     watchers := watchers m;
     mlog := mlog m |}.

Definition set_currentUsers (us : list string) (m : Manager) : Manager :=
  {| activeSimulations := activeSimulations m;
     currentSimulationCtx := currentSimulationCtx m;
     currentUsers := us;
     contexts := contexts m;
     goroutines := goroutines m;
     watchers := watchers m;
     mlog := mlog m |}.

(** [stopSimulationsInternal], run under [activeSimulationsMutex]. The loop
    ranges over the entries the table holds when it starts. *)
Definition stopSimulationsInternal (m : Manager) : Manager :=
  if Z.of_nat (size (activeSimulations m)) =? 0 then
    log_Println "Stop request received, but no simulations are currently active." m
  else
    let m := log_Println ("Stopping " +:+ pretty (size (activeSimulations m))
                          +:+ " active simulations...") m in
    let m := map_fold stop_one m (activeSimulations m) in
    let m := set_currentUsers [] m in
    log_Println "All simulations stopped." m.

(** What a handler needs of an [*http.Request]: the method, and for /start
    the outcome of decoding the body into a [StartRequest]. *)
Record StartRequest : Type := mkStartRequest { UserIDs : list string }.

Record Request : Type := mkRequest {
  Method : string;
  Body : StartRequest + error
}.

(** What a handler writes to the [http.ResponseWriter]. *)
Record Response : Type := mkResponse {
  status : Z;
  body : string
}.

Definition StatusOK : Z := 200.
Definition StatusBadRequest : Z := 400.
Definition StatusMethodNotAllowed : Z := 405.

(** [http.Error(w, msg, code)] *)
Definition http_Error (msg : string) (code : Z) : Response :=
  {| status := code; body := msg +:+ String "010" "" |}.

(** [context.WithTimeout(context.Background(), simulationDuration)] stored in
    [currentSimulationCtx] (the cancel function is discarded), and
    [currentUsers] set to a copy of the ids. *)
Definition new_session (ids : list string) (m : Manager) : Manager :=
  {| activeSimulations := activeSimulations m;
     currentSimulationCtx := Some (length (contexts m));
     currentUsers := ids;
     contexts := contexts m ++ [{| ctx_parent := None; ctx_own_err := None |}];
     goroutines := goroutines m;
     watchers := watchers m;
     mlog := mlog m |}.

(** The body of the loop of [handleStart]. *)
Definition start_one (m : Manager) (userID : string) : Manager :=
  if String.eqb userID "" then
    log_Println "Skipping empty user ID in start request" m
  else
    let userCtx := length (contexts m) in
    {| activeSimulations := <[ userID := {| cancelFunc := userCtx |} ]> (activeSimulations m);
       currentSimulationCtx := currentSimulationCtx m;
       currentUsers := currentUsers m;
       contexts := contexts m ++ [{| ctx_parent := currentSimulationCtx m;
                                     ctx_own_err := None |}];
       goroutines := goroutines m ++ [(userCtx, userID)];
       watchers := watchers m;
       mlog := mlog m |}.

(** The goroutine started at the end of [handleStart]; it waits on the
    session context that is current when it starts. *)
Definition go_watcher (m : Manager) : Manager :=
  {| activeSimulations := activeSimulations m;
     currentSimulationCtx := currentSimulationCtx m;
     currentUsers := currentUsers m;
     contexts := contexts m;
     goroutines := goroutines m;
     watchers := watchers m ++ option_list (currentSimulationCtx m);
     mlog := mlog m |}.

Definition handleStart (r : Request) (m : Manager) : Response * Manager :=
  if negb (String.eqb (Method r) "POST") then
    (http_Error "Method Not Allowed" StatusMethodNotAllowed, m)
  else
    let m := stopSimulationsInternal m in
    match Body r with
    | inr err => (http_Error ("Invalid request body: " +:+ err) StatusBadRequest, m)
    | inl req =>
        if Z.of_nat (length (UserIDs req)) =? 0 then
          (http_Error "User ID list cannot be empty" StatusBadRequest, m)
        else
          let m := log_Println ("Received /start request for "
                                +:+ pretty (length (UserIDs req)) +:+ " users") m in
          let m := new_session (UserIDs req) m in
          let m := fold_left start_one (UserIDs req) m in
          let m := go_watcher m in
          ({| status := StatusOK;
              body := "Simulation started for " +:+ pretty (length (UserIDs req))
                      +:+ " users. Will run for approximately 30s."
                      +:+ String "010" "" |}, m)
    end.

Definition handleStop (r : Request) (m : Manager) : Response * Manager :=
  if negb (String.eqb (Method r) "POST") then
    (http_Error "Method Not Allowed" StatusMethodNotAllowed, m)
  else
    let m := stopSimulationsInternal m in
    ({| status := StatusOK; body := "All active simulations stopped." +:+ String "010" "" |}, m).

(** The deadline of session context [c] passing: the context is done with
    [DeadlineExceeded], and a watcher waiting on it wakes up and looks at
    [currentSimulationCtx.Err()]. *)
Definition deadline (c : nat) (m : Manager) : Manager :=
  let m := {| activeSimulations := activeSimulations m;
              currentSimulationCtx := currentSimulationCtx m;
              currentUsers := currentUsers m;
              contexts := expire_ctx c (contexts m);
              goroutines := goroutines m;
              watchers := watchers m;
              mlog := mlog m |} in
  if bool_decide (c ∈ watchers m) then
    match currentSimulationCtx m with
    | Some cur =>
        match ctx_Err (contexts m) cur with
        | Some DeadlineExceeded =>
            stopSimulationsInternal
              (log_Println "Simulation duration (30s) reached, stopping automatically." m)
        | _ => m
        end
    | None => m
    end
  else m.

(** A generator is live as long as the context it was given is not done. *)
Definition live (m : Manager) (g : nat * string) : bool :=
  match ctx_Err (contexts m) (fst g) with
  | None => true
  | Some _ => false
  end.

(** The live generators of an entity. *)
Definition live_generators (m : Manager) (userID : string) : list (nat * string) :=
  filter (fun g => live m g = true /\ snd g = userID) (goroutines m).

(** ** The simulator *)

(** [maxDistancePerStep = 0.004], [batchSize = 100], and the constants [2]
    and [math.Pi] as the compiler converts them to [float64]. *)
Definition maxDistancePerStep : float64 := S754_finite false 4611686018427388 (-60).
Definition batchSize : Z := 100.
Definition f64_two : float64 := S754_finite false 4503599627370496 (-51).
Definition math_Pi : float64 := S754_finite false 7074237752028440 (-51).

(** [math/rand]: [Float64] answers a number of the half-open interval
    [0.0, 1.0) and moves the generator on. *)
Class Rand : Type := {
  rng_state : Type;
  rng_Float64 : rng_state -> float64 * rng_state;
  rng_Float64_valid : forall s, f64_valid (fst (rng_Float64 s)) = true;
  rng_Float64_range : forall s,
      f64_le f64_zero (fst (rng_Float64 s)) = true /\
      f64_lt (fst (rng_Float64 s)) f64_one = true
}.

(** [math.Cos] and [math.Sin] *)
Class Math : Type := {
  math_Cos : float64 -> float64;
  math_Sin : float64 -> float64
}.

Section Simulator.
Context `{JSON} `{Rand} `{Math}.

(** The angle and the magnitude drawn by [generateMovement]. *)
Definition draw_angle (rng : rng_state) : float64 * rng_state :=
  let '(u, rng) := rng_Float64 rng in
  (f64_mul (f64_mul u f64_two) math_Pi, rng).

Definition draw_magnitude (rng : rng_state) : float64 * rng_state :=
  let '(u, rng) := rng_Float64 rng in
  (f64_mul u maxDistancePerStep, rng).

Definition generateMovement (rng : rng_state) : float64 * float64 * rng_state :=
  let '(angle, rng) := draw_angle rng in
  let '(magnitude, rng) := draw_magnitude rng in
  let dx := f64_mul magnitude (math_Cos angle) in
  let dy := f64_mul magnitude (math_Sin angle) in
  (dx, dy, rng).

(** The state of one [SimulateUserMovement] goroutine between two rounds
    of its loop. *)
Record Simulation : Type := mkSimulation {
  sim_rng : rng_state;
  dataBuffer : list LocationData;
  returned : bool
}.

(** Which case the [select] of a round takes; the default case reads the
    clock with [time.Now()]. *)
Inductive select_case : Type :=
| case_Done
| case_flushTicker
| case_default (now : Z).

(** [if err := WriteLocationData(userID, dataBuffer); err != nil { log }] *)
Definition flush (what userID : string) (buf : list LocationData) (w : World)
  : World :=
  match WriteLocationData userID buf w with
  | (Some err, w) =>
      emit [EvLog (what +:+ userID +:+ ": " +:+ err)] w
  | (None, w) => w
  end.

(** One round of the loop of [SimulateUserMovement]. *)
Definition SimulateUserMovement_round (userID : string) (c : select_case)
    (s : Simulation) (w : World) : Simulation * World :=
  match c with
  | case_Done =>
      let w := if Z.of_nat (length (dataBuffer s)) >? 0
               then flush "Error flushing final data for user " userID (dataBuffer s) w
               else w in
      ({| sim_rng := sim_rng s; dataBuffer := dataBuffer s; returned := true |}, w)
  | case_flushTicker =>
      if Z.of_nat (length (dataBuffer s)) >? 0 then
        let w := flush "Error flushing data buffer for user " userID (dataBuffer s) w in
        ({| sim_rng := sim_rng s; dataBuffer := []; returned := false |}, w)
      else (s, w)
  | case_default now =>
      let timestamp := now in
      let '(deltaX, deltaY, rng) := generateMovement (sim_rng s) in
      let dataPoint := {| DeltaX := deltaX; DeltaY := deltaY; Timestamp := timestamp |} in
      let buf := dataBuffer s ++ [dataPoint] in
      if Z.of_nat (length buf) >=? batchSize then
        let w := flush "Error writing batch data for user " userID buf w in
        ({| sim_rng := rng; dataBuffer := []; returned := false |}, w)
      else
        ({| sim_rng := rng; dataBuffer := buf; returned := false |}, w)
  end.

End Simulator.

(** ** Reading aids for the statements below *)

(** The records of a store answer that decode, in the order of the answer,
    and what the decoding loop logs for the others. *)
Definition decoded `{JSON} (rawMessages : list string) : list LocationData :=
  omap (fun raw => match json_Unmarshal raw with
                   | inl data => Some data
                   | inr _ => None
                   end) rawMessages.

Definition decodable `{JSON} (raw : string) : bool :=
  match json_Unmarshal raw with inl _ => true | inr _ => false end.

Definition decode_log `{JSON} (userID : string) (rawMessages : list string)
  : list event :=
  flat_map (fun raw => match json_Unmarshal raw with
                       | inl _ => []
                       | inr err =>
                           [EvLog ("Error unmarshalling data for user " +:+ userID
                                   +:+ ": " +:+ err +:+ ". Data: " +:+ raw)]
                       end) rawMessages.

(** The payloads of a batch of samples that reach the store: those that
    encode and that [PutEntry] accepts. *)
Definition accepted `{JSON} (d : DB) (dataPoints : list LocationData) : list string :=
  omap (fun data => match json_Marshal data with
                    | inl payload =>
                        match db_put_error d payload with
                        | None => Some payload
                        | Some _ => None
                        end
                    | inr _ => None
                    end) dataPoints.

(** The topics of the store calls of a trace, and its log lines. *)
Definition store_topics (evs : list event) : list string :=
  omap (fun ev => match ev with
                  | EvGet t => Some t
                  | EvPutEntry t _ => Some t
                  | EvLog _ => None
                  end) evs.

Definition gets (evs : list event) : list string :=
  omap (fun ev => match ev with EvGet t => Some t | _ => None end) evs.

Definition log_lines (evs : list event) : list string :=
  omap (fun ev => match ev with EvLog msg => Some msg | _ => None end) evs.

(** The entity a key was derived from. *)
Definition user_of_topic (topic : string) : string :=
  substring 5 (String.length topic - 14) topic.

(** The window of [n] entries that the fractions select: the code's indices
    without the clamps. *)
Definition floorIndex (arch : GOARCH) (fraction : float64) (n : Z) : Z :=
  int_of_float64 arch (f64_mul fraction (float64_of_int n)).

(** The value of a finite float, counted in units of [2^-1074], the
    smallest positive [float64]: every finite float64 is a whole number of
    them. *)
Definition ulps (f : float64) : Z :=
  match f with
  | S754_finite _ m e => Z.pos m * 2 ^ (e + 1074)
  | _ => 0
  end.

(** A float that is zero or finite and not negative. *)
Definition f64_nonneg_finite (f : float64) : bool :=
  match f with
  | S754_zero _ => true
  | S754_finite s _ _ => negb s
  | _ => false
  end.

(** A finite float is on the grid when its exponent is at least -1074, as
    the exponent of every [float64] is. *)
Definition f64_on_grid (f : float64) : Prop :=
  match f with
  | S754_finite _ _ e => -1074 <= e
  | _ => True
  end.

(** [V / 2^K] rounded to the nearest integer, ties to even. *)
Definition rne (V K : Z) : Z :=
  let q := V / 2 ^ K in
  match 2 * (V mod 2 ^ K) ?= 2 ^ K with
  | Lt => q
  | Eq => if Z.even q then q else q + 1
  | Gt => q + 1
  end.

(** Rounding to binary64, on integers: [W] counts units of [2^-2148] (as
    the exact product of two floats does) and the result counts units of
    [2^-1074]. The rounding keeps the 53 leading bits of [W], and no bit
    below [2^-1074]. *)
Definition round_exp (W : Z) : Z := Z.max (Z.log2 W + 1 - 53) 1074.

Definition round_ulps (W : Z) : Z := rne W (round_exp W) * 2 ^ (round_exp W - 1074).

(** The number a float stands for, [(-1)^s * m * 2^e], as a rational. *)
Definition f64_value (f : float64) : Q :=
  match f with
  | S754_finite s m e => (inject_Z (cond_Zopp s (Z.pos m)) * Qpower 2 e)%Q
  | _ => 0%Q
  end.

(** The index as the specification words it: [floor(fraction * n)], the
    product being that of the two numbers, without the rounding of
    [float64]. *)
Definition spec_floor (fraction : float64) (n : Z) : Z :=
  Qfloor (f64_value fraction * inject_Z n)%Q.

(** The payloads of a batch of samples that encode, and the entries a trace
    hands to [PutEntry]. *)
Definition encoded `{JSON} (dataPoints : list LocationData) : list string :=
  omap (fun data => match json_Marshal data with
                    | inl payload => Some payload
                    | inr _ => None
                    end) dataPoints.

Definition puts (evs : list event) : list (string * string) :=
  omap (fun ev => match ev with EvPutEntry t p => Some (t, p) | _ => None end) evs.

(** The variables of the manager, without its log. *)
Definition vars (m : Manager) :=
  (activeSimulations m, currentSimulationCtx m, currentUsers m,
   contexts m, goroutines m, watchers m).


(** ** Stand-ins for the libraries, to run the model on examples *)

(** A toy codec: a payload is one character, the timestamp of the sample;
    samples before the epoch do not encode and the empty payload does not
    decode. *)
Definition demo_JSON : JSON :=
  {| json_Marshal := fun data =>
       if Timestamp data <? 0 then inr "Time.MarshalJSON: year outside of range [0,9999]"
       else inl (String (ascii_of_nat (Z.to_nat (Timestamp data))) "");
     json_Unmarshal := fun raw =>
       match raw with
       | EmptyString => inr "unexpected end of JSON input"
       | String c _ =>
           inl {| DeltaX := f64_zero; DeltaY := f64_zero;
                  Timestamp := Z.of_nat (nat_of_ascii c) |}
       end |}.

(** Insertion sort, as a stand-in for [sort.Slice]. *)
Fixpoint insert_by {A : Type} (less : A -> A -> bool) (x : A) (l : list A) : list A :=
  match l with
  | [] => [x]
  | y :: l' => if less x y then x :: y :: l' else y :: insert_by less x l'
  end.

Definition insertion_sort {A : Type} (less : A -> A -> bool) (l : list A) : list A :=
  foldr (insert_by less) [] l.

(** A store with two records for "u1", the second of them corrupt; it
    refuses the payload "c". *)
Definition demo_DB : DB :=
  {| db_topics := {[ "user.u1.location" := ["b"; ""; "a"] ]};
     db_get_error := None;
     db_put_error := fun payload =>
       if String.eqb payload "c" then Some "entry rejected" else None;
     db_commit_error := None |}.

Definition demo_World : World := {| db := Some demo_DB; trace := [] |}.

(** The states the manager can be in: what the handlers and the deadlines
    of session contexts make of the initial state. *)
Inductive reachable : Manager -> Prop :=
| reachable_initial : reachable initial
| reachable_handleStart r m : reachable m -> reachable (snd (handleStart r m))
| reachable_handleStop r m : reachable m -> reachable (snd (handleStop r m))
| reachable_deadline c m : reachable m -> reachable (deadline c m).

(** Every cancel function held in the table belongs to a context of the
    heap. *)
Definition handles_allocated (m : Manager) : Prop :=
  map_Forall (fun _ control => (cancelFunc control < length (contexts m))%nat)
             (activeSimulations m).

Definition POST (ids : list string) : Request :=
  {| Method := "POST"; Body := inl {| UserIDs := ids |} |}.

(** The literal [-1.0]. *)
Definition f64_minus_one : float64 := S754_finite true 4503599627370496 (-52).

(** A store holding one sample for "u1". *)
Definition one_sample_World : World :=
  {| db := Some {| db_topics := {[ "user.u1.location" := ["a"] ]};
                   db_get_error := None;
                   db_put_error := fun _ => None;
                   db_commit_error := None |};
     trace := [] |}.

(** The [float64] nearest to 1/3 (0x3FD5555555555555), a little below it,
    and a store holding three samples for "u3". *)
Definition f64_third : float64 := S754_finite false 6004799503160661 (-54).

Definition three_sample_World : World :=
  {| db := Some {| db_topics := {[ "user.u3.location" := ["c"; "a"; "b"] ]};
                   db_get_error := None;
                   db_put_error := fun _ => None;
                   db_commit_error := None |};
     trace := [] |}.

(** [2 * math.Pi], the product as [float64] computes it. *)
Definition f64_two_pi : float64 := f64_mul f64_two math_Pi.

(** The literal [0.5]. *)
Definition f64_half : float64 := S754_finite false 4503599627370496 (-53).

(** Stand-ins for [math/rand] and [math]: a generator that answers 0.0 and
    0.5 in turn, and constant functions for the cosine and the sine. *)
Definition demo_draw (s : nat) : float64 * nat :=
  (if Nat.even s then f64_zero else f64_half, S s).

Definition demo_Math : Math :=
  {| math_Cos := fun _ => f64_one; math_Sin := fun _ => f64_zero |}.

(** ** The handler of GET /user/{user_id} *)

(** [strings.TrimPrefix] and [strings.Split] with a one-character
    separator. *)
Definition strings_TrimPrefix (s pre : string) : string :=
  if String.prefix pre s
  then substring (String.length pre) (String.length s - String.length pre) s
  else s.

Fixpoint strings_Split (s : string) (sep : ascii) : list string :=
  match s with
  | EmptyString => [EmptyString]
  | String a s' =>
      if Ascii.eqb a sep then EmptyString :: strings_Split s' sep
      else match strings_Split s' sep with
           | p :: ps => String a p :: ps
           | [] => [String a EmptyString]
           end
  end.

(** Whether a character occurs in a string. *)
Fixpoint occurs (c : ascii) (s : string) : bool :=
  match s with
  | EmptyString => false
  | String a s' => Ascii.eqb a c || occurs c s'
  end.

Record UserDataResponse : Type := mkUserDataResponse {
  UserID : string;
  Data : list LocationData
}.

(** [strconv.ParseFloat(s, 64)] answers a [float64] and an error; ["%.2f"]
    prints a float; [json.NewEncoder(w).Encode] either writes the encoded
    response or fails before it has written anything. *)
Class HTTPLibs : Type := {
  strconv_ParseFloat : string -> float64 * option error;
  strconv_ParseFloat_valid : forall s, f64_valid (fst (strconv_ParseFloat s)) = true;
  fmt_2f : float64 -> string;
  json_Encode : UserDataResponse -> string + error
}.

(** What [handleGetUser] reads of the request: the method, the path and the
    query parameters "min" and "max" ([Query().Get] answers "" for a
    parameter that is absent). *)
Record GetRequest : Type := mkGetRequest {
  getMethod : string;
  getPath : string;
  getMin : string;
  getMax : string
}.

Definition StatusNotFound : Z := 404.
Definition StatusInternalServerError : Z := 500.

Section Handler.
Context `{JSON} `{Sort} `{HTTPLibs}.

(** A query parameter: its value and whether the request is to be refused
    for it ([err != nil || v < 0.0 || v > 1.0]). *)
Definition parsePercent (str : string) (dflt : float64) : float64 * bool :=
  if negb (String.eqb str "") then
    let '(v, err) := strconv_ParseFloat str in
    (v, match err with Some _ => true | None => false end
        || f64_lt v f64_zero || f64_gt v f64_one)
  else (dflt, false).

Definition handleGetUser (arch : GOARCH) (r : GetRequest) (w : World)
  : go_result Response * World :=
  if negb (String.eqb (getMethod r) "GET") then
    (Return (http_Error "Method Not Allowed" StatusMethodNotAllowed), w)
  else
    match strings_Split (strings_TrimPrefix (getPath r) "/") "/" with
    | [p0; userID] =>
        if negb (String.eqb p0 "user") || String.eqb userID "" then
          (Return (http_Error "Invalid URL path. Expected /user/{user_id}"
                              StatusBadRequest), w)
        else
          let '(minPercent, badMin) := parsePercent (getMin r) f64_zero in
          if badMin then
            (Return (http_Error
                       "Invalid 'min' parameter. Must be a float between 0.0 and 1.0."
                       StatusBadRequest), w)
          else
            let '(maxPercent, badMax) := parsePercent (getMax r) f64_one in
            if badMax then
              (Return (http_Error
                         "Invalid 'max' parameter. Must be a float between 0.0 and 1.0."
                         StatusBadRequest), w)
            else if f64_gt minPercent maxPercent then
              (Return (http_Error
                         "'min' parameter cannot be greater than 'max' parameter."
                         StatusBadRequest), w)
            else
              let w := emit [EvLog ("GET /user/" +:+ userID +:+ " request with min="
                                    +:+ fmt_2f minPercent +:+ ", max="
                                    +:+ fmt_2f maxPercent)] w in
              match ReadLocationData arch userID minPercent maxPercent w with
              | (Panic msg, w) => (Panic msg, w)
              | (Return (_, Some err), w) =>
                  (Return (http_Error ("Failed to retrieve data for user " +:+ userID
                                       +:+ ": " +:+ err)
                                      StatusInternalServerError),
                   emit [EvLog ("Error reading data for user " +:+ userID
                                +:+ ": " +:+ err)] w)
              | (Return (userData, None), w) =>
                  if Z.of_nat (length userData) =? 0 then
                    (Return (http_Error ("No data found for user " +:+ userID
                                         +:+ " within the specified range")
                                        StatusNotFound), w)
                  else
                    match json_Encode {| UserID := userID; Data := userData |} with
                    | inl text => (Return {| status := StatusOK; body := text |}, w)
                    | inr err =>
                        (* the status line is out already: [http.Error] only
                           adds its text *)
                        (Return {| status := StatusOK;
                                   body := "Failed to encode response" +:+ String "010" "" |},
                         emit [EvLog ("Error encoding /user/" +:+ userID
                                      +:+ " response: " +:+ err)] w)
                    end
              end
    | _ =>
        (Return (http_Error "Invalid URL path. Expected /user/{user_id}"
                            StatusBadRequest), w)
    end.

(** [ReadLocationData] as the file database.go has it, without the
    fractions: the decoded samples in the order of the store. *)
Definition ReadLocationData_all (userID : string) (w : World)
  : list LocationData * option error * World :=
  match db w with
  | None => ([], Some "database not initialized", w)
  | Some d =>
      let topic := GetTopicForUser userID in
      let w := emit [EvGet topic] w in
      match db_Get d topic with
      | inr err =>
          ([], Some ("failed to get data for user " +:+ userID
                     +:+ " from DB: " +:+ err), w)
      | inl rawMessages =>
          if Z.of_nat (length rawMessages) =? 0 then ([], None, w)
          else
            let '(locationDataList, evs) :=
              fold_left (read_step userID) rawMessages ([], []) in
            (locationDataList, None, emit evs w)
      end
  end.

End Handler.

(** ** The loop of the simulator *)

Section SimulatorLoop.
Context `{JSON} `{Rand} `{Math}.

(** The rounds of [SimulateUserMovement], one per [select] case taken; the
    loop is left at the [return] of the cancelled case. *)
Fixpoint SimulateUserMovement_run (userID : string) (cases : list select_case)
    (s : Simulation) (w : World) : Simulation * World :=
  match cases with
  | [] => (s, w)
  | c :: cases =>
      if returned s then (s, w)
      else
        let '(s, w) := SimulateUserMovement_round userID c s w in
        SimulateUserMovement_run userID cases s w
  end.

(** The samples generated in a sequence of rounds, from the state of the
    random source at its start. *)
Fixpoint generated (rng : rng_state) (cases : list select_case) : list LocationData :=
  match cases with
  | [] => []
  | case_default now :: cases =>
      let '(deltaX, deltaY, rng) := generateMovement rng in
      {| DeltaX := deltaX; DeltaY := deltaY; Timestamp := now |} :: generated rng cases
  | _ :: cases => generated rng cases
  end.

End SimulatorLoop.

(** ** The manager: the table and the generators *)

(** The contexts the manager refers to are in the heap: those of the
    goroutines, the parents, the session context and the handles. *)
Definition heap_wf (m : Manager) : Prop :=
  Forall (fun g : nat * string => (fst g < length (contexts m))%nat) (goroutines m)
  /\ Forall (fun x => match ctx_parent x with
                      | Some p => (p < length (contexts m))%nat
                      | None => True
                      end) (contexts m)
  /\ match currentSimulationCtx m with
     | Some c => (c < length (contexts m))%nat
     | None => True
     end.

(** The session context that the context of a generator is a child of. *)
Definition session_of (m : Manager) (g : nat * string) : option nat :=
  x ← contexts m !! fst g; ctx_parent x.

(** Every generator has a session. *)
Definition has_session (m : Manager) : Prop :=
  Forall (fun g => is_Some (session_of m g)) (goroutines m).

(** A heap of contexts and what it may become: every context is still
    there, with the same parent, and as it was if it was done. *)
Definition ctx_le (cs cs' : list Context) : Prop :=
  length cs' = length cs
  /\ forall c x0, cs !! c = Some x0 ->
       exists x1, cs' !! c = Some x1
                  /\ ctx_parent x1 = ctx_parent x0
                  /\ (is_Some (ctx_own_err x0) -> x1 = x0).



(** The states the manager can go to from a state. *)
Inductive steps : Manager -> Manager -> Prop :=
| steps_refl m : steps m m
| steps_handleStart r m m' : steps m m' -> steps m (snd (handleStart r m'))
| steps_handleStop r m m' : steps m m' -> steps m (snd (handleStop r m'))
| steps_deadline c m m' : steps m m' -> steps m (deadline c m').

(** A store and what it has grown to: the same
    failures, the same streams under the other keys, and the stream of the
    entity longer by the payloads given. *)
Definition grown (userID : string) (d d' : DB) (payloads : list string) : Prop :=
  db_get_error d' = db_get_error d
  /\ db_put_error d' = db_put_error d
  /\ db_commit_error d' = db_commit_error d
  /\ (forall topic, topic <> GetTopicForUser userID ->
        db_topics d' !! topic = db_topics d !! topic)
  /\ default [] (db_topics d' !! GetTopicForUser userID)
     = default [] (db_topics d !! GetTopicForUser userID) ++ payloads.

(** The request GET /user/{userID} with the query parameters given. *)
Definition GET_user (userID min max : string) : GetRequest :=
  {| getMethod := "GET"; getPath := "/user/" +:+ userID; getMin := min; getMax := max |}.

(** A stand-in for the libraries of the handler: "NaN" parses to NaN, "x"
    does not parse, "0.5" parses to 0.5 and everything else to 1.0. *)
Definition demo_ParseFloat (s : string) : float64 * option error :=
  if String.eqb s "NaN" then (S754_nan, None)
  else if String.eqb s "x" then (f64_zero, Some "strconv.ParseFloat: invalid syntax")
  else if String.eqb s "0.5" then (f64_half, None)
  else (f64_one, None).
(* ===================================================================== *)
(** * Part II: properties *)
(* ===================================================================== *)

(** ** The database layer: loops *)

Section DatabaseFacts.
Context `{JSON} `{Sort}.

Lemma read_loop (userID : string) (rawMessages : list string) :
  forall acc evs,
    fold_left (read_step userID) rawMessages (acc, evs)
    = (acc ++ decoded rawMessages, evs ++ decode_log userID rawMessages).
Proof.
  induction rawMessages as [|raw raws IH]; intros acc evs; simpl.
  - by rewrite !app_nil_r.
  - unfold decoded, decode_log in *. simpl.
    destruct (json_Unmarshal raw) as [data|err]; rewrite IH; simpl.
    + by rewrite <- app_assoc.
    + by rewrite <- app_assoc.
Qed.

Lemma write_loop (d : DB) (userID topic : string) (dataPoints : list LocationData) :
  forall b evs,
    exists evs',
      fold_left (write_step d userID topic) dataPoints (b, evs)
      = (b ++ map (pair topic) (accepted d dataPoints), evs ++ evs')
      /\ Forall (eq topic) (store_topics evs')
      /\ length (log_lines evs')
         = (length dataPoints - length (accepted d dataPoints))%nat
      /\ (length (accepted d dataPoints) <= length dataPoints)%nat.
Proof.
  induction dataPoints as [|data pts IH]; intros b evs; simpl.
  - exists []. rewrite !app_nil_r. repeat split; auto. 
  - unfold accepted in *. simpl. unfold PutEntry.
    destruct (json_Marshal data) as [payload|err]; simpl.
    + destruct (db_put_error d payload) as [e|]; simpl.
      * destruct (IH b (evs ++ [EvPutEntry topic payload;
            EvLog ("Error putting entry in batch for user " +:+ userID +:+ ": " +:+ e)]))
          as (evs' & -> & Ht & Hl & Hle).
        eexists. split; [by rewrite <- app_assoc|].
        split; [simpl; by constructor|]. simpl. split; [|lia].
        rewrite Hl. lia.
      * destruct (IH (b ++ [(topic, payload)]) (evs ++ [EvPutEntry topic payload]))
          as (evs' & -> & Ht & Hl & Hle).
        eexists. split; [by rewrite <- !app_assoc|].
        split; [simpl; by constructor|]. simpl. split; lia.
    + destruct (IH b (evs ++ [EvLog ("Error marshalling location data for user "
                                     +:+ userID +:+ ": " +:+ err)]))
        as (evs' & -> & Ht & Hl & Hle).
      eexists. split; [by rewrite <- app_assoc|].
      split; [simpl; done|]. simpl. split; [|lia]. rewrite Hl. lia.
Qed.

End DatabaseFacts.

(** ** The database layer: keys *)

Lemma substring_prefix (s t : string) :
  substring 0 (String.length s) (s +:+ t) = s.
Proof. induction s as [|c s IH]; simpl; [by destruct t | by rewrite IH]. Qed.

Lemma length_append (s t : string) :
  String.length (s +:+ t) = (String.length s + String.length t)%nat.
Proof. induction s as [|c s IH]; simpl; [done | by rewrite IH]. Qed.

Lemma user_of_topic_GetTopicForUser (userID : string) :
  user_of_topic (GetTopicForUser userID) = userID.
Proof.
  unfold user_of_topic, GetTopicForUser.
  replace (String.length ("user." +:+ userID +:+ ".location") - 14)%nat
    with (String.length userID).
  - change ("user." +:+ userID +:+ ".location")
      with (String "u" (String "s" (String "e" (String "r" (String "."
              (userID +:+ ".location")))))).
    cbn [substring]. apply substring_prefix.
  - rewrite !length_append. simpl. lia.
Qed.

Lemma GetTopicForUser_inj (u u' : string) :
  GetTopicForUser u = GetTopicForUser u' -> u = u'.
Proof.
  intros Heq. rewrite <- (user_of_topic_GetTopicForUser u), Heq.
  apply user_of_topic_GetTopicForUser.
Qed.

Lemma fold_append_entry (topic : string) (ps : list string) :
  forall m : gmap string (list string),
    delete topic (fold_left append_entry (map (pair topic) ps) m) = delete topic m
    /\ default [] (fold_left append_entry (map (pair topic) ps) m !! topic)
       = default [] (m !! topic) ++ ps.
Proof.
  induction ps as [|p ps IH]; intros m; simpl.
  - by rewrite app_nil_r.
  - destruct (IH (append_entry m (topic, p))) as [-> ->].
    unfold append_entry; simpl. rewrite delete_insert_eq, lookup_insert_eq. simpl.
    by rewrite <- app_assoc.
Qed.

Section ReadWrite.
Context `{JSON} `{Sort}.

(** What [WriteLocationData] does when the database is open. *)
Lemma WriteLocationData_open (userID : string) (dataPoints : list LocationData)
    (w : World) (d : DB) :
  db w = Some d ->
  exists evs d',
    WriteLocationData userID dataPoints w
    = (db_commit_error d, {| db := Some d'; trace := trace w ++ evs |})
    /\ Forall (eq (GetTopicForUser userID)) (store_topics evs)
    /\ length (log_lines evs)
       = (length dataPoints - length (accepted d dataPoints))%nat
    /\ delete (GetTopicForUser userID) (db_topics d')
       = delete (GetTopicForUser userID) (db_topics d)
    /\ default [] (db_topics d' !! GetTopicForUser userID)
       = default [] (db_topics d !! GetTopicForUser userID)
         ++ match db_commit_error d with
            | Some _ => []
            | None => accepted d dataPoints
            end.
Proof.
  intros Hd. unfold WriteLocationData, db_Batch, write_callback. rewrite Hd.
  destruct (write_loop d userID (GetTopicForUser userID) dataPoints [] [])
    as (evs & -> & Ht & Hl & _).
  simpl. exists evs.
  destruct (db_commit_error d) as [e|] eqn:He.
  - exists d. repeat split; auto. by rewrite app_nil_r.
  - eexists. split; [reflexivity|]. simpl.
    destruct (fold_append_entry (GetTopicForUser userID) (accepted d dataPoints)
                (db_topics d)) as [Hdel Hget].
    repeat split; auto.
Qed.

(** What [ReadLocationData] does once [db.Get] has answered. *)
Lemma ReadLocationData_open (arch : GOARCH) (userID : string)
    (minPercent maxPercent : float64) (w : World) (d : DB) :
  db w = Some d -> db_get_error d = None ->
  let topic := GetTopicForUser userID in
  let rawMessages := default [] (db_topics d !! topic) in
  let sorted := sort_Slice (fun a b => Before (Timestamp a) (Timestamp b))
                           (decoded rawMessages) in
  let n := Z.of_nat (length (decoded rawMessages)) in
  ReadLocationData arch userID minPercent maxPercent w
  = (if n =? 0 then Return ([], None)
     else match slice_expr sorted (fst (sliceIndices arch minPercent maxPercent n))
                           (snd (sliceIndices arch minPercent maxPercent n)) with
          | Return s => Return (s, None)
          | Panic msg => Panic msg
          end,
     emit (EvGet topic :: decode_log userID rawMessages) w).
Proof.
  intros Hd Hg topic rawMessages sorted n.
  unfold ReadLocationData, db_Get. rewrite Hd, Hg.
  fold topic. fold rawMessages.
  assert (Hlen : Z.of_nat (length sorted) = n).
  { unfold sorted, n. by rewrite (Permutation_length (sort_Slice_perm _ _ _)). }
  destruct rawMessages as [|raw raws] eqn:Hraw.
  - simpl. subst n. simpl. reflexivity.
  - rewrite read_loop. cbn [app].
    replace (Z.of_nat (length (raw :: raws)) =? 0) with false
      by (symmetry; apply Z.eqb_neq; simpl; lia).
    fold sorted. rewrite Hlen.
    assert (Hw : emit (decode_log userID (raw :: raws)) (emit [EvGet topic] w)
                 = emit (EvGet topic :: decode_log userID (raw :: raws)) w).
    { unfold emit; simpl. by rewrite <- app_assoc. }
    rewrite Hw.
    destruct (n =? 0); [reflexivity|].
    destruct (sliceIndices arch minPercent maxPercent n) as [s e]. simpl.
    by destruct (slice_expr sorted s e).
Qed.

(** What a write leaves of the store: the failures it is subject to are the
    same, the streams under the other keys are the same, and the stream of
    the entity has grown by the accepted payloads, if the commit went
    through. *)
Lemma WriteLocationData_db (userID : string) (dataPoints : list LocationData)
    (w : World) (d : DB) :
  db w = Some d ->
  exists d',
    db (snd (WriteLocationData userID dataPoints w)) = Some d'
    /\ fst (WriteLocationData userID dataPoints w) = db_commit_error d
    /\ db_get_error d' = db_get_error d
    /\ db_put_error d' = db_put_error d
    /\ db_commit_error d' = db_commit_error d
    /\ (forall topic, topic <> GetTopicForUser userID ->
          db_topics d' !! topic = db_topics d !! topic)
    /\ default [] (db_topics d' !! GetTopicForUser userID)
       = default [] (db_topics d !! GetTopicForUser userID)
         ++ match db_commit_error d with
            | Some _ => []
            | None => accepted d dataPoints
            end.
Proof.
  intros Hd. unfold WriteLocationData, db_Batch, write_callback. rewrite Hd.
  destruct (write_loop d userID (GetTopicForUser userID) dataPoints [] [])
    as (evs & -> & _).
  cbn [app]. destruct (db_commit_error d) as [e|] eqn:He; cbn [fst snd db].
  - exists d. rewrite He, app_nil_r. by repeat split.
  - eexists. split; [reflexivity|]. cbn.
    destruct (fold_append_entry (GetTopicForUser userID) (accepted d dataPoints)
                (db_topics d)) as [Hdel Hget].
    repeat split; try done.
    intros topic Hne.
    rewrite <- (lookup_delete_ne _ (GetTopicForUser userID) topic) by done.
    rewrite Hdel. by rewrite lookup_delete_ne.
Qed.

(** The store calls of a write: one [PutEntry] under the key of the entity
    for each sample that encodes, in the order of the batch, and no
    [Get]. *)
Lemma write_loop_puts (d : DB) (userID topic : string) (dataPoints : list LocationData) :
  forall b evs,
    puts (snd (fold_left (write_step d userID topic) dataPoints (b, evs)))
    = puts evs ++ map (pair topic) (encoded dataPoints)
    /\ gets (snd (fold_left (write_step d userID topic) dataPoints (b, evs))) = gets evs.
Proof.
  induction dataPoints as [|data pts IH]; intros b evs; cbn [fold_left].
  - cbn. by rewrite app_nil_r.
  - destruct (write_step d userID topic (b, evs) data) as [b' evs'] eqn:Hstep.
    destruct (IH b' evs') as [-> ->].
    unfold write_step, PutEntry in Hstep. unfold encoded, puts, gets.
    cbn [omap list_omap].
    destruct (json_Marshal data) as [payload|err].
    + destruct (db_put_error d payload) as [e|]; injection Hstep as <- <-;
        rewrite !omap_app; cbn; by rewrite !app_nil_r, <- ?app_assoc.
    + injection Hstep as <- <-. rewrite !omap_app. cbn. by rewrite !app_nil_r.
Qed.

Lemma WriteLocationData_calls (userID : string) (dataPoints : list LocationData)
    (w : World) (d : DB) :
  db w = Some d ->
  exists evs,
    trace (snd (WriteLocationData userID dataPoints w)) = trace w ++ evs
    /\ puts evs = map (pair (GetTopicForUser userID)) (encoded dataPoints)
    /\ gets evs = [].
Proof.
  intros Hd. unfold WriteLocationData, db_Batch, write_callback. rewrite Hd.
  destruct (write_loop_puts d userID (GetTopicForUser userID) dataPoints [] [])
    as [Hp Hg].
  destruct (fold_left _ _ _) as [b evs]. cbn [snd] in Hp, Hg.
  exists evs. by destruct (db_commit_error d).
Qed.

(** The store calls of the decoding loop: none. *)
Lemma decode_log_calls (userID : string) (rawMessages : list string) :
  store_topics (decode_log userID rawMessages) = []
  /\ gets (decode_log userID rawMessages) = [].
Proof.
  unfold decode_log, store_topics, gets.
  induction rawMessages as [|raw raws [IH1 IH2]]; [done|].
  cbn [flat_map]. rewrite !omap_app, IH1, IH2.
  by destruct (json_Unmarshal raw).
Qed.

End ReadWrite.

(** ** Stand-ins *)

Lemma insert_by_perm {A : Type} (less : A -> A -> bool) (x : A) (l : list A) :
  Permutation (insert_by less x l) (x :: l).
Proof.
  induction l as [|y l IH]; simpl; [done|].
  destruct (less x y); [done|].
  rewrite IH. apply perm_swap.
Qed.

Lemma insertion_sort_perm (A : Type) (less : A -> A -> bool) (l : list A) :
  Permutation (insertion_sort less l) l.
Proof.
  induction l as [|x l IH]; simpl; [done|].
  rewrite insert_by_perm. by constructor.
Qed.

Lemma insert_by_sorted {A : Type} (less : A -> A -> bool) (x : A) (l : list A) :
  (forall a b, less a b = true -> less b a = false) ->
  Sorted (fun a b => less b a = false) l ->
  Sorted (fun a b => less b a = false) (insert_by less x l).
Proof.
  intros Hasym. induction l as [|y l IH]; intros Hs; simpl.
  - by repeat constructor.
  - destruct (less x y) eqn:Hxy.
    + constructor; [done|]. constructor. by apply Hasym.
    + apply Sorted_inv in Hs as [Hs Hhd].
      constructor; [by apply IH|].
      destruct l as [|z l]; simpl.
      * by constructor.
      * destruct (less x z); constructor; [done|]. by inversion Hhd.
  Qed.

Lemma insertion_sort_sorted (A : Type) (less : A -> A -> bool) (l : list A) :
  strict_weak_order less ->
  Sorted (fun a b => less b a = false) (insertion_sort less l).
Proof.
  intros (Hirr & Htr & _).
  assert (Hasym : forall a b, less a b = true -> less b a = false).
  { intros a b Hab. destruct (less b a) eqn:Hba; [|done].
    by rewrite <- (Hirr a), (Htr a b a Hab Hba). }
  induction l as [|x l IH]; simpl; [constructor|].
  by apply insert_by_sorted.
Qed.

Definition demo_Sort : Sort :=
  {| sort_Slice := @insertion_sort;
     sort_Slice_perm := insertion_sort_perm;
     sort_Slice_sorted := insertion_sort_sorted |}.

(** ** The database layer: errors and keys *)

Section DatabaseClaims.
Context `{JSON} `{Sort}.

(** C6. [ReadLocationData] returns an error exactly when [db] is nil or
    [db.Get] fails: in both cases the error is returned with no data, and
    the store was asked at most once (not at all when [db] is nil, once
    when [db.Get] fails); in every other case no error is returned. *)
Theorem C6_ReadLocationData_store_unavailable (arch : GOARCH) (userID : string)
    (minPercent maxPercent : float64) (w : World) :
  let r := ReadLocationData arch userID minPercent maxPercent w in
  match db w with
  | None => r = (Return ([], Some "database not initialized"), w)
  | Some d =>
      match db_get_error d with
      | Some e =>
          r = (Return ([], Some ("failed to get data for user " +:+ userID
                                 +:+ " from DB: " +:+ e)),
               emit [EvGet (GetTopicForUser userID)] w)
      | None =>
          ((exists data, fst r = Return (data, None)) \/ (exists msg, fst r = Panic msg))
          /\ exists evs, snd r = emit evs w
                         /\ gets evs = [GetTopicForUser userID]
      end
  end.
Proof.
  intros r. subst r.
  destruct (db w) as [d|] eqn:Hd.
  - destruct (db_get_error d) as [e|] eqn:He.
    + unfold ReadLocationData, db_Get. by rewrite Hd, He.
    + rewrite (ReadLocationData_open arch userID minPercent maxPercent w d Hd He).
      cbn [fst snd]. split.
      * destruct (_ =? 0); [left; eauto|].
        destruct (slice_expr _ _ _); [left|right]; eauto.
      * eexists. split; [reflexivity|]. simpl. f_equal.
        unfold decode_log.
        induction (default [] (db_topics d !! GetTopicForUser userID)) as [|raw raws IH];
          simpl; [done|].
        unfold gets in *. rewrite omap_app, IH, app_nil_r.
        by destruct (json_Unmarshal raw).
  - unfold ReadLocationData. by rewrite Hd.
Qed.

(** C10. With the database open, what [WriteLocationData] returns is the
    result of committing the batch and nothing else: the callback returns nil
    whatever happens to the samples. So when the commit succeeds the
    result is nil, as it is for the empty batch, even if samples fail to
    encode or are refused by [PutEntry]; each such sample leaves one log
    line and is dropped, and the store gets the other payloads only. *)
Theorem C10_WriteLocationData_hides_record_errors (userID : string)
    (dataPoints : list LocationData) (w : World) (d : DB) :
  db w = Some d ->
  db_commit_error d = None ->
  let r := WriteLocationData userID dataPoints w in
  fst r = None
  /\ fst r = fst (WriteLocationData userID [] w)
  /\ snd (fst (write_callback d userID (GetTopicForUser userID) dataPoints [])) = None
  /\ (exists evs, trace (snd r) = trace w ++ evs
                  /\ length (log_lines evs)
                     = (length dataPoints - length (accepted d dataPoints))%nat)
  /\ (exists d', db (snd r) = Some d'
                 /\ default [] (db_topics d' !! GetTopicForUser userID)
                    = default [] (db_topics d !! GetTopicForUser userID)
                      ++ accepted d dataPoints).
Proof.
  intros Hd Hc r. subst r.
  destruct (WriteLocationData_open userID dataPoints w d Hd)
    as (evs & d' & -> & _ & Hl & _ & Hget).
  destruct (WriteLocationData_open userID [] w d Hd) as (evs0 & d0 & -> & _).
  rewrite Hc in *. cbn [fst snd db trace].
  split; [done|]. split; [done|]. split.
  - unfold write_callback.
    by destruct (fold_left _ _ _).
  - split; eauto.
Qed.

End DatabaseClaims.

(** A batch of three samples: the second does not encode (it is dated before
    the epoch) and the third is refused by the store; the call still returns
    nil. *)
Lemma C10_witness :
  let pts := [ {| DeltaX := f64_zero; DeltaY := f64_zero; Timestamp := 97 |};
               {| DeltaX := f64_zero; DeltaY := f64_zero; Timestamp := -1 |};
               {| DeltaX := f64_zero; DeltaY := f64_zero; Timestamp := 99 |} ] in
  @accepted demo_JSON demo_DB pts = ["a"]
  /\ fst (@WriteLocationData demo_JSON "u1" pts demo_World) = None.
Proof.
  intros pts. split; [reflexivity|].
  apply (@C10_WriteLocationData_hides_record_errors demo_JSON "u1" pts demo_World demo_DB);
    reflexivity.
Defined.

(** ** The simulation manager *)

(** The loop of [stopSimulationsInternal], started in state [m0] over the
    entries [t], ends in a state [r] where: the entries of [t] are gone from
    the table; every context is still there with its parent, done if it was
    done, done if an entry of [t] held its cancel function, and untouched if
    none did; nothing else has changed. *)
Definition stop_loop_inv (m0 r : Manager) (t : gmap string simulationControl) : Prop :=
  (forall k, activeSimulations r !! k
             = match t !! k with Some _ => None | None => activeSimulations m0 !! k end)
  /\ currentSimulationCtx r = currentSimulationCtx m0
  /\ currentUsers r = currentUsers m0
  /\ goroutines r = goroutines m0
  /\ watchers r = watchers m0
  /\ mlog r = mlog m0
  /\ length (contexts r) = length (contexts m0)
  /\ (forall c x0, contexts m0 !! c = Some x0 ->
        exists x1, contexts r !! c = Some x1
                   /\ ctx_parent x1 = ctx_parent x0
                   /\ (is_Some (ctx_own_err x0) -> x1 = x0)
                   /\ ((exists k x, t !! k = Some x /\ cancelFunc x = c) ->
                       is_Some (ctx_own_err x1))
                   /\ ((forall k x, t !! k = Some x -> cancelFunc x <> c) -> x1 = x0)).

Lemma stop_loop (m0 : Manager) (t : gmap string simulationControl) :
  stop_loop_inv m0 (map_fold stop_one m0 t) t.
Proof.
  apply (map_fold_weak_ind (stop_loop_inv m0)).
  - unfold stop_loop_inv. repeat split; auto.
    intros c x0 Hc. exists x0. repeat split; auto.
    intros (k & x & Hk & _). by rewrite lookup_empty in Hk.
  - intros i x t' r Hi (Htab & Hctx & Hus & Hgo & Hwa & Hlog & Hlen & Hcs).
    unfold stop_loop_inv, stop_one; cbn.
    split.
    { intros k. destruct (decide (i = k)) as [->|Hne].
      - by rewrite lookup_delete_eq, lookup_insert_eq.
      - rewrite lookup_delete_ne, lookup_insert_ne by done. apply Htab. }
    repeat (split; [done|]).
    split; [unfold cancel_ctx; by rewrite length_alter|].
    intros c x0 Hc. destruct (Hcs c x0 Hc) as (x1 & Hx1 & Hpar & Hdone & Hsig & Hsame).
    unfold cancel_ctx.
    destruct (decide (cancelFunc x = c)) as [Heq|Hne].
    + subst c. rewrite list_lookup_alter_eq, Hx1. simpl.
      eexists. split; [reflexivity|]. cbn. split; [done|].
      split.
      { intros Hs. specialize (Hdone Hs). subst x1.
        destruct x0 as [p [e|]]; [done|]. by destruct Hs. }
      split; [eauto|].
      intros Hall. exfalso. apply (Hall i x); [apply lookup_insert_eq|done].
    + rewrite list_lookup_alter_ne by done.
      exists x1. split; [done|]. split; [done|]. split; [done|]. split.
      * intros (k & y & Hk & Hy). apply Hsig.
        destruct (decide (i = k)) as [->|Hik].
        -- rewrite lookup_insert_eq in Hk. congruence.
        -- rewrite lookup_insert_ne in Hk by done. eauto.
      * intros Hall. apply Hsame. intros k y Hk.
        apply (Hall k y). rewrite lookup_insert_ne; [done|]. congruence.
Qed.

Lemma stop_empties_table (m : Manager) :
  activeSimulations (stopSimulationsInternal m) = ∅.
Proof.
  unfold stopSimulationsInternal.
  destruct (Z.of_nat (size (activeSimulations m)) =? 0) eqn:Hsz.
  - cbn. apply map_size_empty_iff. apply Z.eqb_eq in Hsz. lia.
  - cbn. destruct (stop_loop (log_Println
      ("Stopping " +:+ pretty (size (activeSimulations m)) +:+ " active simulations...") m)
      (activeSimulations m)) as (Htab & _).
    apply map_eq. intros k. cbn in Htab. rewrite Htab, lookup_empty.
    by destruct (activeSimulations m !! k).
Qed.

Lemma stop_noop (m : Manager) :
  activeSimulations m = ∅ ->
  stopSimulationsInternal m
  = log_Println "Stop request received, but no simulations are currently active." m.
Proof.
  intros He. unfold stopSimulationsInternal. by rewrite He, map_size_empty.
Qed.

Lemma stop_contexts (m : Manager) :
  length (contexts (stopSimulationsInternal m)) = length (contexts m)
  /\ forall c x0, contexts m !! c = Some x0 ->
       exists x1, contexts (stopSimulationsInternal m) !! c = Some x1
                  /\ ctx_parent x1 = ctx_parent x0
                  /\ (is_Some (ctx_own_err x0) -> x1 = x0)
                  /\ ((exists k x, activeSimulations m !! k = Some x /\ cancelFunc x = c) ->
                      is_Some (ctx_own_err x1))
                  /\ ((forall k x, activeSimulations m !! k = Some x -> cancelFunc x <> c) ->
                      x1 = x0).
Proof.
  unfold stopSimulationsInternal.
  destruct (Z.of_nat (size (activeSimulations m)) =? 0) eqn:Hsz.
  - cbn. split; [done|]. intros c x0 Hc. exists x0. repeat split; auto.
    intros (k & x & Hk & _). apply Z.eqb_eq in Hsz.
    assert (He : activeSimulations m = ∅) by (apply map_size_empty_iff; lia).
    by rewrite He, lookup_empty in Hk.
  - cbn. destruct (stop_loop (log_Println
      ("Stopping " +:+ pretty (size (activeSimulations m)) +:+ " active simulations...") m)
      (activeSimulations m)) as (_ & _ & _ & _ & _ & _ & Hlen & Hcs).
    split; [exact Hlen|]. exact Hcs.
Qed.

Definition fresh_child (m : Manager) : Context :=
  {| ctx_parent := currentSimulationCtx m; ctx_own_err := None |}.

(** The loop of [handleStart] starts one goroutine per non-empty id, in the
    order of the list, each under a new child of the session context, and
    writes one log line per empty id. *)
Lemma start_loop (ids : list string) :
  forall m,
    exists gs,
      goroutines (fold_left start_one ids m) = goroutines m ++ gs
      /\ map snd gs = filter (fun u => u <> "") ids
      /\ map fst gs = seq (length (contexts m)) (length gs)
      /\ contexts (fold_left start_one ids m)
         = contexts m ++ replicate (length gs) (fresh_child m)
      /\ mlog (fold_left start_one ids m)
         = mlog m ++ replicate (length (filter (fun u => u = "") ids))
                               "Skipping empty user ID in start request"
      /\ currentSimulationCtx (fold_left start_one ids m) = currentSimulationCtx m
      /\ currentUsers (fold_left start_one ids m) = currentUsers m
      /\ watchers (fold_left start_one ids m) = watchers m
      /\ (handles_allocated m -> handles_allocated (fold_left start_one ids m)).
Proof.
  induction ids as [|u ids IH]; intros m; cbn [fold_left].
  - exists []. cbn. rewrite !app_nil_r. repeat split; auto.
  - destruct (IH (start_one m u)) as (gs & Hgo & Hus & Hcx & Hcs & Hlog & Hcur & Hcu & Hwa & Hal).
    unfold start_one in *. destruct (String.eqb_spec u "") as [->|Hne].
    + exists gs.
      rewrite filter_cons_False by (intros ?; congruence).
      rewrite (filter_cons_True (fun u => u = "")) by done.
      cbn in *. rewrite Hlog, <- app_assoc. repeat split; auto.
    + exists ((length (contexts m), u) :: gs).
      rewrite filter_cons_True by done.
      rewrite (filter_cons_False (fun u => u = "")) by done.
      cbn in *. rewrite length_app in Hcx. cbn in Hcx.
      replace (length (contexts m) + 1)%nat with (S (length (contexts m))) in Hcx by lia.
      rewrite Hgo, Hcs, Hus, Hcx, <- !app_assoc. cbn.
      repeat split; auto.
      intros Hm. apply Hal. unfold handles_allocated in *. cbn.
      apply map_Forall_insert_2.
      * cbn. rewrite length_app. cbn. lia.
      * eapply map_Forall_impl; [exact Hm|]. cbn. intros _ x Hx.
        rewrite length_app. lia.
Qed.

Lemma stop_allocated (m : Manager) : handles_allocated (stopSimulationsInternal m).
Proof.
  unfold handles_allocated. rewrite stop_empties_table. apply map_Forall_empty.
Qed.

Lemma handleStart_allocated (r : Request) (m : Manager) :
  handles_allocated m -> handles_allocated (snd (handleStart r m)).
Proof.
  intros Hm. unfold handleStart.
  destruct (negb (String.eqb (Method r) "POST")); cbn [snd]; [done|].
  destruct (Body r) as [req|err]; cbn [snd]; [|apply stop_allocated].
  destruct (Z.of_nat (length (UserIDs req)) =? 0); cbn [snd]; [apply stop_allocated|].
  unfold go_watcher, handles_allocated; cbn.
  match goal with |- context [fold_left start_one ?ids ?m0] =>
    destruct (start_loop ids m0) as (gs & _ & _ & _ & _ & _ & _ & _ & _ & Hal) end.
  apply Hal. unfold handles_allocated, new_session, log_Println; cbn.
  rewrite stop_empties_table. apply map_Forall_empty.
Qed.

Lemma reachable_allocated (m : Manager) : reachable m -> handles_allocated m.
Proof.
  induction 1 as [|r m _ IH|r m _ IH|c m _ IH].
  - apply map_Forall_empty.
  - by apply handleStart_allocated.
  - unfold handleStop. destruct (negb _); cbn [snd]; [done|apply stop_allocated].
  - unfold deadline. destruct (bool_decide _).
    + cbn. destruct (currentSimulationCtx m) as [cur|].
      * destruct (ctx_Err _ cur) as [[]|]; try apply stop_allocated;
          unfold handles_allocated, expire_ctx in *; cbn; by rewrite length_alter.
      * unfold handles_allocated, expire_ctx in *; cbn; by rewrite length_alter.
    + unfold handles_allocated, expire_ctx in *; cbn; by rewrite length_alter.
Qed.

Lemma stop_keeps (m : Manager) :
  goroutines (stopSimulationsInternal m) = goroutines m
  /\ currentSimulationCtx (stopSimulationsInternal m) = currentSimulationCtx m
  /\ watchers (stopSimulationsInternal m) = watchers m.
Proof.
  unfold stopSimulationsInternal.
  destruct (Z.of_nat (size (activeSimulations m)) =? 0); cbn; [done|].
  destruct (stop_loop (log_Println
    ("Stopping " +:+ pretty (size (activeSimulations m)) +:+ " active simulations...") m)
    (activeSimulations m)) as (_ & Hcur & _ & Hgo & Hwa & _).
  by rewrite Hcur, Hgo, Hwa.
Qed.

Lemma handleStart_POST (ids : list string) (m : Manager) :
  handleStart (POST ids) m
  = if Z.of_nat (length ids) =? 0 then
      (http_Error "User ID list cannot be empty" StatusBadRequest,
       stopSimulationsInternal m)
    else
      ({| status := StatusOK;
          body := "Simulation started for " +:+ pretty (length ids)
                  +:+ " users. Will run for approximately 30s." +:+ String "010" "" |},
       go_watcher
         (fold_left start_one ids
            (new_session ids
               (log_Println ("Received /start request for "
                             +:+ pretty (length ids) +:+ " users")
                            (stopSimulationsInternal m))))).
Proof. reflexivity. Qed.

Lemma handleStop_POST (r : Request) (m : Manager) :
  Method r = "POST" ->
  handleStop r m
  = ({| status := StatusOK; body := "All active simulations stopped." +:+ String "010" "" |},
     stopSimulationsInternal m).
Proof. intros Hr. unfold handleStop. by rewrite Hr. Qed.

(** C3 (at the input that breaks it). Start with the id list ["a"; "a"]
    starts two generators for "a" but leaves one entry in the table, the
    handle of the second; the Stop that follows empties the table and the
    first generator is still live. *)
Theorem C3_duplicate_ids_leave_a_live_generator :
  let m1 := snd (handleStart (POST ["a"; "a"]) initial) in
  let m2 := snd (handleStop (POST []) m1) in
  status (fst (handleStart (POST ["a"; "a"]) initial)) = StatusOK
  /\ live_generators m1 "a" = [(1%nat, "a"); (2%nat, "a")]
  /\ map_to_list (activeSimulations m1) = [("a", {| cancelFunc := 2 |})]
  /\ status (fst (handleStop (POST []) m1)) = StatusOK
  /\ activeSimulations m2 = ∅
  /\ live_generators m2 "a" = [(1%nat, "a")].
Proof. vm_compute. repeat split. Qed.

(** C4 (as stated, refuted). The id list [""] is empty after the empty ids
    are dropped, and yet Start answers 200 and has started no generator. *)
Lemma C4_only_empty_ids_succeed :
  let r := handleStart (POST [""]) initial in
  filter (fun u => u <> "") [""] = []
  /\ status (fst r) = StatusOK
  /\ goroutines (snd r) = []
  /\ activeSimulations (snd r) = ∅.
Proof. vm_compute. repeat split. Qed.

(** C4 (amended). Start answers 400 "User ID list cannot be empty" exactly
    when the id list of the request has length 0, before any filtering, and
    200 otherwise; it starts one generator per non-empty id, in the order of
    the list, and logs one line per empty id it skips. *)
Theorem C4_Start_rejects_only_the_empty_list (ids : list string) (m : Manager) :
  let r := handleStart (POST ids) m in
  (fst r = http_Error "User ID list cannot be empty" StatusBadRequest <-> ids = [])
  /\ (status (fst r) = StatusOK <-> ids <> [])
  /\ (exists gs, goroutines (snd r) = goroutines m ++ gs
                 /\ map snd gs = filter (fun u => u <> "") ids)
  /\ (ids <> [] ->
      mlog (snd r)
      = mlog (stopSimulationsInternal m)
        ++ ["Received /start request for " +:+ pretty (length ids) +:+ " users"]
        ++ replicate (length (filter (fun u => u = "") ids))
                     "Skipping empty user ID in start request").
Proof.
  intros r. subst r. rewrite handleStart_POST.
  destruct ids as [|u ids].
  - change (Z.of_nat (@length string []) =? 0) with true. cbv iota. cbn [fst snd].
    split; [done|]. split; [split; [discriminate|done]|].
    split; [|done]. exists []. rewrite app_nil_r. split; [apply stop_keeps|done].
  - replace (Z.of_nat (length (u :: ids)) =? 0) with false
      by (symmetry; apply Z.eqb_neq; cbn [length]; lia).
    cbn [fst snd status]. split; [split; discriminate|]. split; [done|].
    match goal with |- context [fold_left start_one ?l ?m0] =>
      destruct (start_loop l m0) as (gs & Hgo & Hus & _ & _ & Hlog & _) end.
    unfold go_watcher; cbn [goroutines mlog].
    rewrite Hgo, Hlog. cbn [new_session log_Println goroutines mlog].
    split.
    + exists gs. split; [|done]. f_equal.
      destruct (stop_keeps m) as [Hk _]. exact Hk.
    + intros _. by rewrite <- app_assoc.
Qed.

(** C5. Stop always answers 200 and leaves the table empty, with every
    context whose cancel function the table held done. When the table is
    already empty it changes none of the manager's variables, so a second
    Stop changes nothing of what the first one left. *)
Theorem C5_Stop_idempotent_and_total (r : Request) (m : Manager) :
  reachable m ->
  Method r = "POST" ->
  let m' := snd (handleStop r m) in
  status (fst (handleStop r m)) = StatusOK
  /\ activeSimulations m' = ∅
  /\ (forall u control, activeSimulations m !! u = Some control ->
        is_Some (ctx_Err (contexts m') (cancelFunc control)))
  /\ (activeSimulations m = ∅ -> vars m' = vars m)
  /\ vars (snd (handleStop r m')) = vars m'.
Proof.
  intros Hreach Hpost m'. subst m'. rewrite !(handleStop_POST _ _ Hpost).
  cbn [fst snd status].
  split; [done|]. split; [apply stop_empties_table|]. split; [|split].
  - intros u control Hu.
    pose proof (reachable_allocated m Hreach) as Hal.
    pose proof (map_Forall_lookup_1 _ _ _ _ Hal Hu) as Hlt. cbn in Hlt.
    destruct (lookup_lt_is_Some_2 _ _ Hlt) as [x0 Hx0].
    destruct (stop_contexts m) as [_ Hcs].
    destruct (Hcs _ _ Hx0) as (x1 & Hx1 & _ & _ & Hsig & _).
    destruct Hsig as [e He]; [eauto|].
    unfold ctx_Err. rewrite Hx1, He. eauto.
  - intros He. by rewrite stop_noop.
  - rewrite (stop_noop (stopSimulationsInternal m)); [done|apply stop_empties_table].
Qed.

(** Two generators are running; Stop empties the table and cancels both. *)
Lemma C5_witness :
  let m := snd (handleStart (POST ["a"; "b"]) initial) in
  let m' := snd (handleStop (POST []) m) in
  reachable m
  /\ activeSimulations m' = ∅
  /\ live_generators m' "a" = []
  /\ vars (snd (handleStop (POST []) m')) = vars m'.
Proof.
  intros m m'.
  assert (Hm : reachable m) by (apply reachable_handleStart, reachable_initial).
  destruct (C5_Stop_idempotent_and_total (POST []) m Hm eq_refl) as (_ & He & _ & _ & Hi).
  split; [exact Hm|]. split; [exact He|]. split; [reflexivity|exact Hi].
Defined.

(** ** float64: rounding on integers *)

Lemma rne_bounds (V K : Z) : 0 <= K -> V / 2 ^ K <= rne V K <= V / 2 ^ K + 1.
Proof.
  intros HK. unfold rne.
  destruct (2 * (V mod 2 ^ K) ?= 2 ^ K); [destruct (Z.even _)| |]; lia.
Qed.

Lemma rne_exact (q K : Z) : 0 <= K -> rne (q * 2 ^ K) K = q.
Proof.
  intros HK. unfold rne.
  assert (0 < 2 ^ K) by (apply Z.pow_pos_nonneg; lia).
  rewrite Z.mod_mul, Z.div_mul by lia.
  assert (Hc : (2 * 0 ?= 2 ^ K) = Lt) by (apply Z.compare_lt_iff; lia).
  by rewrite Hc.
Qed.

Lemma rne_mono (V1 V2 K : Z) : 0 <= K -> V1 <= V2 -> rne V1 K <= rne V2 K.
Proof.
  intros HK HV.
  assert (HP : 0 < 2 ^ K) by (apply Z.pow_pos_nonneg; lia).
  pose proof (Z.div_le_mono V1 V2 (2 ^ K) HP HV) as Hq.
  destruct (Z.eq_dec (V1 / 2 ^ K) (V2 / 2 ^ K)) as [Heq|Hne].
  - pose proof (Z.div_mod V1 (2 ^ K) ltac:(lia)) as H1.
    pose proof (Z.div_mod V2 (2 ^ K) ltac:(lia)) as H2.
    assert (Hr : V1 mod 2 ^ K <= V2 mod 2 ^ K) by (rewrite Heq in H1; lia).
    unfold rne. rewrite Heq.
    destruct (Z.compare_spec (2 * (V1 mod 2 ^ K)) (2 ^ K));
      destruct (Z.compare_spec (2 * (V2 mod 2 ^ K)) (2 ^ K));
      destruct (Z.even (V2 / 2 ^ K)); lia.
  - pose proof (rne_bounds V1 K HK). pose proof (rne_bounds V2 K HK). lia.
Qed.

Lemma rne_scale (m k j : Z) : 0 <= k -> 0 <= j -> rne (m * 2 ^ j) (k + j) = rne m k.
Proof.
  intros Hk Hj. unfold rne.
  assert (0 < 2 ^ k) by (apply Z.pow_pos_nonneg; lia).
  assert (0 < 2 ^ j) by (apply Z.pow_pos_nonneg; lia).
  rewrite Z.pow_add_r by lia.
  rewrite Z.div_mul_cancel_r by lia.
  rewrite Z.mul_mod_distr_r by lia.
  replace (2 * (m mod 2 ^ k * 2 ^ j) ?= 2 ^ k * 2 ^ j)
    with (2 * (m mod 2 ^ k) ?= 2 ^ k); [done|].
  rewrite Z.mul_assoc. apply Zmult_compare_compat_r. lia.
Qed.

Lemma log2_lt_pow2_succ (W : Z) : 0 <= W -> W < 2 ^ (Z.log2 W + 1).
Proof.
  intros HW. destruct (Z.eq_dec W 0) as [->|Hne]; [done|].
  pose proof (Z.log2_spec W ltac:(lia)). replace (Z.log2 W + 1) with (Z.succ (Z.log2 W)) by lia.
  lia.
Qed.

Lemma round_exp_ge (W : Z) : 1074 <= round_exp W.
Proof. unfold round_exp. lia. Qed.

Lemma round_ulps_nonneg (W : Z) : 0 <= W -> 0 <= round_ulps W.
Proof.
  intros HW. unfold round_ulps. pose proof (round_exp_ge W).
  pose proof (rne_bounds W (round_exp W) ltac:(lia)).
  assert (0 <= W / 2 ^ round_exp W) by (apply Z.div_pos; [lia|apply Z.pow_pos_nonneg; lia]).
  apply Z.mul_nonneg_nonneg; [lia|]. apply Z.pow_nonneg. lia.
Qed.

(** When [W] has no bit below the last one kept, rounding changes nothing. *)
Lemma round_ulps_exact (M j : Z) :
  0 <= M -> round_exp (M * 2 ^ j) <= j -> round_ulps (M * 2 ^ j) = M * 2 ^ (j - 1074).
Proof.
  intros HM Hj. unfold round_ulps.
  pose proof (round_exp_ge (M * 2 ^ j)) as HK.
  set (K := round_exp (M * 2 ^ j)) in *.
  replace (M * 2 ^ j) with (M * 2 ^ (j - K) * 2 ^ K).
  - rewrite rne_exact by lia. rewrite <- Z.mul_assoc, <- Z.pow_add_r by lia.
    f_equal. f_equal. lia.
  - rewrite <- Z.mul_assoc, <- Z.pow_add_r by lia. f_equal. f_equal. lia.
Qed.

(** Rounding is monotone. *)
Lemma round_ulps_mono (W1 W2 : Z) :
  0 <= W1 -> W1 <= W2 -> round_ulps W1 <= round_ulps W2.
Proof.
  intros H1 H12. unfold round_ulps.
  pose proof (round_exp_ge W1) as HK1. pose proof (round_exp_ge W2) as HK2.
  assert (HKle : round_exp W1 <= round_exp W2).
  { unfold round_exp. pose proof (Z.log2_le_mono W1 W2 H12). lia. }
  destruct (Z.eq_dec (round_exp W1) (round_exp W2)) as [Heq|Hne].
  - rewrite Heq. apply Z.mul_le_mono_nonneg_r; [apply Z.pow_nonneg; lia|].
    apply rne_mono; lia.
  - set (K1 := round_exp W1) in *. set (K2 := round_exp W2) in *.
    assert (HK2' : K2 = Z.log2 W2 + 1 - 53) by (unfold K2, round_exp in *; lia).
    assert (HW2 : 0 < W2).
    { destruct (Z.eq_dec W2 0) as [->|]; [|lia]. simpl in HK2'. lia. }
    assert (HB2 : 2 ^ (K2 + 52) <= W2).
    { replace (K2 + 52) with (Z.log2 W2) by lia. apply Z.log2_spec. lia. }
    assert (HB1 : W1 <= 2 ^ (K2 + 52)).
    { pose proof (log2_lt_pow2_succ W1 H1) as Hlt.
      assert (2 ^ (Z.log2 W1 + 1) <= 2 ^ (K2 + 52)).
      { apply Z.pow_le_mono_r; [lia|]. unfold K1, round_exp in *. lia. }
      lia. }
    (* the power of two between them rounds to itself under both exponents *)
    transitivity (2 ^ (K2 + 52 - 1074)).
    + transitivity (rne (2 ^ (K2 + 52)) K1 * 2 ^ (K1 - 1074)).
      * apply Z.mul_le_mono_nonneg_r; [apply Z.pow_nonneg; lia|].
        apply rne_mono; lia.
      * replace (2 ^ (K2 + 52)) with (2 ^ (K2 + 52 - K1) * 2 ^ K1)
          by (rewrite <- Z.pow_add_r by lia; f_equal; lia).
        rewrite rne_exact by lia. rewrite <- Z.pow_add_r by lia.
        apply Z.pow_le_mono_r; lia.
    + transitivity (rne (2 ^ (K2 + 52)) K2 * 2 ^ (K2 - 1074)).
      * replace (2 ^ (K2 + 52)) with (2 ^ 52 * 2 ^ K2)
          by (rewrite <- Z.pow_add_r by lia; f_equal; lia).
        rewrite rne_exact by lia. rewrite <- Z.pow_add_r by lia.
        apply Z.pow_le_mono_r; lia.
      * apply Z.mul_le_mono_nonneg_r; [apply Z.pow_nonneg; lia|].
        apply rne_mono; lia.
Qed.

(** ** float64: the shifts of [SpecFloat] *)

Lemma iter_pos_nat {A : Type} (f : A -> A) (p : positive) (x : A) :
  SpecFloat.iter_pos f p x = Nat.iter (Pos.to_nat p) f x.
Proof.
  revert x. induction p as [p IH|p IH|]; intros x; cbn [SpecFloat.iter_pos].
  - rewrite !IH, Pos2Nat.inj_xI.
    replace (S (2 * Pos.to_nat p)) with (S (Pos.to_nat p + Pos.to_nat p)) by lia.
    by rewrite Nat.iter_succ, Nat.iter_add, <- Nat.iter_swap, <- Nat.iter_swap.
  - rewrite !IH, Pos2Nat.inj_xO.
    replace (2 * Pos.to_nat p)%nat with (Pos.to_nat p + Pos.to_nat p)%nat by lia.
    by rewrite Nat.iter_add.
  - reflexivity.
Qed.

Lemma shr_1_nonneg (m : Z) (r s : bool) :
  0 <= m ->
  shr_1 {| shr_m := m; shr_r := r; shr_s := s |}
  = {| shr_m := Z.div2 m; shr_r := Z.odd m; shr_s := r || s |}.
Proof. intros Hm. destruct m as [|[p|p|]|p]; try lia; reflexivity. Qed.

(** After [n] one-bit shifts of [m]: the quotient, the bit shifted out last
    and whether a lower bit was set. *)
Definition shr_inv (m n : Z) (R : shr_record) : Prop :=
  0 <= shr_m R
  /\ exists t, 0 <= t < 2 ^ (n - 1)
               /\ m = shr_m R * 2 ^ n + Z.b2z (shr_r R) * 2 ^ (n - 1) + t
               /\ shr_s R = negb (t =? 0).

Lemma shr_iter (m : Z) (n : nat) :
  0 <= m ->
  shr_inv m (Z.of_nat (S n))
          (Nat.iter (S n) shr_1 {| shr_m := m; shr_r := false; shr_s := false |}).
Proof.
  intros Hm. induction n as [|n IH].
  - cbn [Nat.iter]. rewrite shr_1_nonneg by done. unfold shr_inv; cbn [shr_m shr_r shr_s].
    pose proof (Z.div2_odd m) as Hdiv.
    assert (0 <= Z.div2 m) by (apply Z.div2_nonneg; lia).
    split; [done|]. exists 0. change (Z.of_nat 1) with 1. cbn. split; [lia|].
    split; [|done]. destruct (Z.odd m); cbn in *; lia.
  - rewrite Nat.iter_succ.
    destruct (Nat.iter (S n) shr_1 _) as [q r s].
    destruct IH as (Hq & t & Ht & Hmq & Hs). cbn [shr_m shr_r shr_s] in *.
    rewrite shr_1_nonneg by done. unfold shr_inv; cbn [shr_m shr_r shr_s].
    assert (0 <= Z.div2 q) by (apply Z.div2_nonneg; lia).
    split; [done|].
    replace (Z.of_nat (S (S n)) - 1) with (Z.of_nat (S n)) by lia.
    replace (Z.of_nat (S (S n))) with (Z.of_nat (S n) + 1) by lia.
    set (N := Z.of_nat (S n)) in *.
    assert (HN : 1 <= N) by (unfold N; lia).
    assert (Hpow : 2 ^ N = 2 * 2 ^ (N - 1)).
    { replace N with (1 + (N - 1)) at 1 by lia. rewrite Z.pow_add_r by lia. done. }
    assert (Hpow' : 2 ^ (N + 1) = 2 * 2 ^ N) by (rewrite Z.pow_add_r by lia; lia).
    assert (0 < 2 ^ (N - 1)) by (apply Z.pow_pos_nonneg; lia).
    exists (Z.b2z r * 2 ^ (N - 1) + t).
    pose proof (Z.div2_odd q) as Hdiv.
    split; [destruct r; cbn; lia|]. split.
    + rewrite Hpow'. destruct (Z.odd q); cbn [Z.b2z] in *; lia.
    + rewrite Hs. destruct r; cbn [Z.b2z orb].
      * symmetry. apply negb_true_iff, Z.eqb_neq. lia.
      * by rewrite Z.mul_0_l, Z.add_0_l.
Qed.

Lemma shr_inv_rne (m n : Z) (R : shr_record) :
  1 <= n -> shr_inv m n R ->
  shr_m R = m / 2 ^ n
  /\ round_nearest_even (shr_m R) (loc_of_shr_record R) = rne m n.
Proof.
  intros Hn (Hq & t & Ht & Hm & Hs). destruct R as [q r s]. cbn [shr_m shr_r shr_s] in *.
  assert (Hpow : 2 ^ n = 2 * 2 ^ (n - 1)).
  { replace n with (1 + (n - 1)) at 1 by lia. rewrite Z.pow_add_r by lia. done. }
  assert (Hh : 0 < 2 ^ (n - 1)) by (apply Z.pow_pos_nonneg; lia).
  set (h := 2 ^ (n - 1)) in *.
  assert (Hrem : 0 <= Z.b2z r * h + t < 2 ^ n) by (destruct r; cbn; lia).
  assert (Hdiv : m / 2 ^ n = q).
  { symmetry. apply (Z.div_unique_pos m (2 ^ n) q (Z.b2z r * h + t)); lia. }
  assert (Hmod : m mod 2 ^ n = Z.b2z r * h + t).
  { symmetry. apply (Z.mod_unique_pos m (2 ^ n) q (Z.b2z r * h + t)); lia. }
  split; [done|]. unfold rne. rewrite Hdiv, Hmod, Hpow.
  destruct r, s; cbn [loc_of_shr_record round_nearest_even Z.b2z].
  - symmetry in Hs. apply negb_true_iff, Z.eqb_neq in Hs.
    assert (Hc : (2 * (1 * h + t) ?= 2 * h) = Gt) by (apply Z.compare_gt_iff; lia).
    by rewrite Hc.
  - symmetry in Hs. apply negb_false_iff, Z.eqb_eq in Hs. subst t.
    assert (Hc : (2 * (1 * h + 0) ?= 2 * h) = Eq) by (apply Z.compare_eq_iff; lia).
    by rewrite Hc.
  - symmetry in Hs. apply negb_true_iff, Z.eqb_neq in Hs.
    assert (Hc : (2 * (0 * h + t) ?= 2 * h) = Lt) by (apply Z.compare_lt_iff; lia).
    by rewrite Hc.
  - symmetry in Hs. apply negb_false_iff, Z.eqb_eq in Hs. subst t.
    assert (Hc : (2 * (0 * h + 0) ?= 2 * h) = Lt) by (apply Z.compare_lt_iff; lia).
    by rewrite Hc.
Qed.

Lemma rne_0 (m : Z) : rne m 0 = m.
Proof.
  unfold rne. change (2 ^ 0) with 1. rewrite Z.div_1_r, Z.mod_1_r. reflexivity.
Qed.

(** [shr] on a mantissa with nothing shifted out yet. *)
Lemma shr_exact (m e k : Z) :
  0 <= m ->
  exists R,
    shr {| shr_m := m; shr_r := false; shr_s := false |} e k = (R, e + Z.max k 0)
    /\ shr_m R = m / 2 ^ Z.max k 0
    /\ round_nearest_even (shr_m R) (loc_of_shr_record R) = rne m (Z.max k 0).
Proof.
  intros Hm. destruct k as [|p|p]; cbn [shr].
  - eexists. rewrite Z.add_0_r. split; [reflexivity|]. cbn [shr_m loc_of_shr_record].
    change (Z.max 0 0) with 0. rewrite rne_0, Z.div_1_r. done.
  - eexists. replace (Z.max (Z.pos p) 0) with (Z.pos p) by lia.
    split; [reflexivity|]. rewrite iter_pos_nat.
    destruct (Pos2Nat.is_succ p) as [n Hn]. rewrite Hn.
    apply shr_inv_rne; [lia|].
    replace (Z.pos p) with (Z.of_nat (S n)) by (rewrite <- Hn; apply positive_nat_Z).
    by apply shr_iter.
  - eexists. replace (Z.max (Z.neg p) 0) with 0 by lia. rewrite Z.add_0_r.
    split; [reflexivity|]. cbn [shr_m loc_of_shr_record].
    rewrite rne_0. change (2 ^ 0) with 1. rewrite Z.div_1_r. done.
Qed.

Lemma fexp_eq (x : Z) : fexp prec emax x = Z.max (x - 53) (-1074).
Proof. reflexivity. Qed.

Lemma digits2_log2 (p : positive) : Z.pos (digits2_pos p) = Z.log2 (Z.pos p) + 1.
Proof.
  assert (Hs : forall q, digits2_pos q = Pos.size q).
  { induction q as [q IH|q IH|]; cbn; by rewrite ?IH. }
  rewrite Hs. destruct p; cbn [Z.log2 Pos.size]; lia.
Qed.

(** ** float64: rounding a product *)

Lemma Zdigits2_nonneg (q : Z) :
  0 <= q -> Zdigits2 q = if q =? 0 then 0 else Z.log2 q + 1.
Proof.
  intros Hq. destruct q as [|p|p]; [done| |lia]. cbn [Zdigits2 Z.eqb].
  apply digits2_log2.
Qed.

(** [binary_round_aux] on the exact number [m * 2^e], read on integers. *)
Lemma binary_round_aux_ulps (s : bool) (m : positive) (e : Z) :
  -2148 <= e ->
  Z.pos m * 2 ^ (e + 2148) < 2 ^ 3120 ->
  let f := binary_round_aux prec emax s (Z.pos m) e loc_Exact in
  ulps f = round_ulps (Z.pos m * 2 ^ (e + 2148))
  /\ match f with
     | S754_zero s' => s' = s
     | S754_finite s' _ e' => s' = s /\ -1074 <= e'
     | _ => False
     end
  /\ (e <= Z.max (Z.log2 (Z.pos m) + 1 + e - 53) (-1074) -> f64_valid f = true).
Proof.
  intros He HW f. subst f.
  set (W := Z.pos m * 2 ^ (e + 2148)) in *.
  set (d := Z.log2 (Z.pos m) + 1).
  assert (Hd : 2 ^ (d - 1) <= Z.pos m < 2 ^ d).
  { unfold d. replace (Z.log2 (Z.pos m) + 1 - 1) with (Z.log2 (Z.pos m)) by lia.
    replace (Z.log2 (Z.pos m) + 1) with (Z.succ (Z.log2 (Z.pos m))) by lia.
    apply Z.log2_spec. lia. }
  assert (Hd1 : 1 <= d) by (unfold d; pose proof (Z.log2_nonneg (Z.pos m)); lia).
  assert (HWpos : 0 < W) by (unfold W; apply Z.mul_pos_pos; [lia|apply Z.pow_pos_nonneg; lia]).
  assert (HlogW : Z.log2 W = Z.log2 (Z.pos m) + e + 2148).
  { unfold W. rewrite Z.log2_mul_pow2 by lia. lia. }
  assert (HdW : d + e <= 972).
  { apply Z.log2_lt_pow2 in HW; [|done]. unfold d. lia. }
  set (E := Z.max (d + e - 53) (-1074)).
  set (k := E - e).
  assert (HK : round_exp W = k + (e + 2148)).
  { unfold round_exp, k, E. rewrite HlogW. unfold d. lia. }
  unfold binary_round_aux, shr_fexp. rewrite !fexp_eq.
  cbn [Zdigits2]. rewrite digits2_log2. fold d E k.
  cbn [shr_record_of_loc].
  destruct (shr_exact (Z.pos m) e k ltac:(lia)) as (R1 & -> & Hm1 & Hr1).
  rewrite Hr1. set (k1 := Z.max k 0). set (q := rne (Z.pos m) k1).
  assert (Hk1 : 0 <= k1) by (unfold k1; lia).
  assert (Hq0 : 0 <= q).
  { pose proof (rne_bounds (Z.pos m) k1 Hk1).
    assert (0 <= Z.pos m / 2 ^ k1) by (apply Z.div_pos; [lia|apply Z.pow_pos_nonneg; lia]).
    unfold q. lia. }
  set (e1 := e + k1).
  assert (He1 : e1 = Z.max E e) by (unfold e1, k1, k; lia).
  (* the rounded mantissa has at most 53 bits, or is 2^53 *)
  assert (Hq53 : q <= 2 ^ 53 /\ (k <= 0 -> q < 2 ^ 53)).
  { destruct (Z_le_gt_dec k 0) as [Hk|Hk].
    - assert (Hk0 : k1 = 0) by (unfold k1; lia). unfold q. rewrite Hk0, rne_0.
      assert (Z.pos m < 2 ^ 53); [|lia].
      eapply Z.lt_le_trans; [apply Hd|]. apply Z.pow_le_mono_r; unfold k, E in Hk; lia.
    - split; [|lia]. assert (Hkk : k1 = k) by (unfold k1; lia).
      pose proof (rne_bounds (Z.pos m) k1 Hk1) as Hb. rewrite Hkk in Hb.
      assert (Z.pos m / 2 ^ k < 2 ^ 53); [|unfold q; rewrite Hkk; lia].
      apply Z.div_lt_upper_bound; [apply Z.pow_pos_nonneg; lia|].
      rewrite <- Z.pow_add_r by lia.
      eapply Z.lt_le_trans; [apply Hd|]. apply Z.pow_le_mono_r; unfold k, E; lia. }
  (* the value that is rounded to *)
  assert (Hround : round_ulps W = q * 2 ^ (e1 + 1074)).
  { unfold round_ulps. rewrite HK.
    destruct (Z_le_gt_dec k 0) as [Hk|Hk].
    - assert (Hk0 : k1 = 0) by (unfold k1; lia). unfold q. rewrite Hk0, rne_0.
      assert (Hke : 0 <= k + (e + 2148)) by (unfold k, E; lia).
      assert (HWK : W = Z.pos m * 2 ^ (- k) * 2 ^ (k + (e + 2148))).
      { unfold W. rewrite <- Z.mul_assoc, <- Z.pow_add_r by lia. f_equal. f_equal. lia. }
      rewrite HWK at 1. rewrite rne_exact by lia.
      rewrite <- Z.mul_assoc, <- Z.pow_add_r by (unfold k, E in *; lia).
      f_equal. f_equal. unfold e1. lia.
    - assert (Hkk : k1 = k) by (unfold k1; lia).
      unfold W. rewrite rne_scale by lia. unfold q. rewrite Hkk.
      f_equal. f_equal. unfold e1. lia. }
  cbn [shr_record_of_loc]. rewrite fexp_eq.
  set (k2 := Z.max (Zdigits2 q + e1 - 53) (-1074) - e1).
  destruct (shr_exact q e1 k2 Hq0) as (R2 & -> & Hm2 & _).
  rewrite Hm2.
  assert (He1lo : -1074 <= e1) by (rewrite He1; unfold E; lia).
  assert (He1hi : e1 <= 971 /\ (0 < k -> e1 <= 919)).
  { rewrite He1. unfold k, E.
    assert (e + 2148 < 3120); [|lia].
    apply (Z.pow_lt_mono_r_iff 2); [lia|lia|].
    eapply Z.le_lt_trans; [|exact HW]. unfold W.
    rewrite <- (Z.mul_1_l (2 ^ (e + 2148))) at 1.
    apply Z.mul_le_mono_nonneg_r; [apply Z.pow_nonneg; discriminate|].
    clear. lia. }
  assert (Hk2def : k2 = Z.max ((if q =? 0 then 0 else Z.log2 q + 1) + e1 - 53) (-1074) - e1).
  { unfold k2. by rewrite (Zdigits2_nonneg q Hq0). }
  clearbody k2. revert Hk2def.
  destruct (Z.eqb_spec q 0) as [Hqz|Hqnz]; intros Hk2def.
  - (* everything was rounded away *)
    replace (Z.max k2 0) with 0 by lia.
    rewrite Hqz. change (0 / 2 ^ 0) with 0. cbn iota.
    rewrite Hround, Hqz. split; [done|]. split; [done|]. intros _. reflexivity.
  - assert (Hlq : Z.log2 q <= 53).
    { change 53 with (Z.log2 (2 ^ 53)). apply Z.log2_le_mono. lia. }
    destruct (Z.eq_dec q (2 ^ 53)) as [Hq2|Hq2].
    + (* the carry: 2^53 is renormalised to 2^52 *)
      assert (Hk2 : Z.max k2 0 = 1).
      { rewrite Hk2def, Hq2. change (Z.log2 (2 ^ 53)) with 53. lia. }
      rewrite Hk2, Hq2. change (2 ^ 53 / 2 ^ 1) with (Z.pos 4503599627370496).
      cbn iota.
      assert (0 < k) by (destruct (Z_le_gt_dec k 0) as [l|l]; [|lia]; apply Hq53 in l; lia).
      replace (e1 + 1 <=? emax - prec) with true
        by (symmetry; apply Z.leb_le; unfold emax, prec; lia).
      cbn [ulps]. rewrite Hround, Hq2. split; [|split; [split; [done|lia]|]].
      * change (Z.pos 4503599627370496) with (2 ^ 52).
        rewrite <- !Z.pow_add_r by lia. f_equal. lia.
      * intros _. unfold f64_valid. cbn [valid_binary]. unfold bounded, canonical_mantissa.
        rewrite fexp_eq. change (Z.pos (digits2_pos 4503599627370496)) with 53.
        apply andb_true_iff. split; [apply Z.eqb_eq|apply Z.leb_le; unfold emax, prec]; lia.
    + assert (Hlq' : Z.log2 q < 53).
      { apply Z.log2_lt_pow2; lia. }
      assert (Hk2 : Z.max k2 0 = 0) by lia.
      rewrite Hk2. change (2 ^ 0) with 1. rewrite Z.div_1_r, Z.add_0_r.
      assert (Hq' : 0 < q < 2 ^ 53) by lia.
      (* when the input is not below its format, the result is canonical *)
      assert (Hcan : e <= E -> Z.max (Z.log2 q + 1 + e1 - 53) (-1074) = e1).
      { intros Hal. clear Hk2def Hk2 Hround.
        destruct (Z_le_gt_dec k 0) as [Hk|Hk].
        - assert (Hk0 : k1 = 0) by (unfold k1; lia).
          assert (Hqm : q = Z.pos m) by (unfold q; rewrite Hk0; apply rne_0).
          rewrite Hqm. unfold e1. rewrite Hk0, Z.add_0_r. unfold k, E, d in *.
          clear - Hal Hk. lia.
        - assert (Hkk : k1 = k) by (unfold k1; lia).
          destruct (Z_le_gt_dec E (-1074)) as [HE|HE].
          + rewrite He1. clear - HE Hlq' Hk. unfold k in Hk. lia.
          + assert (Hkd : k = d - 53) by (unfold k, E in *; clear - HE; lia).
            assert (H52 : 2 ^ 52 <= q).
            { pose proof (rne_bounds (Z.pos m) k1 Hk1) as Hb. rewrite Hkk in Hb.
              apply Z.le_trans with (Z.pos m / 2 ^ k); [|unfold q; rewrite Hkk; apply Hb].
              apply Z.div_le_lower_bound; [apply Z.pow_pos_nonneg; lia|].
              rewrite <- Z.pow_add_r by lia.
              replace (k + 52) with (d - 1) by lia. apply Hd. }
            assert (52 <= Z.log2 q) by (apply Z.log2_le_pow2; lia).
            rewrite He1. unfold E in *. clear - HE Hlq' H Hk. unfold k in Hk. lia. }
      destruct q as [|qp|qp]; [done| |lia].
      replace (e1 <=? emax - prec) with true
        by (symmetry; apply Z.leb_le; unfold emax, prec; lia).
      cbn [ulps]. rewrite Hround. split; [done|]. split; [split; [done|lia]|].
      intros Hal. unfold f64_valid. cbn [valid_binary]. unfold bounded, canonical_mantissa.
      rewrite fexp_eq, digits2_log2.
      apply andb_true_iff. split; [apply Z.eqb_eq|apply Z.leb_le; unfold emax, prec; lia].
      exact (Hcan Hal).
Qed.

Lemma round_ulps_0 : round_ulps 0 = 0.
Proof. reflexivity. Qed.

Lemma f64_valid_on_grid (x : float64) : f64_valid x = true -> f64_on_grid x.
Proof.
  destruct x as [| | |s m e]; try done. unfold f64_valid. cbn [valid_binary f64_on_grid].
  unfold bounded, canonical_mantissa. rewrite fexp_eq.
  intros [Hc _]%andb_true_iff. apply Z.eqb_eq in Hc. lia.
Qed.

(** The product of two floats that are not negative is the exact product,
    rounded; it is finite as long as the exact product is below [2^972]. *)
Lemma f64_mul_ulps (x y : float64) :
  f64_nonneg_finite x = true -> f64_nonneg_finite y = true ->
  f64_on_grid x -> f64_on_grid y ->
  ulps x * ulps y < 2 ^ 3120 ->
  f64_nonneg_finite (f64_mul x y) = true
  /\ f64_on_grid (f64_mul x y)
  /\ ulps (f64_mul x y) = round_ulps (ulps x * ulps y).
Proof.
  intros Hx Hy Gx Gy HW.
  destruct x as [sx| | |sx mx ex], y as [sy| | |sy my ey]; try discriminate;
    unfold f64_mul; cbn [SFmul ulps f64_nonneg_finite f64_on_grid];
    rewrite ?Z.mul_0_l, ?Z.mul_0_r, ?round_ulps_0; try done.
  cbn in Hx, Hy. apply negb_true_iff in Hx, Hy. subst sx sy. cbn [xorb].
  cbn [ulps f64_on_grid] in *.
  assert (HWeq : Z.pos mx * 2 ^ (ex + 1074) * (Z.pos my * 2 ^ (ey + 1074))
                 = Z.pos (mx * my) * 2 ^ (ex + ey + 2148)).
  { rewrite Pos2Z.inj_mul. replace (ex + ey + 2148) with ((ex + 1074) + (ey + 1074)) by lia.
    rewrite (Z.pow_add_r 2 (ex + 1074) (ey + 1074)) by lia. ring. }
  rewrite HWeq in *.
  destruct (binary_round_aux_ulps false (mx * my) (ex + ey) ltac:(lia) HW) as (Hu & Hf & _).
  rewrite <- Hu.
  destruct (binary_round_aux prec emax false (Z.pos (mx * my)) (ex + ey) loc_Exact)
    as [s'| | |s' m' e']; try done.
  destruct Hf as [-> Hf]. done.
Qed.

Lemma Pos_iter_xO (p d : positive) : Z.pos (Pos.iter xO p d) = Z.pos p * 2 ^ Z.pos d.
Proof.
  induction d as [|d IH] using Pos.peano_ind.
  - cbn [Pos.iter]. lia.
  - rewrite Pos.iter_succ, Pos2Z.inj_xO, IH, Pos2Z.inj_succ, Z.pow_succ_r by lia. ring.
Qed.

(** An [int] below [2^53] converts exactly. *)
Lemma float64_of_int_ulps (n : Z) :
  0 <= n < 2 ^ 53 ->
  f64_nonneg_finite (float64_of_int n) = true
  /\ f64_on_grid (float64_of_int n)
  /\ ulps (float64_of_int n) = n * 2 ^ 1074.
Proof.
  intros Hn. destruct n as [|p|p]; [done| |lia].
  unfold float64_of_int. cbn [binary_normalize]. unfold binary_round.
  rewrite fexp_eq, digits2_log2.
  set (d := Z.log2 (Z.pos p) + 1).
  assert (Hd : 1 <= d <= 53).
  { unfold d. pose proof (Z.log2_nonneg (Z.pos p)).
    assert (Z.log2 (Z.pos p) < 53) by (apply Z.log2_lt_pow2; lia). lia. }
  assert (Hexact : forall M j, Z.pos M * 2 ^ (j + 2148) = Z.pos p * 2 ^ 2148 ->
            -2148 <= j ->
            let f := binary_round_aux prec emax false (Z.pos M) j loc_Exact in
            f64_nonneg_finite f = true /\ f64_on_grid f /\ ulps f = Z.pos p * 2 ^ 1074).
  { intros M j HM Hj f.
    assert (HW : Z.pos M * 2 ^ (j + 2148) < 2 ^ 3120).
    { rewrite HM. change (2 ^ 3120) with (2 ^ 972 * 2 ^ 2148).
      apply Z.mul_lt_mono_pos_r; [done|]. 
      eapply Z.lt_le_trans; [apply Hn|]. apply Z.pow_le_mono_r; lia. }
    destruct (binary_round_aux_ulps false M j Hj HW) as (Hu & Hf & _). fold f in Hu, Hf.
    rewrite HM in Hu.
    rewrite (round_ulps_exact (Z.pos p) 2148) in Hu; [|lia|].
    - change (2148 - 1074) with 1074 in Hu.
      destruct f as [s'| | |s' m' e']; try done.
      destruct Hf as [-> Hf]. done.
    - unfold round_exp. rewrite Z.log2_mul_pow2 by lia. fold d. lia. }
  replace (Z.max (d + 0 - 53) (-1074) ) with (d - 53) by lia.
  unfold shl_align. replace (d - 53 - 0) with (d - 53) by lia.
  destruct (d - 53) as [|dd|dd] eqn:Hdd; [|lia|].
  - apply Hexact; [done|lia].
  - apply Hexact; [|lia]. rewrite Pos_iter_xO, <- Z.mul_assoc, <- Z.pow_add_r by lia.
    f_equal. f_equal. lia.
Qed.

Lemma canonical_lt (m1 m2 : positive) (e1 e2 : Z) :
  e1 = Z.max (Z.log2 (Z.pos m1) + 1 + e1 - 53) (-1074) ->
  e2 = Z.max (Z.log2 (Z.pos m2) + 1 + e2 - 53) (-1074) ->
  e1 < e2 ->
  Z.pos m1 * 2 ^ (e1 + 1074) < Z.pos m2 * 2 ^ (e2 + 1074).
Proof.
  intros C1 C2 Hlt.
  assert (Hl1 : Z.log2 (Z.pos m1) < 53) by lia.
  assert (Hl2 : 52 <= Z.log2 (Z.pos m2)) by lia.
  assert (He1 : 0 <= e1 + 1074) by lia.
  assert (He2 : 53 + (e1 + 1074) <= 52 + (e2 + 1074)) by lia.
  clear C1 C2 Hlt.
  assert (H1 : Z.pos m1 < 2 ^ 53) by (apply Z.log2_lt_pow2; [reflexivity|exact Hl1]).
  assert (H2 : 2 ^ 52 <= Z.pos m2) by (apply Z.log2_le_pow2; [reflexivity|exact Hl2]).
  assert (P1 : 0 < 2 ^ (e1 + 1074)) by (apply Z.pow_pos_nonneg; [reflexivity|exact He1]).
  assert (He2' : 0 <= e2 + 1074) by (clear - He1 He2; lia).
  assert (P2 : 0 <= 2 ^ (e2 + 1074)) by (apply Z.pow_nonneg; discriminate).
  apply Z.lt_le_trans with (2 ^ 53 * 2 ^ (e1 + 1074)).
  - apply Z.mul_lt_mono_pos_r; assumption.
  - apply Z.le_trans with (2 ^ 52 * 2 ^ (e2 + 1074)).
    + rewrite <- (Z.pow_add_r 2 53 (e1 + 1074)) by (discriminate || exact He1).
      rewrite <- (Z.pow_add_r 2 52 (e2 + 1074)) by (discriminate || exact He2').
      apply Z.pow_le_mono_r; [reflexivity|exact He2].
    + apply Z.mul_le_mono_nonneg_r; assumption.
Qed.

(** On floats that are not negative, comparing is comparing the values. *)
Lemma SFcompare_ulps (x y : float64) :
  f64_valid x = true -> f64_valid y = true ->
  f64_nonneg_finite x = true -> f64_nonneg_finite y = true ->
  SFcompare x y = Some (ulps x ?= ulps y).
Proof.
  intros Vx Vy Hx Hy.
  pose proof (f64_valid_on_grid _ Vx) as Gx. pose proof (f64_valid_on_grid _ Vy) as Gy.
  destruct x as [sx| | |sx mx ex], y as [sy| | |sy my ey]; try discriminate;
    cbn [SFcompare ulps].
  - reflexivity.
  - cbn in Hy. apply negb_true_iff in Hy. subst sy. f_equal. symmetry.
    apply Z.compare_lt_iff. apply Z.mul_pos_pos; [reflexivity|].
    apply Z.pow_pos_nonneg; [reflexivity|]. cbn in Gy. clear - Gy. lia.
  - cbn in Hx. apply negb_true_iff in Hx. subst sx. f_equal. symmetry.
    apply Z.compare_gt_iff. apply Z.mul_pos_pos; [reflexivity|].
    apply Z.pow_pos_nonneg; [reflexivity|]. cbn in Gx. clear - Gx. lia.
  - cbn in Hx, Hy. apply negb_true_iff in Hx, Hy. subst sx sy. f_equal.
    unfold f64_valid in Vx, Vy. cbn [valid_binary] in Vx, Vy.
    unfold bounded, canonical_mantissa in Vx, Vy.
    rewrite fexp_eq, digits2_log2 in Vx, Vy.
    apply andb_true_iff in Vx as [Cx _]. apply andb_true_iff in Vy as [Cy _].
    apply Z.eqb_eq in Cx, Cy. symmetry in Cx, Cy.
    destruct (Z.compare_spec ex ey) as [Heq|Hl|Hg].
    + subst ey. cbn in Gx.
      rewrite <- Zmult_compare_compat_r; [reflexivity|].
      apply Z.lt_gt, Z.pow_pos_nonneg; [reflexivity|clear - Gx; lia].
    + symmetry. apply Z.compare_lt_iff. by apply canonical_lt.
    + symmetry. apply Z.compare_gt_iff. by apply canonical_lt.
Qed.

Lemma f64_le_ulps (x y : float64) :
  f64_valid x = true -> f64_valid y = true ->
  f64_nonneg_finite x = true -> f64_nonneg_finite y = true ->
  f64_le x y = true <-> ulps x <= ulps y.
Proof.
  intros Vx Vy Hx Hy. unfold f64_le, SFleb. rewrite SFcompare_ulps by done.
  destruct (Z.compare_spec (ulps x) (ulps y)); split; try done; lia.
Qed.

Lemma f64_lt_ulps (x y : float64) :
  f64_valid x = true -> f64_valid y = true ->
  f64_nonneg_finite x = true -> f64_nonneg_finite y = true ->
  f64_lt x y = true <-> ulps x < ulps y.
Proof.
  intros Vx Vy Hx Hy. unfold f64_lt, SFltb. rewrite SFcompare_ulps by done.
  destruct (Z.compare_spec (ulps x) (ulps y)); split; try done; lia.
Qed.

(** The integer part of a float that is not negative. *)
Lemma f64_trunc_ulps (f : float64) :
  f64_nonneg_finite f = true -> f64_on_grid f ->
  f64_trunc f = Some (ulps f / 2 ^ 1074).
Proof.
  intros Hf Gf. destruct f as [s| | |s m e]; try discriminate; cbn [f64_trunc ulps].
  - done.
  - cbn in Hf, Gf. apply negb_true_iff in Hf. subst s. cbn [cond_Zopp]. f_equal.
    destruct (Z_le_gt_dec 0 e) as [He|He].
    + rewrite Z.shiftl_mul_pow2 by exact He.
      rewrite (Z.pow_add_r 2 e 1074) by (exact He || discriminate).
      rewrite Z.mul_assoc, Z.div_mul; [reflexivity|discriminate].
    + rewrite Z.shiftl_div_pow2 by (clear - He; lia).
      assert (Hp : 2 ^ 1074 = 2 ^ (- e) * 2 ^ (e + 1074)).
      { rewrite <- Z.pow_add_r by (clear - He Gf; lia). f_equal. clear; lia. }
      rewrite Hp.
      rewrite Z.div_mul_cancel_r; [reflexivity| |];
        apply Z.pow_nonzero; clear - He Gf; lia.
Qed.

Lemma ulps_nonneg (f : float64) : f64_on_grid f -> 0 <= ulps f.
Proof.
  destruct f as [| | |s m e]; cbn [ulps f64_on_grid]; intros He; try reflexivity.
  apply Z.mul_nonneg_nonneg; [discriminate|]. apply Z.pow_nonneg. discriminate.
Qed.

Lemma int_of_float64_ulps (arch : GOARCH) (f : float64) :
  f64_nonneg_finite f = true -> f64_on_grid f ->
  ulps f / 2 ^ 1074 <= max_int64 ->
  int_of_float64 arch f = ulps f / 2 ^ 1074.
Proof.
  intros Hf Gf Hmax.
  assert (H0 : 0 <= ulps f / 2 ^ 1074).
  { apply Z.div_pos; [by apply ulps_nonneg|reflexivity]. }
  unfold int_of_float64. rewrite (f64_trunc_ulps f Hf Gf).
  set (z := ulps f / 2 ^ 1074) in *. clearbody z.
  assert (Hmin : min_int64 <= 0) by discriminate.
  destruct arch.
  - replace (min_int64 <=? z) with true by (symmetry; apply Z.leb_le; lia).
    replace (z <=? max_int64) with true by (symmetry; apply Z.leb_le; exact Hmax).
    reflexivity.
  - destruct f as [| | |s m e]; try discriminate; clear Hf Gf; lia.
Qed.

(** ** The window of [ReadLocationData] *)

Lemma ulps_one : ulps f64_one = 2 ^ 1074.
Proof. reflexivity. Qed.

(** Fractions with [0 <= a <= b <= 1] are zero or finite, and not
    negative. *)
Lemma fractions_nonneg_finite (a b : float64) :
  f64_le f64_zero a = true -> f64_le a b = true -> f64_le b f64_one = true ->
  f64_nonneg_finite a = true /\ f64_nonneg_finite b = true.
Proof.
  unfold f64_le, SFleb, f64_zero, f64_one.
  destruct a as [sa|[|]| |[|] ma ea], b as [sb|[|]| |[|] mb eb];
    cbn [SFcompare f64_nonneg_finite negb]; try done.
Qed.

(** The clamps of the fractions change nothing when [0 <= a <= b <= 1]. *)
Lemma clampPercents_valid (a b : float64) :
  f64_valid a = true -> f64_valid b = true ->
  f64_le f64_zero a = true -> f64_le a b = true -> f64_le b f64_one = true ->
  clampPercents a b = (a, b).
Proof.
  intros Va Vb H0 Hab H1.
  destruct (fractions_nonneg_finite a b H0 Hab H1) as [Na Nb].
  assert (V0 : f64_valid f64_zero = true) by reflexivity.
  assert (V1 : f64_valid f64_one = true) by reflexivity.
  apply f64_le_ulps in H0, Hab, H1; try assumption.
  unfold clampPercents.
  assert (Ha : f64_lt a f64_zero = false).
  { apply not_true_is_false. intros H. apply f64_lt_ulps in H; try assumption.
    apply Z.lt_nge in H. contradiction. }
  assert (Hb : f64_gt b f64_one = false).
  { apply not_true_is_false. intros H. unfold f64_gt in H.
    apply (f64_lt_ulps f64_one b) in H; try assumption.
    apply Z.lt_nge in H. contradiction. }
  assert (Hc : f64_gt a b = false).
  { apply not_true_is_false. intros H. unfold f64_gt in H.
    apply (f64_lt_ulps b a) in H; try assumption.
    apply Z.lt_nge in H. contradiction. }
  rewrite Ha, Hb, Hc. reflexivity.
Qed.

(** An integer below [2^53] is a float: rounding leaves it as it is. *)
Lemma round_ulps_int (n : Z) :
  0 <= n < 2 ^ 53 -> round_ulps (n * 2 ^ 2148) = n * 2 ^ 1074.
Proof.
  intros Hn. rewrite round_ulps_exact.
  - reflexivity.
  - apply Hn.
  - unfold round_exp. destruct (Z.eq_dec n 0) as [->|Hn0]; [discriminate|].
    assert (Z.log2 n < 53) by (apply Z.log2_lt_pow2; lia).
    rewrite Z.log2_mul_pow2 by lia. lia.
Qed.

Lemma product_with_int_bound (u n : Z) :
  0 <= u <= 2 ^ 1074 -> 0 <= n < 2 ^ 53 ->
  0 <= u * (n * 2 ^ 1074) <= n * 2 ^ 2148 /\ u * (n * 2 ^ 1074) < 2 ^ 3120.
Proof.
  intros Hu Hn.
  change (2 ^ 2148) with (2 ^ 1074 * 2 ^ 1074).
  change (2 ^ 3120) with (2 ^ 972 * (2 ^ 1074 * 2 ^ 1074)).
  assert (HU : 0 < 2 ^ 1074) by reflexivity.
  assert (H53 : 2 ^ 53 <= 2 ^ 972) by discriminate.
  set (U := 2 ^ 1074) in *. clearbody U.
  set (B := 2 ^ 53) in *. set (C := 2 ^ 972) in *. clearbody B C.
  assert (HnU : 0 <= n * U) by (apply Z.mul_nonneg_nonneg; lia).
  assert (HUU : 0 < U * U) by (apply Z.mul_pos_pos; lia).
  assert (H1 : u * (n * U) <= U * (n * U)) by (apply Z.mul_le_mono_nonneg_r; lia).
  replace (U * (n * U)) with (n * (U * U)) in H1 by ring.
  assert (H2 : n * (U * U) < C * (U * U)) by (apply Z.mul_lt_mono_pos_r; lia).
  assert (H0 : 0 <= u * (n * U)) by (apply Z.mul_nonneg_nonneg; lia).
  lia.
Qed.

(** [int(fraction * float64(n))] is the rounded product, cut to an integer. *)
Lemma floorIndex_ulps (arch : GOARCH) (x : float64) (n : Z) :
  f64_valid x = true -> f64_nonneg_finite x = true ->
  ulps x <= 2 ^ 1074 -> 0 <= n < 2 ^ 53 ->
  floorIndex arch x n = round_ulps (ulps x * (n * 2 ^ 1074)) / 2 ^ 1074
  /\ round_ulps (ulps x * (n * 2 ^ 1074)) <= n * 2 ^ 1074.
Proof.
  intros Vx Nx Hx Hn.
  pose proof (f64_valid_on_grid x Vx) as Gx.
  pose proof (ulps_nonneg x Gx) as Hx0.
  destruct (float64_of_int_ulps n Hn) as (Nn & Gn & Un).
  destruct (product_with_int_bound (ulps x) n (conj Hx0 Hx) Hn) as [[HW0 HWle] HW].
  assert (Hle : round_ulps (ulps x * (n * 2 ^ 1074)) <= n * 2 ^ 1074).
  { eapply Z.le_trans; [apply (round_ulps_mono _ (n * 2 ^ 2148)); assumption|].
    rewrite (round_ulps_int n Hn). apply Z.le_refl. }
  split; [|exact Hle].
  unfold floorIndex. rewrite <- Un in HW |- *.
  destruct (f64_mul_ulps x (float64_of_int n) Nx Nn Gx Gn HW) as (Nm & Gm & Um).
  rewrite <- Um. apply int_of_float64_ulps; [exact Nm|exact Gm|].
  rewrite Um, Un.
  apply Z.le_trans with n.
  - apply Z.div_le_upper_bound; [reflexivity|]. rewrite (Z.mul_comm (2 ^ 1074) n). exact Hle.
  - apply Z.le_trans with (2 ^ 53); [apply Z.lt_le_incl, Hn|discriminate].
Qed.

(** For [0 <= a <= b <= 1] the two indices are in order and within
    [0, n]; the fraction [1.0] selects up to the end. *)
Lemma floorIndex_bounds (arch : GOARCH) (a b : float64) (n : Z) :
  f64_valid a = true -> f64_valid b = true ->
  f64_le f64_zero a = true -> f64_le a b = true -> f64_le b f64_one = true ->
  0 <= n < 2 ^ 53 ->
  0 <= floorIndex arch a n <= floorIndex arch b n
  /\ floorIndex arch b n <= n
  /\ floorIndex arch f64_one n = n.
Proof.
  intros Va Vb H0 Hab H1 Hn.
  destruct (fractions_nonneg_finite a b H0 Hab H1) as [Na Nb].
  assert (V1 : f64_valid f64_one = true) by reflexivity.
  apply f64_le_ulps in Hab, H1; try assumption; try reflexivity.
  rewrite ulps_one in H1.
  pose proof (ulps_nonneg a (f64_valid_on_grid a Va)) as Ha0.
  assert (Ha1 : ulps a <= 2 ^ 1074) by (eapply Z.le_trans; eassumption).
  assert (Hb0 : 0 <= ulps b) by (eapply Z.le_trans; eassumption).
  destruct (floorIndex_ulps arch a n Va Na Ha1 Hn) as [-> _].
  destruct (floorIndex_ulps arch b n Vb Nb H1 Hn) as [-> Hble].
  destruct (floorIndex_ulps arch f64_one n V1 eq_refl (Z.le_refl _) Hn) as [-> _].
  destruct (product_with_int_bound (ulps a) n (conj Ha0 Ha1) Hn) as [[HWa _] _].
  assert (Hn0 : 0 <= n * 2 ^ 1074).
  { apply Z.mul_nonneg_nonneg; [apply Hn|discriminate]. }
  split; [split|split].
  - apply Z.div_pos; [|reflexivity]. by apply round_ulps_nonneg.
  - apply Z.div_le_mono; [reflexivity|]. apply round_ulps_mono; [exact HWa|].
    apply Z.mul_le_mono_nonneg_r; assumption.
  - apply Z.div_le_upper_bound; [reflexivity|]. rewrite (Z.mul_comm (2 ^ 1074) n). exact Hble.
  - rewrite ulps_one.
    replace (2 ^ 1074 * (n * 2 ^ 1074)) with (n * 2 ^ 2148)
      by (change (2 ^ 2148) with (2 ^ 1074 * 2 ^ 1074); ring).
    rewrite (round_ulps_int n Hn). apply Z.div_mul. discriminate.
Qed.

Lemma sliceIndices_valid (arch : GOARCH) (a b : float64) (n : Z) :
  f64_valid a = true -> f64_valid b = true ->
  f64_le f64_zero a = true -> f64_le a b = true -> f64_le b f64_one = true ->
  0 <= n < 2 ^ 53 ->
  sliceIndices arch a b n = (floorIndex arch a n, floorIndex arch b n).
Proof.
  intros Va Vb H0 Hab H1 Hn.
  destruct (floorIndex_bounds arch a b n Va Vb H0 Hab H1 Hn) as ([Hs Hse] & He & _).
  unfold sliceIndices. rewrite clampPercents_valid by done. fold (floorIndex arch a n).
  fold (floorIndex arch b n).
  replace (floorIndex arch a n <? 0) with false by (symmetry; apply Z.ltb_ge; lia).
  replace (floorIndex arch b n >? n) with false
    by (symmetry; rewrite Z.gtb_ltb; apply Z.ltb_ge; lia).
  replace (floorIndex arch a n >? floorIndex arch b n) with false
    by (symmetry; rewrite Z.gtb_ltb; apply Z.ltb_ge; lia).
  done.
Qed.

(** ** Sorted lists and their windows *)

Lemma Sorted_weaken {A : Type} (R R' : A -> A -> Prop) (l : list A) :
  (forall a b, R a b -> R' a b) -> Sorted R l -> Sorted R' l.
Proof.
  intros HR. induction 1 as [|x l Hs IH Hhd]; constructor; [done|].
  destruct Hhd; constructor. by apply HR.
Qed.

Lemma Sorted_skipn {A : Type} (R : A -> A -> Prop) (k : nat) (l : list A) :
  Sorted R l -> Sorted R (skipn k l).
Proof.
  revert l. induction k as [|k IH]; intros l Hs; [done|].
  destruct l as [|x l]; [done|]. cbn. apply IH. by inversion Hs.
Qed.

Lemma Sorted_firstn {A : Type} (R : A -> A -> Prop) (k : nat) (l : list A) :
  Sorted R l -> Sorted R (firstn k l).
Proof.
  revert l. induction k as [|k IH]; intros l Hs; [constructor|].
  destruct l as [|x l]; [constructor|]. cbn.
  apply Sorted_inv in Hs as [Hs Hhd]. constructor; [by apply IH|].
  destruct k, l as [|y l]; cbn; constructor. by inversion Hhd.
Qed.

Lemma Before_strict_weak_order :
  strict_weak_order (fun a b : LocationData => Before (Timestamp a) (Timestamp b)).
Proof.
  unfold strict_weak_order, Before. repeat split.
  - intros a. apply Z.ltb_irrefl.
  - intros a b c H1 H2. apply Z.ltb_lt in H1, H2. apply Z.ltb_lt. lia.
  - intros a b c H1 H2. apply Z.ltb_ge in H1, H2. apply Z.ltb_ge. lia.
Qed.

Lemma sort_Slice_by_Timestamp `{Sort} (l : list LocationData) :
  Sorted (fun a b => Timestamp a <= Timestamp b)
         (sort_Slice (fun a b => Before (Timestamp a) (Timestamp b)) l).
Proof.
  eapply Sorted_weaken; [|apply sort_Slice_sorted, Before_strict_weak_order].
  cbn. intros a b Hab. unfold Before in Hab. by apply Z.ltb_ge in Hab.
Qed.

Lemma slice_expr_in_bounds {A : Type} (l : list A) (low high : Z) :
  0 <= low <= high -> high <= Z.of_nat (length l) ->
  slice_expr l low high
  = Return (firstn (Z.to_nat (high - low)) (skipn (Z.to_nat low) l))
  /\ Z.of_nat (length (firstn (Z.to_nat (high - low)) (skipn (Z.to_nat low) l)))
     = high - low.
Proof.
  intros Hl Hh. unfold slice_expr.
  replace (0 <=? low) with true by (symmetry; apply Z.leb_le; lia).
  replace (low <=? high) with true by (symmetry; apply Z.leb_le; lia).
  replace (high <=? Z.of_nat (length l)) with true by (symmetry; apply Z.leb_le; lia).
  split; [done|]. rewrite length_firstn, length_skipn. lia.
Qed.

Lemma floorIndex_zero (arch : GOARCH) (n : Z) :
  0 <= n < 2 ^ 53 -> floorIndex arch f64_zero n = 0.
Proof.
  intros Hn.
  destruct (floorIndex_ulps arch f64_zero n eq_refl eq_refl) as [-> _];
    [discriminate|exact Hn|].
  cbn [ulps f64_zero]. rewrite Z.mul_0_l, round_ulps_0. reflexivity.
Qed.

(** ** The index of the code and the floor of the exact product *)

(** The number a float stands for is its count of units of [2^-1074]. *)
Lemma f64_value_ulps (f : float64) :
  f64_nonneg_finite f = true -> f64_on_grid f ->
  (f64_value f == inject_Z (ulps f) / inject_Z (2 ^ 1074))%Q.
Proof.
  intros Nf Gf.
  assert (HP : ~ (inject_Z (2 ^ 1074) == 0)%Q).
  { rewrite Zpower_Qpower by discriminate. by apply Qpower_not_0. }
  destruct f as [s| | |s m e]; try discriminate; cbn [f64_value ulps].
  - unfold Qdiv. by rewrite Qmult_0_l.
  - cbn in Nf, Gf. apply negb_true_iff in Nf. subst s. cbn [cond_Zopp].
    rewrite inject_Z_mult.
    rewrite (Zpower_Qpower 2 (e + 1074)) by (clear - Gf; lia).
    rewrite (Qpower_plus (inject_Z 2) e 1074) by done.
    rewrite <- (Zpower_Qpower 2 1074) by discriminate.
    set (P := inject_Z (2 ^ 1074)) in *. clearbody P.
    change (inject_Z 2) with 2%Q. set (E := (2 ^ e)%Q). clearbody E.
    field. exact HP.
Qed.

(** The floor of the exact product, on integers. *)
Lemma spec_floor_ulps (f : float64) (n : Z) :
  f64_nonneg_finite f = true -> f64_on_grid f ->
  spec_floor f n = (ulps f * n) / 2 ^ 1074.
Proof.
  intros Nf Gf. unfold spec_floor. rewrite Zdiv_Qdiv. apply Qfloor_comp.
  rewrite (f64_value_ulps f Nf Gf), inject_Z_mult.
  assert (HP : ~ (inject_Z (2 ^ 1074) == 0)%Q).
  { rewrite Zpower_Qpower by discriminate. by apply Qpower_not_0. }
  set (P := inject_Z (2 ^ 1074)) in *. clearbody P.
  field. exact HP.
Qed.

Lemma floor_scale (a D : Z) :
  0 < D ->
  a / D * (D * D) <= a * D /\ a * D < (a / D + 1) * (D * D).
Proof.
  intros HD.
  pose proof (Z.mul_div_le a D HD) as H1.
  pose proof (Z.mul_succ_div_gt a D HD) as H2.
  set (k := a / D) in *. clearbody k. split; nia.
Qed.

(** The rounded product of a fraction of [0, 1] and an integer below
    [2^53] has the integer part of the exact product, or one more; in the
    second case the rounded product is that integer. *)
Lemma round_ulps_floor (u n : Z) :
  0 <= u <= 2 ^ 1074 -> 0 <= n < 2 ^ 53 ->
  let k := (u * n) / 2 ^ 1074 in
  let R := round_ulps (u * (n * 2 ^ 1074)) in
  k <= R / 2 ^ 1074 <= k + 1
  /\ (R / 2 ^ 1074 = k + 1 -> R = (k + 1) * 2 ^ 1074).
Proof.
  intros Hu Hn k R.
  destruct (product_with_int_bound u n Hu Hn) as [[HW0 HWn] _].
  assert (HRn : R <= n * 2 ^ 1074).
  { unfold R. eapply Z.le_trans; [apply (round_ulps_mono _ (n * 2 ^ 2148)); assumption|].
    rewrite (round_ulps_int n Hn). apply Z.le_refl. }
  assert (Hint : forall j, 0 <= j <= n -> round_ulps (j * 2 ^ 2148) = j * 2 ^ 1074).
  { intros j Hj. apply round_ulps_int. clear - Hj Hn. lia. }
  assert (H2 : 2 ^ 2148 = 2 ^ 1074 * 2 ^ 1074) by reflexivity.
  assert (HD : 0 < 2 ^ 1074) by reflexivity.
  assert (HW : u * (n * 2 ^ 1074) = u * n * 2 ^ 1074) by apply Z.mul_assoc.
  fold R in HRn. unfold R in *. clear R. rewrite HW in *. clear HW HWn.
  rewrite H2 in Hint. clear H2.
  set (D := 2 ^ 1074) in *. clearbody D.
  destruct (floor_scale (u * n) D HD) as [Hlo Hhi]. fold k in Hlo, Hhi.
  assert (Hk0 : 0 <= k).
  { apply Z.div_pos; [|exact HD]. apply Z.mul_nonneg_nonneg; [apply Hu|apply Hn]. }
  assert (Hkn : k <= n).
  { apply Z.div_le_upper_bound; [exact HD|].
    apply Z.mul_le_mono_nonneg_r; [apply Hn|apply Hu]. }
  set (R := round_ulps (u * n * D)) in *.
  assert (HkR : k * D <= R).
  { rewrite <- (Hint k (conj Hk0 Hkn)). apply round_ulps_mono; [|exact Hlo].
    apply Z.mul_nonneg_nonneg; [exact Hk0|]. clear - HD. nia. }
  assert (Hlow : k <= R / D).
  { apply Z.div_le_lower_bound; [exact HD|]. rewrite Z.mul_comm. exact HkR. }
  destruct (Z_le_gt_dec (k + 1) n) as [Hk1|Hk1].
  - assert (HRk : R <= (k + 1) * D).
    { rewrite <- (Hint (k + 1)) by (clear - Hk0 Hk1; lia).
      apply round_ulps_mono; [exact HW0|]. apply Z.lt_le_incl. exact Hhi. }
    split; [split; [exact Hlow|]|].
    + apply Z.div_le_upper_bound; [exact HD|]. rewrite Z.mul_comm. exact HRk.
    + intros Heq. pose proof (Z.mul_div_le R D HD) as Hm. rewrite Heq in Hm.
      apply Z.le_antisymm; [exact HRk|]. rewrite Z.mul_comm. exact Hm.
  - assert (Hup : R / D <= n).
    { apply Z.div_le_upper_bound; [exact HD|]. rewrite Z.mul_comm. exact HRn. }
    split; [split; [exact Hlow|]|].
    + clear - Hup Hk1. lia.
    + intros Heq. exfalso. clear - Hup Hk1 Heq. lia.
Qed.

(** The index the code computes against the index of the specification. *)
Lemma floorIndex_spec_floor (arch : GOARCH) (f : float64) (n : Z) :
  f64_valid f = true -> f64_nonneg_finite f = true ->
  ulps f <= 2 ^ 1074 -> 0 <= n < 2 ^ 53 ->
  spec_floor f n <= floorIndex arch f n <= spec_floor f n + 1
  /\ (floorIndex arch f n = spec_floor f n + 1 ->
      (f64_value (f64_mul f (float64_of_int n)) == inject_Z (floorIndex arch f n))%Q).
Proof.
  intros Vf Nf Hf Hn.
  pose proof (f64_valid_on_grid f Vf) as Gf.
  pose proof (ulps_nonneg f Gf) as Hf0.
  rewrite (spec_floor_ulps f n Nf Gf).
  destruct (floorIndex_ulps arch f n Vf Nf Hf Hn) as [-> _].
  destruct (round_ulps_floor (ulps f) n (conj Hf0 Hf) Hn) as [Hb Hup].
  split; [exact Hb|]. intros Heq. specialize (Hup Heq).
  destruct (float64_of_int_ulps n Hn) as (Nn & Gn & Un).
  destruct (product_with_int_bound (ulps f) n (conj Hf0 Hf) Hn) as [_ HW].
  rewrite <- Un in HW.
  destruct (f64_mul_ulps f (float64_of_int n) Nf Nn Gf Gn HW) as (Nm & Gm & Um).
  rewrite (f64_value_ulps _ Nm Gm), Um, Un, Heq, Hup, inject_Z_mult.
  assert (HP : ~ (inject_Z (2 ^ 1074) == 0)%Q).
  { rewrite Zpower_Qpower by discriminate. by apply Qpower_not_0. }
  set (P := inject_Z (2 ^ 1074)) in *. clearbody P.
  field. exact HP.
Qed.

(** ** The claims on [ReadLocationData] *)

Section WindowClaims.
Context `{JSON} `{Sort}.

(** The fetch over a store answer, for fractions with [0 <= a <= b <= 1]. *)
Lemma ReadLocationData_window (arch : GOARCH) (userID : string) (a b : float64)
    (w : World) (d : DB) :
  db w = Some d -> db_get_error d = None ->
  f64_valid a = true -> f64_valid b = true ->
  f64_le f64_zero a = true -> f64_le a b = true -> f64_le b f64_one = true ->
  let rawMessages := default [] (db_topics d !! GetTopicForUser userID) in
  let samples := decoded rawMessages in
  let n := Z.of_nat (length samples) in
  n < 2 ^ 53 ->
  let sorted := sort_Slice (fun x y => Before (Timestamp x) (Timestamp y)) samples in
  ReadLocationData arch userID a b w
  = (Return (firstn (Z.to_nat (floorIndex arch b n - floorIndex arch a n))
                    (skipn (Z.to_nat (floorIndex arch a n)) sorted), None),
     emit (EvGet (GetTopicForUser userID) :: decode_log userID rawMessages) w).
Proof.
  intros Hd Hg Va Vb Hlo Hab Hhi rawMessages samples n Hn sorted.
  assert (Hn' : 0 <= n < 2 ^ 53) by (unfold n; lia).
  rewrite (ReadLocationData_open arch userID a b w d Hd Hg).
  fold rawMessages samples n sorted.
  destruct (floorIndex_bounds arch a b n Va Vb Hlo Hab Hhi Hn') as ([Hs Hse] & He & _).
  rewrite sliceIndices_valid by done. cbn [fst snd].
  destruct (Z.eqb_spec n 0) as [Hz|Hnz].
  - f_equal. f_equal. f_equal.
    replace (floorIndex arch b n - floorIndex arch a n) with 0 by lia. done.
  - assert (Hlen : Z.of_nat (length sorted) = n).
    { unfold sorted, n. by rewrite (Permutation_length (sort_Slice_perm _ _ _)). }
    destruct (slice_expr_in_bounds sorted (floorIndex arch a n) (floorIndex arch b n))
      as [-> _]; [lia|lia|done].
Qed.

(** The full window, for a store that answers. *)
Lemma ReadLocationData_full (arch : GOARCH) (userID : string) (w : World) (d : DB) :
  db w = Some d -> db_get_error d = None ->
  let rawMessages := default [] (db_topics d !! GetTopicForUser userID) in
  Z.of_nat (length (decoded rawMessages)) < 2 ^ 53 ->
  ReadLocationData arch userID f64_zero f64_one w
  = (Return (sort_Slice (fun x y => Before (Timestamp x) (Timestamp y))
                        (decoded rawMessages), None),
     emit (EvGet (GetTopicForUser userID) :: decode_log userID rawMessages) w).
Proof.
  intros Hd Hg rawMessages Hn.
  rewrite (ReadLocationData_window arch userID f64_zero f64_one w d Hd Hg
             eq_refl eq_refl eq_refl eq_refl eq_refl Hn).
  fold rawMessages.
  set (n := Z.of_nat (length (decoded rawMessages))) in *.
  assert (Hn' : 0 <= n < 2 ^ 53) by (unfold n; lia).
  destruct (floorIndex_bounds arch f64_zero f64_one n eq_refl eq_refl eq_refl eq_refl
              eq_refl Hn') as (_ & _ & ->).
  rewrite (floorIndex_zero arch n Hn'), Z.sub_0_r. cbn [Z.to_nat skipn].
  f_equal. f_equal. f_equal. apply firstn_all2.
  rewrite (Permutation_length (sort_Slice_perm _ _ _)). unfold n. lia.
Qed.

(** C1 (amended). For an entity whose stored records decode to [n] samples
    and fractions with [0 <= minFraction <= maxFraction <= 1], the fetch
    returns, without error, the samples sorted by timestamp from
    [startIndex] up to, not including, [endIndex], where each index is the
    integer part of the [float64] product [fraction * float64(n)]. That
    index is [floor(fraction * n)] or one more, and one more only when the
    [float64] product has been rounded up to that integer. The indices are
    in order and within [0, n]; the result has their difference as length,
    which is within one of
    [floor(maxFraction * n) - floor(minFraction * n)], and is
    non-decreasing by timestamp; with [maxFraction = 1.0] the window runs
    to the last sample, with [minFraction = maxFraction] it is empty, and
    with [n = 0] the result is the empty sequence. *)
Theorem C1_ReadLocationData_window (arch : GOARCH) (userID : string)
    (minFraction maxFraction : float64) (w : World) (d : DB) :
  db w = Some d -> db_get_error d = None ->
  f64_valid minFraction = true -> f64_valid maxFraction = true ->
  f64_le f64_zero minFraction = true ->
  f64_le minFraction maxFraction = true ->
  f64_le maxFraction f64_one = true ->
  let samples := decoded (default [] (db_topics d !! GetTopicForUser userID)) in
  let n := Z.of_nat (length samples) in
  n < 2 ^ 53 ->
  let sorted := sort_Slice (fun x y => Before (Timestamp x) (Timestamp y)) samples in
  let startIndex := int_of_float64 arch (f64_mul minFraction (float64_of_int n)) in
  let endIndex := int_of_float64 arch (f64_mul maxFraction (float64_of_int n)) in
  exists result,
    fst (ReadLocationData arch userID minFraction maxFraction w) = Return (result, None)
    /\ 0 <= startIndex <= endIndex /\ endIndex <= n
    /\ result = firstn (Z.to_nat (endIndex - startIndex)) (skipn (Z.to_nat startIndex) sorted)
    /\ Z.of_nat (length result) = endIndex - startIndex
    /\ Sorted (fun x y => Timestamp x <= Timestamp y) result
    /\ Permutation sorted samples
    /\ Sorted (fun x y => Timestamp x <= Timestamp y) sorted
    /\ (maxFraction = f64_one -> endIndex = n)
    /\ (minFraction = maxFraction -> result = [])
    /\ (n = 0 -> result = [])
    /\ spec_floor minFraction n <= startIndex <= spec_floor minFraction n + 1
    /\ spec_floor maxFraction n <= endIndex <= spec_floor maxFraction n + 1
    /\ (startIndex = spec_floor minFraction n + 1 ->
        (f64_value (f64_mul minFraction (float64_of_int n)) == inject_Z startIndex)%Q)
    /\ (endIndex = spec_floor maxFraction n + 1 ->
        (f64_value (f64_mul maxFraction (float64_of_int n)) == inject_Z endIndex)%Q)
    /\ spec_floor maxFraction n - spec_floor minFraction n - 1
       <= Z.of_nat (length result)
       <= spec_floor maxFraction n - spec_floor minFraction n + 1.
Proof.
  intros Hd Hg Va Vb Hlo Hab Hhi samples n Hn sorted startIndex endIndex.
  change startIndex with (floorIndex arch minFraction n).
  change endIndex with (floorIndex arch maxFraction n).
  clear startIndex endIndex.
  set (startIndex := floorIndex arch minFraction n).
  set (endIndex := floorIndex arch maxFraction n).
  assert (Hn' : 0 <= n < 2 ^ 53) by (unfold n; lia).
  destruct (floorIndex_bounds arch minFraction maxFraction n Va Vb Hlo Hab Hhi Hn')
    as ([Hs Hse] & He & Hone).
  fold startIndex endIndex in Hs, Hse, He.
  destruct (fractions_nonneg_finite minFraction maxFraction Hlo Hab Hhi) as [Na Nb].
  assert (Hub : ulps maxFraction <= 2 ^ 1074).
  { rewrite <- ulps_one. apply f64_le_ulps; [exact Vb|reflexivity|exact Nb|reflexivity|exact Hhi]. }
  assert (Hua : ulps minFraction <= 2 ^ 1074).
  { eapply Z.le_trans; [|exact Hub]. by apply f64_le_ulps. }
  destruct (floorIndex_spec_floor arch minFraction n Va Na Hua Hn') as [Hfa Hxa].
  destruct (floorIndex_spec_floor arch maxFraction n Vb Nb Hub Hn') as [Hfb Hxb].
  fold startIndex in Hfa, Hxa. fold endIndex in Hfb, Hxb.
  assert (Hlen : Z.of_nat (length sorted) = n).
  { unfold sorted, n. by rewrite (Permutation_length (sort_Slice_perm _ _ _)). }
  assert (Hsorted : Sorted (fun x y => Timestamp x <= Timestamp y) sorted)
    by apply sort_Slice_by_Timestamp.
  assert (Hcount : Z.of_nat (length (firstn (Z.to_nat (endIndex - startIndex))
                                            (skipn (Z.to_nat startIndex) sorted)))
                   = endIndex - startIndex).
  { rewrite length_firstn, length_skipn. clear - Hs Hse He Hlen. lia. }
  eexists. split.
  { rewrite (ReadLocationData_window arch userID minFraction maxFraction w d) by done.
    reflexivity. }
  fold samples n sorted startIndex endIndex.
  split; [done|]. split; [done|]. split; [done|]. split; [exact Hcount|].
  split; [by apply Sorted_firstn, Sorted_skipn|].
  split; [apply sort_Slice_perm|]. split; [done|].
  split; [intros ->; exact Hone|].
  split; [intros Heq; unfold startIndex, endIndex; by rewrite Heq, Z.sub_diag|].
  split; [intros Hz; by replace (endIndex - startIndex) with 0 by (clear - Hz Hs Hse He; lia)|].
  split; [exact Hfa|]. split; [exact Hfb|]. split; [exact Hxa|]. split; [exact Hxb|].
  rewrite Hcount. clear - Hfa Hfb. lia.
Qed.

Lemma decoded_filter_decodable (raws : list string) :
  decoded (filter (fun raw => decodable raw = true) raws) = decoded raws.
Proof.
  unfold decoded, decodable.
  induction raws as [|raw raws IH]; [reflexivity|].
  destruct (json_Unmarshal raw) as [data|err] eqn:Hraw.
  - rewrite filter_cons_True by (by rewrite Hraw). cbn. by rewrite Hraw, IH.
  - rewrite filter_cons_False by (by rewrite Hraw). cbn. by rewrite Hraw, IH.
Qed.

Lemma decode_log_length (userID : string) (raws : list string) :
  length (log_lines (decode_log userID raws))
  = (length raws - length (filter (fun raw => decodable raw = true) raws))%nat
  /\ (length (filter (fun raw => decodable raw = true) raws) <= length raws)%nat.
Proof.
  unfold decode_log, log_lines, decodable.
  induction raws as [|raw raws [IH1 IH2]]; [split; reflexivity|].
  cbn [flat_map]. rewrite omap_app, length_app.
  destruct (json_Unmarshal raw) as [data|err] eqn:Hraw.
  - rewrite filter_cons_True by (by rewrite Hraw). cbn [omap length].
    rewrite IH1. cbn. split; lia.
  - rewrite filter_cons_False by (by rewrite Hraw). cbn [omap length].
    rewrite IH1. cbn. split; lia.
Qed.

(** C7. Whatever mix of records [db.Get] answers, the records that do not
    decode are skipped, each leaving one log line, and the fetch does what
    it does on the records that decode alone: it never returns an error,
    and for fractions with [0 <= minFraction <= maxFraction <= 1] it
    returns the window of the sorted decoded samples. *)
Theorem C7_decode_failures_are_skipped (arch : GOARCH) (userID : string)
    (minFraction maxFraction : float64) (w : World) (d : DB) :
  db w = Some d -> db_get_error d = None ->
  let rawMessages := default [] (db_topics d !! GetTopicForUser userID) in
  let good := filter (fun raw => decodable raw = true) rawMessages in
  let d' := {| db_topics := <[ GetTopicForUser userID := good ]> (db_topics d);
               db_get_error := None;
               db_put_error := db_put_error d;
               db_commit_error := db_commit_error d |} in
  let r := ReadLocationData arch userID minFraction maxFraction w in
  fst r = fst (ReadLocationData arch userID minFraction maxFraction
                 {| db := Some d'; trace := trace w |})
  /\ (forall data err, fst r <> Return (data, Some err))
  /\ length (log_lines (drop (length (trace w)) (trace (snd r))))
     = (length rawMessages - length good)%nat
  /\ (f64_valid minFraction = true -> f64_valid maxFraction = true ->
      f64_le f64_zero minFraction = true ->
      f64_le minFraction maxFraction = true ->
      f64_le maxFraction f64_one = true ->
      Z.of_nat (length (decoded rawMessages)) < 2 ^ 53 ->
      let n := Z.of_nat (length (decoded rawMessages)) in
      fst r = Return
                (firstn (Z.to_nat (floorIndex arch maxFraction n
                                   - floorIndex arch minFraction n))
                   (skipn (Z.to_nat (floorIndex arch minFraction n))
                      (sort_Slice (fun x y => Before (Timestamp x) (Timestamp y))
                                  (decoded rawMessages))), None)).
Proof.
  intros Hd Hg rawMessages good d' r.
  pose proof (decoded_filter_decodable rawMessages) as Hdec. fold good in Hdec.
  pose proof (decode_log_length userID rawMessages) as Hlog. fold good in Hlog.
  subst r.
  rewrite (ReadLocationData_open arch userID minFraction maxFraction w d Hd Hg).
  rewrite (ReadLocationData_open arch userID minFraction maxFraction
             {| db := Some d'; trace := trace w |} d' eq_refl eq_refl).
  cbn [fst snd db_topics d']. rewrite lookup_insert_eq. cbn [default].
  fold rawMessages. change (id good) with good. rewrite Hdec.
  split; [done|]. split; [|split].
  - intros data err. destruct (_ =? 0); [done|]. by destruct (slice_expr _ _ _).
  - unfold emit. cbn [trace]. rewrite drop_app_length. cbn. apply Hlog.
  - intros Va Vb Hlo Hab Hhi Hn.
    pose proof (ReadLocationData_window arch userID minFraction maxFraction w d
                  Hd Hg Va Vb Hlo Hab Hhi Hn) as Hw.
    rewrite (ReadLocationData_open arch userID minFraction maxFraction w d Hd Hg) in Hw.
    apply (f_equal fst) in Hw. exact Hw.
Qed.

(** C9. The key of entity E is "user." + E + ".location"; E can be read
    back from it, so no other entity has that key. With the database open,
    a write for E calls [PutEntry] under that key once for each sample that
    encodes, in the order of the batch, and makes no other store call; it
    leaves the streams under all other keys as they were and appends the
    accepted payloads to the stream under the key. The read for E that
    follows makes one store call, [db.Get] on the same key, and what it
    returns is computed from the stream found under that key, the written
    payloads included: the samples these records decode to, sorted, and cut
    at the indices of the fractions; with the fractions 0.0 and 1.0, all of
    them. With the database closed neither path calls the store. *)
Theorem C9_one_key_per_entity (arch : GOARCH) (userID : string)
    (dataPoints : list LocationData) (minPercent maxPercent : float64) (w : World) :
  let key := "user." +:+ userID +:+ ".location" in
  let w' := snd (WriteLocationData userID dataPoints w) in
  let r := ReadLocationData arch userID minPercent maxPercent w' in
  GetTopicForUser userID = key
  /\ user_of_topic key = userID
  /\ (forall userID', GetTopicForUser userID' = key -> userID' = userID)
  /\ match db w with
     | None =>
         w' = w /\ r = (Return ([], Some "database not initialized"), w)
     | Some d =>
         exists d' evs evs',
           w' = {| db := Some d'; trace := trace w ++ evs |}
           /\ puts evs = map (pair key) (encoded dataPoints)
           /\ gets evs = []
           /\ Forall (eq key) (store_topics evs)
           /\ delete key (db_topics d') = delete key (db_topics d)
           /\ default [] (db_topics d' !! key)
              = default [] (db_topics d !! key)
                ++ match db_commit_error d with
                   | Some _ => []
                   | None => accepted d dataPoints
                   end
           /\ snd r = emit evs' w'
           /\ store_topics evs' = [key]
           /\ gets evs' = [key]
           /\ (db_get_error d = None ->
               let stored := default [] (db_topics d' !! key) in
               let sorted := sort_Slice (fun x y => Before (Timestamp x) (Timestamp y))
                                        (decoded stored) in
               let n := Z.of_nat (length (decoded stored)) in
               fst r = (if n =? 0 then Return ([], None)
                        else match slice_expr sorted
                                     (fst (sliceIndices arch minPercent maxPercent n))
                                     (snd (sliceIndices arch minPercent maxPercent n)) with
                             | Return s => Return (s, None)
                             | Panic msg => Panic msg
                             end)
               /\ (n < 2 ^ 53 ->
                   fst (ReadLocationData arch userID f64_zero f64_one w')
                   = Return (sorted, None)))
     end.
Proof.
  intros key w' r.
  assert (Hkey : GetTopicForUser userID = key) by reflexivity.
  split; [done|]. split; [apply user_of_topic_GetTopicForUser|].
  split; [intros u' Hu'; by apply GetTopicForUser_inj|].
  destruct (db w) as [d|] eqn:Hd.
  - destruct (WriteLocationData_db userID dataPoints w d Hd)
      as (d' & Hd' & _ & Hg' & _ & _ & Hother & Hget).
    destruct (WriteLocationData_calls userID dataPoints w d Hd) as (evs & Htr & Hp & Hgets).
    destruct (WriteLocationData_open userID dataPoints w d Hd)
      as (evs0 & d0 & Hw & Ht & _).
    fold w' in Hd', Htr. rewrite Hkey in *.
    assert (Hw' : w' = {| db := Some d'; trace := trace w ++ evs |}).
    { destruct w' as [dw tw]. cbn in Hd', Htr. by subst. }
    assert (Hevs : evs0 = evs).
    { unfold w' in Htr. rewrite Hw in Htr. cbn in Htr. by apply app_inv_head in Htr. }
    subst evs0.
    assert (Hdel : delete key (db_topics d') = delete key (db_topics d)).
    { apply map_eq. intros k. destruct (decide (k = key)) as [->|Hne].
      - by rewrite !lookup_delete_eq.
      - rewrite !lookup_delete_ne by done. by apply Hother. }
    destruct (db_get_error d) as [e|] eqn:He.
    + exists d', evs, [EvGet key].
      repeat (split; [done|]).
      subst r. unfold ReadLocationData, db_Get. rewrite Hd', Hg', Hkey. cbn [snd].
      repeat (split; [done|]). discriminate.
    + exists d', evs, (EvGet key :: decode_log userID (default [] (db_topics d' !! key))).
      repeat (split; [done|]).
      subst r. rewrite (ReadLocationData_open arch userID minPercent maxPercent w' d' Hd' Hg').
      rewrite Hkey. cbn [fst snd].
      destruct (decode_log_calls userID (default [] (db_topics d' !! key))) as [Hst Hgt].
      split; [done|].
      set (evs' := decode_log userID (default [] (db_topics d' !! key))) in *.
      split.
      { change (store_topics ([EvGet key] ++ evs') = [key]).
        unfold store_topics in *. by rewrite omap_app, Hst. }
      split.
      { change (gets ([EvGet key] ++ evs') = [key]).
        unfold gets in *. by rewrite omap_app, Hgt. }
      intros _. split; [done|]. intros Hn.
      rewrite (ReadLocationData_full arch userID w' d' Hd' Hg') by (rewrite Hkey; exact Hn).
      by rewrite Hkey.
  - assert (Hw' : w' = w) by (unfold w', WriteLocationData; by rewrite Hd).
    split; [exact Hw'|]. subst r. rewrite Hw'. unfold ReadLocationData. by rewrite Hd.
Qed.

End WindowClaims.

(** C1 (as stated, refuted). With three samples stored, [minFraction = 0.0]
    and [maxFraction] the [float64] nearest to 1/3, which is a little less
    than 1/3, both [floor(minFraction * 3)] and [floor(maxFraction * 3)]
    are 0, and yet the fetch returns one sample: the [float64] product
    [maxFraction * 3.0] is rounded to 1.0. *)
Lemma C1_floor_of_the_exact_product_fails :
  f64_valid f64_third = true
  /\ f64_le f64_zero f64_third = true
  /\ f64_le f64_third f64_one = true
  /\ (f64_value f64_third < 1 # 3)%Q
  /\ spec_floor f64_third 3 - spec_floor f64_zero 3 = 0
  /\ f64_mul f64_third (float64_of_int 3) = f64_one
  /\ fst (@ReadLocationData demo_JSON demo_Sort amd64 "u3" f64_zero f64_third
            three_sample_World)
     = Return ([ {| DeltaX := f64_zero; DeltaY := f64_zero; Timestamp := 97 |} ], None)
  /\ fst (@ReadLocationData demo_JSON demo_Sort arm64 "u3" f64_zero f64_third
            three_sample_World)
     = Return ([ {| DeltaX := f64_zero; DeltaY := f64_zero; Timestamp := 97 |} ], None).
Proof. vm_compute. repeat split. Qed.

(** The store holds "c", "a" and "b" for "u3": the window from 0.0 to the
    [float64] nearest to 1/3 holds the first of the sorted samples, its
    end index being one more than the floor of the exact product. *)
Lemma C1_witness :
  exists result,
    fst (@ReadLocationData demo_JSON demo_Sort amd64 "u3" f64_zero f64_third
           three_sample_World)
    = Return (result, None)
    /\ map Timestamp result = [97]
    /\ Z.of_nat (length result) = spec_floor f64_third 3 + 1.
Proof.
  destruct (@C1_ReadLocationData_window demo_JSON demo_Sort amd64 "u3" f64_zero f64_third
              three_sample_World _ eq_refl eq_refl eq_refl eq_refl eq_refl eq_refl eq_refl
              eq_refl)
    as (result & Hr & _ & _ & Hres & _).
  exists result. split; [exact Hr|]. rewrite Hres. split; reflexivity.
Defined.

Lemma C7_witness :
  fst (@ReadLocationData demo_JSON demo_Sort amd64 "u1" f64_zero f64_one demo_World)
  = fst (@ReadLocationData demo_JSON demo_Sort amd64 "u1" f64_zero f64_one
           {| db := Some {| db_topics := {[ "user.u1.location" := ["b"; "a"] ]};
                            db_get_error := None;
                            db_put_error := db_put_error demo_DB;
                            db_commit_error := None |};
              trace := [] |}).
Proof.
  destruct (@C7_decode_failures_are_skipped demo_JSON demo_Sort amd64 "u1"
              f64_zero f64_one demo_World demo_DB eq_refl eq_refl) as [Heq _].
  rewrite Heq. reflexivity.
Defined.

(** Two samples written for "u1" to the store of the examples, which held
    "b", a corrupt record and "a" under the key of "u1": the read that
    follows asks for that key and returns the four samples, sorted. *)
Lemma C9_witness :
  let pts := [ {| DeltaX := f64_zero; DeltaY := f64_zero; Timestamp := 100 |};
               {| DeltaX := f64_zero; DeltaY := f64_zero; Timestamp := 97 |} ] in
  let w' := snd (@WriteLocationData demo_JSON "u1" pts demo_World) in
  exists result,
    fst (@ReadLocationData demo_JSON demo_Sort amd64 "u1" f64_zero f64_one w')
    = Return (result, None)
    /\ map Timestamp result = [97; 97; 98; 100]
    /\ gets (trace (snd (@ReadLocationData demo_JSON demo_Sort amd64 "u1"
                           f64_zero f64_one w')))
       = ["user.u1.location"].
Proof.
  intros pts w'.
  destruct (@C9_one_key_per_entity demo_JSON demo_Sort amd64 "u1" pts f64_zero f64_one
              demo_World) as (_ & _ & _ & Hm).
  change (db demo_World) with (Some demo_DB) in Hm.
  destruct Hm as (d' & evs & evs' & Hw' & _ & Hg & _ & _ & Hstored & Hr & _ & Hg' & Hres).
  destruct (Hres eq_refl) as [_ Hfull]. fold w' in Hw', Hr, Hfull.
  change (db_commit_error demo_DB) with (@None error) in Hstored.
  eexists. split; [apply Hfull|split].
  - rewrite Hstored. reflexivity.
  - rewrite Hstored. reflexivity.
  - rewrite Hr, Hw'. unfold emit, gets in *. cbn [trace].
    rewrite !omap_app, Hg, Hg'. reflexivity.
Defined.

(** C2 (at the inputs that break it). With one sample stored and
    [maxPercent = -1.0], the clamps leave [endIndex = -1] and set
    [startIndex] to it, and the slice expression panics, on both targets;
    with [maxPercent = NaN], which passes the checks of [handleGetUser], the
    same happens on amd64, where [int(NaN)] is the smallest [int]. *)
Theorem C2_negative_or_NaN_maxPercent_panics :
  @sliceIndices amd64 f64_zero f64_minus_one 1 = (-1, -1)
  /\ @sliceIndices arm64 f64_zero f64_minus_one 1 = (-1, -1)
  /\ fst (@ReadLocationData demo_JSON demo_Sort amd64 "u1" f64_zero f64_minus_one
            one_sample_World)
     = Panic "slice bounds out of range"
  /\ fst (@ReadLocationData demo_JSON demo_Sort arm64 "u1" f64_zero f64_minus_one
            one_sample_World)
     = Panic "slice bounds out of range"
  /\ @sliceIndices amd64 f64_zero S754_nan 1 = (min_int64, min_int64)
  /\ fst (@ReadLocationData demo_JSON demo_Sort amd64 "u1" f64_zero S754_nan
            one_sample_World)
     = Panic "slice bounds out of range".
Proof. vm_compute. repeat split. Qed.

(** ** The simulator *)

(** The product of two canonical floats is canonical. *)
Lemma f64_mul_valid (x y : float64) :
  f64_valid x = true -> f64_valid y = true ->
  f64_nonneg_finite x = true -> f64_nonneg_finite y = true ->
  ulps x * ulps y < 2 ^ 3120 ->
  f64_valid (f64_mul x y) = true.
Proof.
  intros Vx Vy Hx Hy HW.
  pose proof (f64_valid_on_grid _ Vx) as Gx. pose proof (f64_valid_on_grid _ Vy) as Gy.
  destruct x as [sx| | |sx mx ex], y as [sy| | |sy my ey]; try discriminate;
    try reflexivity.
  cbn in Hx, Hy. apply negb_true_iff in Hx, Hy. subst sx sy.
  unfold f64_mul. cbn [SFmul xorb]. cbn [ulps f64_on_grid] in *.
  assert (HWeq : Z.pos mx * 2 ^ (ex + 1074) * (Z.pos my * 2 ^ (ey + 1074))
                 = Z.pos (mx * my) * 2 ^ (ex + ey + 2148)).
  { rewrite Pos2Z.inj_mul. replace (ex + ey + 2148) with ((ex + 1074) + (ey + 1074)) by lia.
    rewrite (Z.pow_add_r 2 (ex + 1074) (ey + 1074)) by lia. ring. }
  rewrite HWeq in HW.
  destruct (binary_round_aux_ulps false (mx * my) (ex + ey) ltac:(lia) HW) as (_ & _ & Hv).
  apply Hv.
  unfold f64_valid in Vx, Vy. cbn [valid_binary] in Vx, Vy.
  unfold bounded, canonical_mantissa in Vx, Vy.
  rewrite fexp_eq, digits2_log2 in Vx, Vy.
  apply andb_true_iff in Vx as [Cx _]. apply andb_true_iff in Vy as [Cy _].
  apply Z.eqb_eq in Cx, Cy.
  pose proof (Z.log2_mul_below (Z.pos mx) (Z.pos my) eq_refl eq_refl) as Hlog.
  rewrite Pos2Z.inj_mul.
  pose proof (Z.log2_nonneg (Z.pos mx)). pose proof (Z.log2_nonneg (Z.pos my)).
  clear - Cx Cy Hlog H H0. lia.
Qed.

(** The largest [float64] below 1.0 is [1 - 2^-53]. *)
Definition ulps_below_one : Z := 2 ^ 1074 - 2 ^ 1021.

Lemma f64_below_one (u : float64) :
  f64_valid u = true -> f64_nonneg_finite u = true ->
  f64_lt u f64_one = true -> ulps u <= ulps_below_one.
Proof.
  intros Vu Nu Hlt.
  apply f64_lt_ulps in Hlt; [|assumption|reflexivity|assumption|reflexivity].
  rewrite ulps_one in Hlt.
  destruct u as [su| | |su m e]; try discriminate.
  cbn [ulps] in *.
  unfold f64_valid in Vu. cbn [valid_binary] in Vu. unfold bounded, canonical_mantissa in Vu.
  rewrite fexp_eq, digits2_log2 in Vu. apply andb_true_iff in Vu as [Cu _].
  apply Z.eqb_eq in Cu.
  assert (Hlog : Z.log2 (Z.pos m) < 53) by (clear - Cu; lia).
  assert (Hm : Z.pos m <= 2 ^ 53 - 1).
  { apply Z.lt_le_pred. apply Z.log2_lt_pow2; [reflexivity|exact Hlog]. }
  assert (He0 : 0 <= e + 1074) by (clear - Cu; lia).
  assert (He : e + 1074 <= 1021).
  { destruct (Z_le_gt_dec (e + 1074) 1021) as [Hle|Hgt]; [exact Hle|exfalso].
    assert (H52 : 52 <= Z.log2 (Z.pos m)) by (clear - Cu Hgt; lia).
    assert (Hm52 : 2 ^ 52 <= Z.pos m) by (apply Z.log2_le_pow2; [reflexivity|exact H52]).
    assert (Hp : 2 ^ 1022 <= 2 ^ (e + 1074)).
    { apply Z.pow_le_mono_r; [reflexivity|clear - Hgt; lia]. }
    assert (Hge : 2 ^ 52 * 2 ^ 1022 <= Z.pos m * 2 ^ (e + 1074)).
    { apply Z.mul_le_mono_nonneg; [discriminate|exact Hm52|discriminate|exact Hp]. }
    change (2 ^ 52 * 2 ^ 1022) with (2 ^ 1074) in Hge.
    apply Z.lt_nge in Hlt. contradiction. }
  change ulps_below_one with ((2 ^ 53 - 1) * 2 ^ 1021).
  apply Z.mul_le_mono_nonneg; [discriminate|exact Hm| |].
  - apply Z.pow_nonneg. discriminate.
  - apply Z.pow_le_mono_r; [reflexivity|exact He].
Qed.

(** A float of [0.0, 1.0) is zero or finite, and not negative. *)
Lemma unit_interval_nonneg_finite (u : float64) :
  f64_le f64_zero u = true -> f64_lt u f64_one = true -> f64_nonneg_finite u = true.
Proof.
  unfold f64_le, SFleb, f64_lt, SFltb, f64_zero, f64_one.
  destruct u as [su|[|]| |[|] m e]; cbn [SFcompare f64_nonneg_finite negb]; try done.
Qed.

Lemma mul_le_bound (a b A B : Z) :
  0 <= a <= A -> 0 <= b <= B -> 0 <= a * b <= A * B.
Proof.
  intros Ha Hb. split.
  - apply Z.mul_nonneg_nonneg; [apply Ha|apply Hb].
  - apply Z.mul_le_mono_nonneg; [apply Ha|apply Ha|apply Hb|apply Hb].
Qed.

(** What the product with a constant is at most. *)
Lemma f64_mul_le (x c : float64) (X : Z) :
  f64_valid x = true -> f64_valid c = true ->
  f64_nonneg_finite x = true -> f64_nonneg_finite c = true ->
  ulps x <= X -> X * ulps c < 2 ^ 3120 ->
  f64_valid (f64_mul x c) = true
  /\ f64_nonneg_finite (f64_mul x c) = true
  /\ 0 <= ulps (f64_mul x c) <= round_ulps (X * ulps c).
Proof.
  intros Vx Vc Nx Nc HX HW.
  pose proof (f64_valid_on_grid _ Vx) as Gx. pose proof (f64_valid_on_grid _ Vc) as Gc.
  pose proof (ulps_nonneg x Gx) as Hx0. pose proof (ulps_nonneg c Gc) as Hc0.
  destruct (mul_le_bound (ulps x) (ulps c) X (ulps c) (conj Hx0 HX) (conj Hc0 (Z.le_refl _)))
    as [Hp0 Hple].
  assert (HW' : ulps x * ulps c < 2 ^ 3120) by (eapply Z.le_lt_trans; eassumption).
  destruct (f64_mul_ulps x c Nx Nc Gx Gc HW') as (Nm & Gm & Um).
  split; [by apply f64_mul_valid|]. split; [exact Nm|]. rewrite Um. split.
  - by apply round_ulps_nonneg.
  - by apply round_ulps_mono.
Qed.

Lemma angle_constants :
  ulps_below_one * ulps f64_two < 2 ^ 3120
  /\ round_ulps (ulps_below_one * ulps f64_two) * ulps math_Pi < 2 ^ 3120
  /\ round_ulps (round_ulps (ulps_below_one * ulps f64_two) * ulps math_Pi)
     < ulps f64_two_pi
  /\ f64_valid f64_two_pi = true.
Proof. vm_compute. repeat split. Qed.

Lemma magnitude_constants :
  2 ^ 1074 * ulps maxDistancePerStep < 2 ^ 3120
  /\ round_ulps (2 ^ 1074 * ulps maxDistancePerStep) = ulps maxDistancePerStep.
Proof. vm_compute. repeat split. Qed.

Section SimulatorFacts.
Context `{JSON} `{Rand} `{Math}.

(** The angle is in [0, 2*Pi). *)
Lemma draw_angle_range (rng : rng_state) :
  f64_valid (fst (draw_angle rng)) = true
  /\ f64_le f64_zero (fst (draw_angle rng)) = true
  /\ f64_lt (fst (draw_angle rng)) f64_two_pi = true.
Proof.
  unfold draw_angle.
  pose proof (rng_Float64_valid rng) as Vu.
  destruct (rng_Float64_range rng) as [Hu0 Hu1].
  destruct (rng_Float64 rng) as [u rng']. cbn [fst] in *.
  pose proof (unit_interval_nonneg_finite u Hu0 Hu1) as Nu.
  pose proof (f64_below_one u Vu Nu Hu1) as Hu.
  destruct angle_constants as (W1 & W2 & Hc & Vc).
  destruct (f64_mul_le u f64_two ulps_below_one Vu eq_refl Nu eq_refl Hu W1)
    as (Vt & Nt & [_ Ht]).
  destruct (f64_mul_le (f64_mul u f64_two) math_Pi _ Vt eq_refl Nt eq_refl Ht W2)
    as (Va & Na & [Ha0 Ha]).
  split; [exact Va|]. split.
  - apply f64_le_ulps; [reflexivity|exact Va|reflexivity|exact Na|exact Ha0].
  - apply f64_lt_ulps; [exact Va|exact Vc|exact Na|reflexivity|].
    eapply Z.le_lt_trans; eassumption.
Qed.

(** The magnitude is in [0, maxDistancePerStep]. *)
Lemma draw_magnitude_range (rng : rng_state) :
  f64_valid (fst (draw_magnitude rng)) = true
  /\ f64_le f64_zero (fst (draw_magnitude rng)) = true
  /\ f64_le (fst (draw_magnitude rng)) maxDistancePerStep = true.
Proof.
  unfold draw_magnitude.
  pose proof (rng_Float64_valid rng) as Vu.
  destruct (rng_Float64_range rng) as [Hu0 Hu1].
  destruct (rng_Float64 rng) as [u rng']. cbn [fst] in *.
  pose proof (unit_interval_nonneg_finite u Hu0 Hu1) as Nu.
  assert (Hu : ulps u <= 2 ^ 1074).
  { apply Z.lt_le_incl. rewrite <- ulps_one.
    apply f64_lt_ulps; [exact Vu|reflexivity|exact Nu|reflexivity|exact Hu1]. }
  destruct magnitude_constants as (W1 & Hc).
  destruct (f64_mul_le u maxDistancePerStep (2 ^ 1074) Vu eq_refl Nu eq_refl Hu W1)
    as (Vm & Nm & [Hm0 Hm]).
  rewrite Hc in Hm.
  split; [exact Vm|]. split.
  - apply f64_le_ulps; [reflexivity|exact Vm|reflexivity|exact Nm|exact Hm0].
  - apply f64_le_ulps; [exact Vm|reflexivity|exact Nm|reflexivity|exact Hm].
Qed.

(** C8. A round of the generator that takes the default case calls
    [rng.Float64()] twice: the first number drawn, times 2, times [math.Pi],
    is the angle, and is in [0, 2*Pi); the second, times
    [maxDistancePerStep], is the magnitude, and is in
    [0, maxDistancePerStep]. The sample has
    [DeltaX = magnitude * cos(angle)], [DeltaY = magnitude * sin(angle)]
    and the time read at the start of the round, and is appended to the
    buffer, which is then kept, or written and reset once it holds
    [batchSize] samples; the generator goes on from the state of the
    random source after the two draws. *)
Theorem C8_generated_sample (userID : string) (now : Z) (s : Simulation) (w : World) :
  let u1 := fst (rng_Float64 (sim_rng s)) in
  let rng1 := snd (rng_Float64 (sim_rng s)) in
  let u2 := fst (rng_Float64 rng1) in
  let rng2 := snd (rng_Float64 rng1) in
  let angle := f64_mul (f64_mul u1 f64_two) math_Pi in
  let magnitude := f64_mul u2 maxDistancePerStep in
  let sample := {| DeltaX := f64_mul magnitude (math_Cos angle);
                   DeltaY := f64_mul magnitude (math_Sin angle);
                   Timestamp := now |} in
  let buf := dataBuffer s ++ [sample] in
  let r := SimulateUserMovement_round userID (case_default now) s w in
  generateMovement (sim_rng s) = (DeltaX sample, DeltaY sample, rng2)
  /\ f64_le f64_zero angle = true /\ f64_lt angle f64_two_pi = true
  /\ f64_le f64_zero magnitude = true /\ f64_le magnitude maxDistancePerStep = true
  /\ returned (fst r) = false
  /\ sim_rng (fst r) = rng2
  /\ (if Z.of_nat (length buf) >=? batchSize
      then dataBuffer (fst r) = []
           /\ snd r = flush "Error writing batch data for user " userID buf w
      else dataBuffer (fst r) = buf /\ snd r = w).
Proof.
  intros u1 rng1 u2 rng2 angle magnitude sample buf r.
  assert (Hda : draw_angle (sim_rng s) = (angle, rng1)).
  { unfold draw_angle, angle, u1, rng1. by destruct (rng_Float64 (sim_rng s)). }
  assert (Hdm : draw_magnitude rng1 = (magnitude, rng2)).
  { unfold draw_magnitude, magnitude, u2, rng2. by destruct (rng_Float64 rng1). }
  destruct (draw_angle_range (sim_rng s)) as (_ & Ha0 & Ha1).
  destruct (draw_magnitude_range rng1) as (_ & Hm0 & Hm1).
  rewrite Hda in Ha0, Ha1. rewrite Hdm in Hm0, Hm1. cbn [fst] in Ha0, Ha1, Hm0, Hm1.
  assert (Hgen : generateMovement (sim_rng s) = (DeltaX sample, DeltaY sample, rng2)).
  { unfold generateMovement. by rewrite Hda, Hdm. }
  split; [exact Hgen|]. repeat (split; [assumption|]).
  subst r. unfold SimulateUserMovement_round. rewrite Hgen.
  cbn [DeltaX DeltaY sample]. fold sample. fold buf.
  destruct (Z.of_nat (length buf) >=? batchSize); cbn [fst snd returned sim_rng dataBuffer];
    repeat split.
Qed.

End SimulatorFacts.

Lemma demo_draw_valid (s : nat) : f64_valid (fst (demo_draw s)) = true.
Proof. unfold demo_draw. by destruct (Nat.even s). Qed.

Lemma demo_draw_range (s : nat) :
  f64_le f64_zero (fst (demo_draw s)) = true /\ f64_lt (fst (demo_draw s)) f64_one = true.
Proof. unfold demo_draw. by destruct (Nat.even s). Qed.

Definition demo_Rand : Rand :=
  {| rng_state := nat;
     rng_Float64 := demo_draw;
     rng_Float64_valid := demo_draw_valid;
     rng_Float64_range := demo_draw_range |}.

(** With the stand-in source, which answers 0.0 and then 0.5: the angle is
    0.0 and the magnitude 0.5 * 0.004, so the sample moves by that much
    along the first axis, and the source is two draws further. *)
Lemma C8_witness :
  @generateMovement demo_Rand demo_Math 0%nat
  = (f64_mul (f64_mul f64_half maxDistancePerStep) f64_one,
     f64_mul (f64_mul f64_half maxDistancePerStep) f64_zero,
     2%nat)
  /\ f64_lt f64_zero (fst (fst (@generateMovement demo_Rand demo_Math 0%nat))) = true.
Proof.
  destruct (@C8_generated_sample demo_JSON demo_Rand demo_Math "u1" 0
              {| sim_rng := 0%nat : @rng_state demo_Rand; dataBuffer := [];
                 returned := false |} demo_World) as (Hgen & _).
  cbn [sim_rng] in Hgen. split; [exact Hgen|]. rewrite Hgen. reflexivity.
Defined.

(* ===================================================================== *)
(** * Part III: further properties of the code *)
(* ===================================================================== *)

(** ** The clamps of [ReadLocationData] *)

(** The indices of two fractions in order, each at most 1.0. *)
Lemma floorIndex_mono (arch : GOARCH) (a b : float64) (n : Z) :
  f64_valid a = true -> f64_valid b = true ->
  f64_nonneg_finite a = true -> f64_nonneg_finite b = true ->
  ulps a <= ulps b -> ulps b <= 2 ^ 1074 -> 0 <= n < 2 ^ 53 ->
  0 <= floorIndex arch a n <= floorIndex arch b n /\ floorIndex arch b n <= n.
Proof.
  intros Va Vb Na Nb Hab Hb Hn.
  pose proof (ulps_nonneg a (f64_valid_on_grid a Va)) as Ha0.
  assert (Ha1 : ulps a <= 2 ^ 1074) by (eapply Z.le_trans; eassumption).
  destruct (floorIndex_ulps arch a n Va Na Ha1 Hn) as [-> _].
  destruct (floorIndex_ulps arch b n Vb Nb Hb Hn) as [-> Hble].
  destruct (product_with_int_bound (ulps a) n (conj Ha0 Ha1) Hn) as [[HWa _] _].
  assert (Hn0 : 0 <= n * 2 ^ 1074).
  { apply Z.mul_nonneg_nonneg; [apply Hn|discriminate]. }
  split; [split|].
  - apply Z.div_pos; [|reflexivity]. by apply round_ulps_nonneg.
  - apply Z.div_le_mono; [reflexivity|]. apply round_ulps_mono; [exact HWa|].
    apply Z.mul_le_mono_nonneg_r; assumption.
  - apply Z.div_le_upper_bound; [reflexivity|].
    rewrite (Z.mul_comm (2 ^ 1074) n). exact Hble.
Qed.

(** When [maxPercent] is a number that is not negative, the clamped
    [maxPercent] is in [0, 1]. *)
Lemma clampPercents_max (a b : float64) :
  f64_valid b = true -> f64_le f64_zero b = true ->
  let b' := snd (clampPercents a b) in
  b' = (if f64_gt b f64_one then f64_one else b)
  /\ f64_valid b' = true /\ f64_nonneg_finite b' = true /\ ulps b' <= 2 ^ 1074.
Proof.
  intros Vb Hb0 b'. subst b'. unfold clampPercents. cbn [snd].
  split; [reflexivity|].
  destruct (f64_gt b f64_one) eqn:Hgt.
  - split; [reflexivity|]. split; [reflexivity|]. rewrite ulps_one. apply Z.le_refl.
  - split; [exact Vb|].
    assert (Nb : f64_nonneg_finite b = true).
    { revert Hb0 Hgt. unfold f64_le, SFleb, f64_gt, SFltb, f64_zero, f64_one.
      destruct b as [sb|[|]| |[|] mb eb];
        cbn [SFcompare f64_nonneg_finite negb]; try done. }
    split; [exact Nb|].
    apply Z.nlt_ge. intros Hlt. rewrite <- ulps_one in Hlt.
    apply (f64_lt_ulps f64_one b) in Hlt; [|reflexivity|exact Vb|reflexivity|exact Nb].
    unfold f64_gt, f64_lt in *. congruence.
Qed.

(** For every [minPercent], NaN and the infinities included, and every
    [maxPercent] that is a number and not negative (above 1.0 and +Inf
    included), the indices computed for [n] entries are in order and within
    [0, n]. *)
Lemma sliceIndices_in_bounds (arch : GOARCH) (minPercent maxPercent : float64)
    (n : Z) :
  f64_valid maxPercent = true ->
  f64_le f64_zero maxPercent = true ->
  0 <= n < 2 ^ 53 ->
  0 <= fst (sliceIndices arch minPercent maxPercent n)
       <= snd (sliceIndices arch minPercent maxPercent n)
  /\ snd (sliceIndices arch minPercent maxPercent n) <= n.
Proof.
  intros Vb Hb0 Hn.
  destruct (clampPercents_max minPercent maxPercent Vb Hb0) as (_ & Vb' & Nb' & Hb1).
  unfold sliceIndices.
  destruct (clampPercents minPercent maxPercent) as [a' b']. cbn [fst snd] in *.
  fold (floorIndex arch a' n). fold (floorIndex arch b' n).
  destruct (floorIndex_mono arch b' b' n Vb' Vb' Nb' Nb' (Z.le_refl _) Hb1 Hn)
    as [[He0 _] Hen].
  set (e0 := floorIndex arch b' n) in *.
  replace (e0 >? n) with false by (symmetry; rewrite Z.gtb_ltb; apply Z.ltb_ge; exact Hen).
  assert (Hs : 0 <= (if floorIndex arch a' n <? 0 then 0 else floorIndex arch a' n)).
  { destruct (Z.ltb_spec (floorIndex arch a' n) 0); [apply Z.le_refl|assumption]. }
  set (s1 := if floorIndex arch a' n <? 0 then 0 else floorIndex arch a' n) in *.
  destruct (Z.gtb_spec s1 e0) as [Hgt|Hle]; cbn [fst snd].
  - split; [split; [exact He0|apply Z.le_refl]|exact Hen].
  - split; [split; assumption|exact Hen].
Qed.

(** Order on fractions: what [0 <= a <= b] and [b <= c <= 1] give. *)
Lemma f64_le_zero_trans (a b : float64) :
  f64_le f64_zero a = true -> f64_le a b = true -> f64_le f64_zero b = true.
Proof.
  unfold f64_le, SFleb, f64_zero.
  destruct a as [sa|[|]| |[|] ma ea], b as [sb|[|]| |[|] mb eb];
    cbn [SFcompare]; try done.
Qed.

Lemma f64_le_trans (a b c : float64) :
  f64_valid a = true -> f64_valid b = true -> f64_valid c = true ->
  f64_le f64_zero a = true -> f64_le a b = true -> f64_le b c = true ->
  f64_le c f64_one = true ->
  f64_le a c = true /\ f64_le b f64_one = true.
Proof.
  intros Va Vb Vc H0 Hab Hbc H1.
  pose proof (f64_le_zero_trans a b H0 Hab) as H0b.
  destruct (fractions_nonneg_finite b c H0b Hbc H1) as [Nb Nc].
  assert (Na : f64_nonneg_finite a = true).
  { revert H0 Hab Nb. unfold f64_le, SFleb, f64_zero.
    destruct a as [sa|[|]| |[|] ma ea], b as [sb|[|]| |[|] mb eb];
      cbn [SFcompare f64_nonneg_finite negb]; try done. }
  apply f64_le_ulps in Hab, Hbc, H1; try assumption; try reflexivity.
  split; apply f64_le_ulps; try assumption; try reflexivity;
    eapply Z.le_trans; eassumption.
Qed.

(** Windows that share an index are the two parts of one window. *)
Lemma window_app {A : Type} (l : list A) (i j k : Z) :
  0 <= i <= j -> j <= k ->
  firstn (Z.to_nat (j - i)) (skipn (Z.to_nat i) l)
  ++ firstn (Z.to_nat (k - j)) (skipn (Z.to_nat j) l)
  = firstn (Z.to_nat (k - i)) (skipn (Z.to_nat i) l).
Proof.
  intros Hij Hjk.
  replace (Z.to_nat j) with (Z.to_nat i + Z.to_nat (j - i))%nat by lia.
  rewrite <- drop_drop, take_take_drop. f_equal. lia.
Qed.

(** ** Reading and writing *)

Lemma sort_Slice_nil `{Sort} {A : Type} (less : A -> A -> bool) :
  sort_Slice less [] = [].
Proof. apply Permutation_nil_r, sort_Slice_perm. Qed.

Section ReadWriteFacts.
Context `{JSON} `{Sort}.


(** What the [ReadLocationData] of database.go does. *)
Lemma ReadLocationData_all_open (userID : string) (w : World) (d : DB) :
  db w = Some d -> db_get_error d = None ->
  let rawMessages := default [] (db_topics d !! GetTopicForUser userID) in
  ReadLocationData_all userID w
  = (decoded rawMessages, None,
     emit (EvGet (GetTopicForUser userID) :: decode_log userID rawMessages) w).
Proof.
  intros Hd Hg rawMessages. unfold ReadLocationData_all, db_Get. rewrite Hd, Hg.
  fold rawMessages. destruct rawMessages as [|raw raws]; [reflexivity|].
  replace (Z.of_nat (length (raw :: raws)) =? 0) with false
    by (symmetry; apply Z.eqb_neq; simpl; lia).
  rewrite read_loop. cbn [app]. f_equal.
  unfold emit; simpl. by rewrite <- app_assoc.
Qed.

(** The fetch never panics when [maxPercent] is a number that is not
    negative. *)
Lemma ReadLocationData_returns (arch : GOARCH) (userID : string)
    (minPercent maxPercent : float64) (w : World) :
  f64_valid maxPercent = true -> f64_le f64_zero maxPercent = true ->
  (forall d, db w = Some d ->
     Z.of_nat (length (decoded (default [] (db_topics d !! GetTopicForUser userID))))
     < 2 ^ 53) ->
  exists result err evs,
    ReadLocationData arch userID minPercent maxPercent w
    = (Return (result, err), emit evs w).
Proof.
  intros Vb Hb Hn.
  destruct (db w) as [d|] eqn:Hd.
  - destruct (db_get_error d) as [e|] eqn:He.
    + unfold ReadLocationData, db_Get. rewrite Hd, He. eauto.
    + rewrite (ReadLocationData_open arch userID minPercent maxPercent w d Hd He).
      specialize (Hn d eq_refl).
      set (n := Z.of_nat (length (decoded (default [] (db_topics d !! GetTopicForUser userID)))))
        in *.
      destruct (n =? 0); [eauto|].
      destruct (sliceIndices_in_bounds arch minPercent maxPercent n Vb Hb)
        as [[Hs Hse] Hen]; [unfold n; lia|].
      destruct (slice_expr_in_bounds
                  (sort_Slice (fun a b => Before (Timestamp a) (Timestamp b))
                     (decoded (default [] (db_topics d !! GetTopicForUser userID))))
                  (fst (sliceIndices arch minPercent maxPercent n))
                  (snd (sliceIndices arch minPercent maxPercent n))) as [-> _];
        [split; assumption
        |rewrite (Permutation_length (sort_Slice_perm _ _ _)); exact Hen
        |eauto].
  - unfold ReadLocationData. rewrite Hd. exists [], (Some "database not initialized"), [].
    unfold emit. rewrite app_nil_r. by destruct w.
Qed.

(** The fetch reads of the world what [db.Get] answers for the key of the
    entity, and nothing else. *)
Lemma ReadLocationData_frame (arch : GOARCH) (userID : string)
    (minPercent maxPercent : float64) (w1 w2 : World) :
  (fun d => db_Get d (GetTopicForUser userID)) <$> db w1
  = (fun d => db_Get d (GetTopicForUser userID)) <$> db w2 ->
  exists res evs,
    ReadLocationData arch userID minPercent maxPercent w1 = (res, emit evs w1)
    /\ ReadLocationData arch userID minPercent maxPercent w2 = (res, emit evs w2).
Proof.
  intros Heq. unfold ReadLocationData.
  destruct (db w1) as [d1|], (db w2) as [d2|]; cbn in Heq; try discriminate.
  - injection Heq as ->.
    destruct (db_Get d2 (GetTopicForUser userID)) as [rawMessages|err].
    + destruct (Z.of_nat (length rawMessages) =? 0); [by eexists _, [_]|].
      destruct (fold_left _ _ _) as [l evs].
      destruct (_ =? 0).
      * exists (Return ([], None)), (EvGet (GetTopicForUser userID) :: evs).
        unfold emit; cbn. by rewrite <- !app_assoc.
      * destruct (sliceIndices _ _ _ _) as [s e].
        destruct (slice_expr _ s e); eexists _, (EvGet (GetTopicForUser userID) :: evs);
          unfold emit; cbn; by rewrite <- !app_assoc.
    + by eexists _, [_].
  - exists (Return ([], Some "database not initialized")), [].
    unfold emit. rewrite !app_nil_r. by destruct w1, w2.
Qed.

(** X1. Whatever [minPercent] is (negative, above [maxPercent], NaN, an
    infinity), the fetch does not panic as long as [maxPercent] is a number
    that is not negative (above 1.0 and +Inf included): the indices it
    computes satisfy [0 <= startIndex <= endIndex <= n] and it returns that
    segment of the sorted samples, without error. *)
Theorem X1_ReadLocationData_safe_for_nonnegative_max (arch : GOARCH)
    (userID : string) (minPercent maxPercent : float64) (w : World) (d : DB) :
  db w = Some d -> db_get_error d = None ->
  f64_valid maxPercent = true -> f64_le f64_zero maxPercent = true ->
  let samples := decoded (default [] (db_topics d !! GetTopicForUser userID)) in
  let n := Z.of_nat (length samples) in
  n < 2 ^ 53 ->
  let sorted := sort_Slice (fun x y => Before (Timestamp x) (Timestamp y)) samples in
  let startIndex := fst (sliceIndices arch minPercent maxPercent n) in
  let endIndex := snd (sliceIndices arch minPercent maxPercent n) in
  0 <= startIndex <= endIndex /\ endIndex <= n
  /\ fst (ReadLocationData arch userID minPercent maxPercent w)
     = Return (firstn (Z.to_nat (endIndex - startIndex))
                      (skipn (Z.to_nat startIndex) sorted), None).
Proof.
  intros Hd Hg Vb Hb samples n Hn sorted startIndex endIndex.
  assert (Hn' : 0 <= n < 2 ^ 53) by (unfold n; lia).
  destruct (sliceIndices_in_bounds arch minPercent maxPercent n Vb Hb Hn')
    as [[Hs Hse] Hen].
  fold startIndex endIndex in Hs, Hse, Hen.
  split; [split; assumption|]. split; [assumption|].
  rewrite (ReadLocationData_open arch userID minPercent maxPercent w d Hd Hg).
  fold samples n sorted startIndex endIndex. cbn [fst].
  destruct (Z.eqb_spec n 0) as [Hz|Hnz].
  - replace (endIndex - startIndex) with 0 by lia. reflexivity.
  - destruct (slice_expr_in_bounds sorted startIndex endIndex) as [-> _];
      [split; assumption| |reflexivity].
    unfold sorted. rewrite (Permutation_length (sort_Slice_perm _ _ _)). exact Hen.
Qed.

(** X2. Windows that share a fraction tile: for [0 <= a <= b <= c <= 1],
    fetching [a, b] and then [b, c] returns two sequences whose
    concatenation is what fetching [a, c] returns, so no sample is
    skipped or returned twice between adjacent windows. *)
Theorem X2_adjacent_windows_tile (arch : GOARCH) (userID : string)
    (a b c : float64) (w : World) (d : DB) :
  db w = Some d -> db_get_error d = None ->
  f64_valid a = true -> f64_valid b = true -> f64_valid c = true ->
  f64_le f64_zero a = true -> f64_le a b = true -> f64_le b c = true ->
  f64_le c f64_one = true ->
  Z.of_nat (length (decoded (default [] (db_topics d !! GetTopicForUser userID))))
  < 2 ^ 53 ->
  let w1 := snd (ReadLocationData arch userID a b w) in
  let w2 := snd (ReadLocationData arch userID b c w1) in
  exists r1 r2,
    fst (ReadLocationData arch userID a b w) = Return (r1, None)
    /\ fst (ReadLocationData arch userID b c w1) = Return (r2, None)
    /\ fst (ReadLocationData arch userID a c w2) = Return (r1 ++ r2, None).
Proof.
  intros Hd Hg Va Vb Vc Hlo Hab Hbc Hhi Hn w1 w2.
  pose proof (f64_le_zero_trans a b Hlo Hab) as Hlob.
  destruct (f64_le_trans a b c Va Vb Vc Hlo Hab Hbc Hhi) as [Hac Hb1].
  assert (Hd1 : db w1 = Some d).
  { unfold w1.
    by rewrite (ReadLocationData_window arch userID a b w d Hd Hg Va Vb Hlo Hab Hb1 Hn). }
  assert (Hd2 : db w2 = Some d).
  { unfold w2.
    by rewrite (ReadLocationData_window arch userID b c w1 d Hd1 Hg Vb Vc Hlob Hbc Hhi Hn). }
  rewrite (ReadLocationData_window arch userID a b w d Hd Hg Va Vb Hlo Hab Hb1 Hn).
  rewrite (ReadLocationData_window arch userID b c w1 d Hd1 Hg Vb Vc Hlob Hbc Hhi Hn).
  rewrite (ReadLocationData_window arch userID a c w2 d Hd2 Hg Va Vc Hlo Hac Hhi Hn).
  cbn [fst]. eexists _, _. split; [reflexivity|]. split; [reflexivity|].
  set (n := Z.of_nat (length (decoded (default [] (db_topics d !! GetTopicForUser userID)))))
    in *.
  assert (Hn' : 0 <= n < 2 ^ 53) by (unfold n; lia).
  destruct (floorIndex_bounds arch a b n Va Vb Hlo Hab Hb1 Hn') as (Hi & _ & _).
  destruct (floorIndex_bounds arch b c n Vb Vc Hlob Hbc Hhi Hn') as ([_ Hj] & _ & _).
  by rewrite window_app.
Qed.

(** X3. With the fractions 0.0 and 1.0 the fetch of the server returns what
    the [ReadLocationData] of database.go returns, sorted by timestamp:
    the same samples, the same error, the same store call and log lines;
    this in every state of the store, closed or failing included. *)
Theorem X3_full_window_is_the_sorted_history (arch : GOARCH) (userID : string)
    (w : World) :
  (forall d, db w = Some d ->
     Z.of_nat (length (decoded (default [] (db_topics d !! GetTopicForUser userID))))
     < 2 ^ 53) ->
  ReadLocationData arch userID f64_zero f64_one w
  = (Return (sort_Slice (fun x y => Before (Timestamp x) (Timestamp y))
                        (fst (fst (ReadLocationData_all userID w))),
             snd (fst (ReadLocationData_all userID w))),
     snd (ReadLocationData_all userID w)).
Proof.
  intros Hn. destruct (db w) as [d|] eqn:Hd.
  - destruct (db_get_error d) as [e|] eqn:He.
    + unfold ReadLocationData, ReadLocationData_all, db_Get. rewrite Hd, He.
      cbn [fst snd]. by rewrite sort_Slice_nil.
    + rewrite (ReadLocationData_all_open userID w d Hd He). cbn [fst snd].
      apply (ReadLocationData_full arch userID w d Hd He), Hn, eq_refl.
  - unfold ReadLocationData, ReadLocationData_all. rewrite Hd.
    cbn [fst snd]. by rewrite sort_Slice_nil.
Qed.


(** X5. A write for one entity does not show in the reads of another: for
    [u <> u'], with any fractions and in any state of the store, the fetch
    for [u'] after a write for [u] gives what it gave before, result or
    panic, and adds the same events to the trace. *)
Theorem X5_write_leaves_other_entities (arch : GOARCH) (u u' : string)
    (dataPoints : list LocationData) (minPercent maxPercent : float64) (w : World) :
  u <> u' ->
  let w' := snd (WriteLocationData u dataPoints w) in
  fst (ReadLocationData arch u' minPercent maxPercent w')
  = fst (ReadLocationData arch u' minPercent maxPercent w)
  /\ drop (length (trace w')) (trace (snd (ReadLocationData arch u' minPercent maxPercent w')))
     = drop (length (trace w)) (trace (snd (ReadLocationData arch u' minPercent maxPercent w))).
Proof.
  intros Hne w'.
  destruct (ReadLocationData_frame arch u' minPercent maxPercent w' w)
    as (res & evs & -> & ->).
  - destruct (db w) as [d|] eqn:Hd.
    + destruct (WriteLocationData_db u dataPoints w d Hd)
        as (d' & Hd' & _ & Hg' & _ & _ & Hother & _).
      fold w' in Hd'. rewrite Hd'. cbn. f_equal. unfold db_Get.
      rewrite Hg', Hother; [done|].
      intros Heq. apply Hne. symmetry. by apply GetTopicForUser_inj.
    + unfold w', WriteLocationData. rewrite Hd. cbn. by rewrite Hd.
  - cbn [fst snd]. unfold emit. cbn [trace]. by rewrite !drop_app_length.
Qed.

End ReadWriteFacts.

(** The store of the examples holds "b", a corrupt record and "a" for "u1":
    with [minPercent = NaN] and [maxPercent = +Inf] the fetch returns the
    two samples. *)
Lemma X1_witness :
  fst (@ReadLocationData demo_JSON demo_Sort amd64 "u1" S754_nan (S754_infinity false)
         demo_World)
  = Return (firstn 2 (@sort_Slice demo_Sort _
                        (fun x y => Before (Timestamp x) (Timestamp y))
                        (@decoded demo_JSON ["b"; ""; "a"])), None).
Proof.
  apply (@X1_ReadLocationData_safe_for_nonnegative_max demo_JSON demo_Sort amd64 "u1"
           S754_nan (S754_infinity false) demo_World demo_DB
           eq_refl eq_refl eq_refl eq_refl eq_refl).
Defined.

(** The windows [0, 0.5] and [0.5, 1] of the two samples of "u1" are the
    first and the second, and [0, 1] is both. *)
Lemma X2_witness :
  exists r1 r2,
    fst (@ReadLocationData demo_JSON demo_Sort amd64 "u1" f64_zero f64_half demo_World)
    = Return (r1, None)
    /\ fst (@ReadLocationData demo_JSON demo_Sort amd64 "u1" f64_zero f64_one demo_World)
       = Return (r1 ++ r2, None).
Proof.
  destruct (@X2_adjacent_windows_tile demo_JSON demo_Sort amd64 "u1"
              f64_zero f64_half f64_one demo_World demo_DB
              eq_refl eq_refl eq_refl eq_refl eq_refl eq_refl eq_refl eq_refl eq_refl
              eq_refl) as (r1 & r2 & H1 & _ & H3).
  exists r1, r2. split; [exact H1|exact H3].
Defined.

Lemma X3_witness :
  fst (@ReadLocationData demo_JSON demo_Sort amd64 "u1" f64_zero f64_one demo_World)
  = Return (@sort_Slice demo_Sort _ (fun x y => Before (Timestamp x) (Timestamp y))
              (fst (fst (@ReadLocationData_all demo_JSON "u1" demo_World))), None).
Proof.
  rewrite (@X3_full_window_is_the_sorted_history demo_JSON demo_Sort amd64 "u1" demo_World).
  - reflexivity.
  - intros d Hd. injection Hd as <-. reflexivity.
Defined.


Lemma X5_witness :
  let pts := [ {| DeltaX := f64_zero; DeltaY := f64_zero; Timestamp := 100 |} ] in
  fst (@ReadLocationData demo_JSON demo_Sort amd64 "u1" f64_zero f64_one
         (snd (@WriteLocationData demo_JSON "u2" pts demo_World)))
  = fst (@ReadLocationData demo_JSON demo_Sort amd64 "u1" f64_zero f64_one demo_World).
Proof.
  intros pts.
  apply (@X5_write_leaves_other_entities demo_JSON demo_Sort amd64 "u2" "u1" pts
           f64_zero f64_one demo_World).
  discriminate.
Defined.

(** ** The handler of GET /user/{user_id} *)

Lemma substring_all (s : string) : substring 0 (String.length s) s = s.
Proof. induction s as [|c s IH]; cbn; [done|by rewrite IH]. Qed.

Lemma strings_Split_none (s : string) (sep : ascii) :
  occurs sep s = false -> strings_Split s sep = [s].
Proof.
  induction s as [|a s IH]; cbn [occurs strings_Split]; [done|].
  intros Ho. apply orb_false_iff in Ho as [-> Ho]. by rewrite (IH Ho).
Qed.

(** The path /user/{id}, for an id without a slash, splits into "user" and
    the id. *)
Lemma path_of_GET_user (userID : string) :
  occurs "/" userID = false ->
  strings_Split (strings_TrimPrefix ("/user/" +:+ userID) "/") "/" = ["user"; userID].
Proof.
  intros Ho. unfold strings_TrimPrefix.
  change (String.prefix "/" ("/user/" +:+ userID)) with true. cbv iota.
  change ("/user/" +:+ userID) with (String "/" ("user/" +:+ userID)).
  cbn [String.length substring Nat.sub]. rewrite Nat.sub_0_r, substring_all.
  change ("user/" +:+ userID)
    with (String "u" (String "s" (String "e" (String "r" (String "/" userID))))).
  cbn [strings_Split]. rewrite (strings_Split_none userID "/" Ho). reflexivity.
Qed.

(** A number that is not below 0.0 is at least 0.0. *)
Lemma f64_not_lt_zero (v : float64) :
  v <> S754_nan -> f64_lt v f64_zero = false -> f64_le f64_zero v = true.
Proof.
  unfold f64_lt, f64_le, SFltb, SFleb, f64_zero.
  destruct v as [s|[|]| |[|] m e]; cbn [SFcompare]; done.
Qed.

(** With [maxPercent = NaN] the clamps leave NaN, and the end index is
    [int(NaN)]: on amd64 both indices become the smallest [int] and the
    slice expression panics; on arm64 both become 0. *)
Lemma sliceIndices_NaN_max (arch : GOARCH) (minPercent : float64) (n : Z) :
  0 <= n ->
  sliceIndices arch minPercent S754_nan n
  = match arch with
    | amd64 => (min_int64, min_int64)
    | arm64 => (0, 0)
    end.
Proof.
  intros Hn. unfold sliceIndices, clampPercents.
  change (f64_gt S754_nan f64_one) with false. cbv iota.
  set (a := if f64_lt minPercent f64_zero then f64_zero else minPercent).
  assert (Ha : f64_gt a S754_nan = false) by (unfold f64_gt, SFltb; by destruct a).
  rewrite Ha.
  change (f64_mul S754_nan (float64_of_int n)) with S754_nan.
  set (s := int_of_float64 arch (f64_mul a (float64_of_int n))). clearbody s.
  assert (Hs : 0 <= (if s <? 0 then 0 else s)).
  { destruct (Z.ltb_spec s 0); [apply Z.le_refl|assumption]. }
  set (s1 := if s <? 0 then 0 else s) in *. clearbody s1.
  destruct arch.
  - change (int_of_float64 amd64 S754_nan) with min_int64.
    assert (Hm : min_int64 < 0) by reflexivity.
    replace (min_int64 >? n) with false
      by (symmetry; rewrite Z.gtb_ltb; apply Z.ltb_ge; clear - Hn Hm; lia).
    replace (s1 >? min_int64) with true
      by (symmetry; rewrite Z.gtb_ltb; apply Z.ltb_lt; clear - Hs Hm; lia).
    reflexivity.
  - change (int_of_float64 arm64 S754_nan) with 0.
    replace (0 >? n) with false
      by (symmetry; rewrite Z.gtb_ltb; apply Z.ltb_ge; exact Hn).
    destruct (Z.gtb_spec s1 0) as [Hgt|Hle]; [reflexivity|].
    f_equal. clear - Hs Hle. lia.
Qed.

Section HandlerFacts.
Context `{JSON} `{Sort} `{HTTPLibs}.

(** What a query parameter that is not refused has been set to. *)
Lemma parsePercent_accepted (str : string) (dflt v : float64) :
  parsePercent str dflt = (v, false) ->
  (str = "" /\ v = dflt)
  \/ (str <> "" /\ strconv_ParseFloat str = (v, None)
      /\ f64_lt v f64_zero = false /\ f64_gt v f64_one = false).
Proof.
  unfold parsePercent. destruct (String.eqb_spec str "") as [->|Hne]; cbn [negb].
  - intros [= <-]. by left.
  - destruct (strconv_ParseFloat str) as [v' [e|]] eqn:Hp; cbn [orb]; [discriminate|].
    intros [= <- Hb]. right. apply orb_false_iff in Hb as [Hlt Hgt]. done.
Qed.

(** The handler on GET /user/{id}: the checks of the method and of the
    path pass. *)
Lemma handleGetUser_GET_user (arch : GOARCH) (userID min max : string) (w : World) :
  userID <> "" -> occurs "/" userID = false ->
  handleGetUser arch (GET_user userID min max) w
  = let '(minPercent, badMin) := parsePercent min f64_zero in
    if badMin then
      (Return (http_Error "Invalid 'min' parameter. Must be a float between 0.0 and 1.0."
                          StatusBadRequest), w)
    else
      let '(maxPercent, badMax) := parsePercent max f64_one in
      if badMax then
        (Return (http_Error "Invalid 'max' parameter. Must be a float between 0.0 and 1.0."
                            StatusBadRequest), w)
      else if f64_gt minPercent maxPercent then
        (Return (http_Error "'min' parameter cannot be greater than 'max' parameter."
                            StatusBadRequest), w)
      else
        let w := emit [EvLog ("GET /user/" +:+ userID +:+ " request with min="
                              +:+ fmt_2f minPercent +:+ ", max="
                              +:+ fmt_2f maxPercent)] w in
        match ReadLocationData arch userID minPercent maxPercent w with
        | (Panic msg, w) => (Panic msg, w)
        | (Return (_, Some err), w) =>
            (Return (http_Error ("Failed to retrieve data for user " +:+ userID
                                 +:+ ": " +:+ err)
                                StatusInternalServerError),
             emit [EvLog ("Error reading data for user " +:+ userID
                          +:+ ": " +:+ err)] w)
        | (Return (userData, None), w) =>
            if Z.of_nat (length userData) =? 0 then
              (Return (http_Error ("No data found for user " +:+ userID
                                   +:+ " within the specified range")
                                  StatusNotFound), w)
            else
              match json_Encode {| UserID := userID; Data := userData |} with
              | inl text => (Return {| status := StatusOK; body := text |}, w)
              | inr err =>
                  (Return {| status := StatusOK;
                             body := "Failed to encode response" +:+ String "010" "" |},
                   emit [EvLog ("Error encoding /user/" +:+ userID
                                +:+ " response: " +:+ err)] w)
              end
        end.
Proof.
  intros Hne Ho. unfold handleGetUser, GET_user. cbn [getMethod getPath getMin getMax].
  change (negb (String.eqb "GET" "GET")) with false. cbv iota.
  rewrite (path_of_GET_user userID Ho).
  change (negb (String.eqb "user" "user")) with false.
  replace (String.eqb userID "") with false by (symmetry; by apply String.eqb_neq).
  reflexivity.
Qed.

(** X6. A request that [handleGetUser] answers with 400 or 405 has not
    reached the store and has left no log line: the world is as it was. *)
Theorem X6_refused_requests_leave_the_world (arch : GOARCH) (r : GetRequest)
    (w w' : World) (res : Response) :
  handleGetUser arch r w = (Return res, w') ->
  status res = StatusBadRequest \/ status res = StatusMethodNotAllowed ->
  w' = w.
Proof.
  unfold handleGetUser.
  destruct (negb (String.eqb (getMethod r) "GET")); [by intros [= <- <-]|].
  destruct (strings_Split _ _) as [|p0 [|userID [|p2 ps]]]; try by intros [= <- <-].
  destruct (negb (String.eqb p0 "user") || String.eqb userID ""); [by intros [= <- <-]|].
  destruct (parsePercent (getMin r) f64_zero) as [minPercent [|]]; [by intros [= <- <-]|].
  destruct (parsePercent (getMax r) f64_one) as [maxPercent [|]]; [by intros [= <- <-]|].
  destruct (f64_gt minPercent maxPercent); [by intros [= <- <-]|].
  destruct (ReadLocationData _ _ _ _ _) as [[[userData [err|]]|msg] w1].
  - intros [= <- <-] [Hs|Hs]; discriminate Hs.
  - destruct (Z.of_nat (length userData) =? 0).
    + intros [= <- <-] [Hs|Hs]; discriminate Hs.
    + destruct (json_Encode _); intros [= <- <-] [Hs|Hs]; discriminate Hs.
  - discriminate.
Qed.

(** X7. [handleGetUser] answers every request whose "max" parameter does
    not parse to NaN: it does not panic, the status is one of 200, 400,
    404, 405 and 500, and the store is left as it was; whatever the
    method, the path and the "min" parameter are. *)
Theorem X7_handleGetUser_answers (arch : GOARCH) (r : GetRequest) (w : World) :
  fst (strconv_ParseFloat (getMax r)) <> S754_nan ->
  (forall d topic, db w = Some d ->
     Z.of_nat (length (decoded (default [] (db_topics d !! topic)))) < 2 ^ 53) ->
  exists res,
    fst (handleGetUser arch r w) = Return res
    /\ In (status res) [StatusOK; StatusBadRequest; StatusNotFound;
                        StatusMethodNotAllowed; StatusInternalServerError]
    /\ db (snd (handleGetUser arch r w)) = db w.
Proof.
  intros Hnan Hn. unfold handleGetUser.
  destruct (negb (String.eqb (getMethod r) "GET"));
    [eexists; split; [reflexivity|]; cbn; auto 10|].
  destruct (strings_Split _ _) as [|p0 [|userID [|p2 ps]]];
    try (eexists; split; [reflexivity|]; cbn; auto 10).
  destruct (negb (String.eqb p0 "user") || String.eqb userID "");
    [eexists; split; [reflexivity|]; cbn; auto 10|].
  destruct (parsePercent (getMin r) f64_zero) as [minPercent [|]];
    [eexists; split; [reflexivity|]; cbn; auto 10|].
  destruct (parsePercent (getMax r) f64_one) as [maxPercent [|]] eqn:Hmax;
    [eexists; split; [reflexivity|]; cbn; auto 10|].
  destruct (f64_gt minPercent maxPercent);
    [eexists; split; [reflexivity|]; cbn; auto 10|].
  assert (Hok : f64_valid maxPercent = true /\ f64_le f64_zero maxPercent = true).
  { destruct (parsePercent_accepted _ _ _ Hmax) as [[_ ->]|(_ & Hp & Hlt & _)].
    - by split.
    - pose proof (strconv_ParseFloat_valid (getMax r)) as Hv.
      rewrite Hp in Hv, Hnan. cbn [fst] in Hv, Hnan.
      split; [exact Hv|by apply f64_not_lt_zero]. }
  destruct Hok as [Vmax Hmax0].
  set (w0 := emit _ w).
  destruct (ReadLocationData_returns arch userID minPercent maxPercent w0 Vmax Hmax0)
    as (userData & err & evs & ->).
  { intros d Hd. by apply Hn. }
  destruct err as [err|]; [eexists; split; [reflexivity|]; cbn; auto 10|].
  destruct (Z.of_nat (length userData) =? 0);
    [eexists; split; [reflexivity|]; cbn; auto 10|].
  destruct (json_Encode _); eexists; (split; [reflexivity|]); cbn; auto 10.
Qed.

(** X8. A "max" parameter that parses to NaN passes the checks of the
    handler, since every comparison with NaN is false. When the entity has
    a sample stored, the request then makes [ReadLocationData] panic on
    amd64, and is answered 404 on arm64, whatever the "min" parameter
    is. *)
Theorem X8_NaN_max_passes_validation (arch : GOARCH) (userID min max : string)
    (w : World) (d : DB) :
  userID <> "" -> occurs "/" userID = false ->
  max <> "" -> strconv_ParseFloat max = (S754_nan, None) ->
  snd (parsePercent min f64_zero) = false ->
  db w = Some d -> db_get_error d = None ->
  (1 <= length (decoded (default [] (db_topics d !! GetTopicForUser userID))))%nat ->
  fst (handleGetUser arch (GET_user userID min max) w)
  = match arch with
    | amd64 => Panic "slice bounds out of range"
    | arm64 => Return (http_Error ("No data found for user " +:+ userID
                                   +:+ " within the specified range") StatusNotFound)
    end.
Proof.
  intros Hne Ho Hmax Hp Hmin Hd Hg Hn.
  rewrite (handleGetUser_GET_user arch userID min max w Hne Ho).
  destruct (parsePercent min f64_zero) as [minPercent badMin]. cbn [snd] in Hmin. subst badMin.
  assert (Hpm : parsePercent max f64_one = (S754_nan, false)).
  { unfold parsePercent. replace (String.eqb max "") with false
      by (symmetry; by apply String.eqb_neq). cbn [negb]. by rewrite Hp. }
  rewrite Hpm. cbv beta iota.
  replace (f64_gt minPercent S754_nan) with false
    by (unfold f64_gt, SFltb; by destruct minPercent).
  cbv beta iota zeta.
  set (w0 := emit _ w).
  rewrite (ReadLocationData_open arch userID minPercent S754_nan w0 d Hd Hg).
  set (n := Z.of_nat (length (decoded (default [] (db_topics d !! GetTopicForUser userID))))).
  assert (Hn0 : 0 <= n) by (unfold n; lia).
  replace (n =? 0) with false by (symmetry; apply Z.eqb_neq; unfold n; lia).
  rewrite (sliceIndices_NaN_max arch minPercent n Hn0).
  destruct arch; cbn [fst snd].
  - reflexivity.
  - destruct (slice_expr_in_bounds
                (sort_Slice (fun a b => Before (Timestamp a) (Timestamp b))
                   (decoded (default [] (db_topics d !! GetTopicForUser userID)))) 0 0)
      as [-> _]; [done|lia|reflexivity].
Qed.

(** X9. GET /user/{id} without parameters answers with the complete history
    of the entity, sorted by timestamp: 404 when no stored record decodes,
    and otherwise 200 with the encoding of the id and of all the decoded
    samples in sorted order (or the text of [http.Error] after the status
    200, if the encoding fails). *)
Theorem X9_GET_user_answers_the_sorted_history (arch : GOARCH) (userID : string)
    (w : World) (d : DB) :
  userID <> "" -> occurs "/" userID = false ->
  db w = Some d -> db_get_error d = None ->
  let samples := decoded (default [] (db_topics d !! GetTopicForUser userID)) in
  Z.of_nat (length samples) < 2 ^ 53 ->
  let sorted := sort_Slice (fun x y => Before (Timestamp x) (Timestamp y)) samples in
  fst (handleGetUser arch (GET_user userID "" "") w)
  = Return (if Z.of_nat (length samples) =? 0
            then http_Error ("No data found for user " +:+ userID
                             +:+ " within the specified range") StatusNotFound
            else match json_Encode {| UserID := userID; Data := sorted |} with
                 | inl text => {| status := StatusOK; body := text |}
                 | inr _ => {| status := StatusOK;
                               body := "Failed to encode response" +:+ String "010" "" |}
                 end).
Proof.
  intros Hne Ho Hd Hg samples Hn sorted.
  rewrite (handleGetUser_GET_user arch userID "" "" w Hne Ho).
  change (parsePercent "" f64_zero) with (f64_zero, false).
  change (parsePercent "" f64_one) with (f64_one, false).
  cbv beta iota. change (f64_gt f64_zero f64_one) with false. cbv beta iota zeta.
  set (w0 := emit _ w).
  rewrite (ReadLocationData_full arch userID w0 d Hd Hg Hn).
  cbv beta iota.
  rewrite (Permutation_length (sort_Slice_perm _ _ _)). fold samples sorted.
  destruct (Z.of_nat (length samples) =? 0); [reflexivity|].
  by destruct (json_Encode _).
Qed.

End HandlerFacts.

Lemma demo_ParseFloat_valid (s : string) : f64_valid (fst (demo_ParseFloat s)) = true.
Proof.
  unfold demo_ParseFloat.
  destruct (String.eqb s "NaN"); [done|].
  destruct (String.eqb s "x"); [done|].
  by destruct (String.eqb s "0.5").
Qed.

(** Stand-ins for the libraries of the handler; the response is encoded as
    the id of the entity followed by one character per sample. *)
Definition demo_HTTPLibs : HTTPLibs :=
  {| strconv_ParseFloat := demo_ParseFloat;
     strconv_ParseFloat_valid := demo_ParseFloat_valid;
     fmt_2f := fun _ => "0.00";
     json_Encode := fun resp =>
       inl (UserID resp +:+ ":" +:+
            string_of_list_ascii
              (map (fun data => ascii_of_nat (Z.to_nat (Timestamp data))) (Data resp))) |}.

(** A request with an unparsable "min" is refused with 400 and the world is
    as it was. *)
Lemma X6_witness :
  snd (@handleGetUser demo_JSON demo_Sort demo_HTTPLibs amd64 (GET_user "u1" "x" "")
         demo_World)
  = demo_World.
Proof.
  apply (@X6_refused_requests_leave_the_world demo_JSON demo_Sort demo_HTTPLibs amd64
           (GET_user "u1" "x" "") demo_World _
           (http_Error "Invalid 'min' parameter. Must be a float between 0.0 and 1.0."
                       StatusBadRequest)).
  - reflexivity.
  - left. reflexivity.
Defined.

Lemma demo_DB_small (d : DB) (topic : string) :
  db demo_World = Some d ->
  Z.of_nat (length (@decoded demo_JSON (default [] (db_topics d !! topic)))) < 2 ^ 53.
Proof.
  intros [= <-]. cbn [db_topics demo_DB].
  destruct (decide (topic = "user.u1.location")) as [->|Hne].
  - reflexivity.
  - rewrite lookup_singleton_ne by done. reflexivity.
Qed.

(** The request for the second half of the samples of "u1" is answered. *)
Lemma X7_witness :
  exists res,
    fst (@handleGetUser demo_JSON demo_Sort demo_HTTPLibs amd64 (GET_user "u1" "0.5" "")
           demo_World)
    = Return res
    /\ In (status res) [StatusOK; StatusBadRequest; StatusNotFound;
                        StatusMethodNotAllowed; StatusInternalServerError].
Proof.
  destruct (@X7_handleGetUser_answers demo_JSON demo_Sort demo_HTTPLibs amd64
              (GET_user "u1" "0.5" "") demo_World) as (res & Hres & Hin & _).
  - discriminate.
  - apply demo_DB_small.
  - exists res. split; assumption.
Defined.

Lemma X8_witness :
  fst (@handleGetUser demo_JSON demo_Sort demo_HTTPLibs amd64 (GET_user "u1" "" "NaN")
         demo_World)
  = Panic "slice bounds out of range".
Proof.
  apply (@X8_NaN_max_passes_validation demo_JSON demo_Sort demo_HTTPLibs amd64
           "u1" "" "NaN" demo_World demo_DB);
    try reflexivity; try discriminate.
  vm_compute. lia.
Defined.

Lemma X9_witness :
  fst (@handleGetUser demo_JSON demo_Sort demo_HTTPLibs amd64 (GET_user "u1" "" "")
         demo_World)
  = Return {| status := StatusOK; body := "u1:ab" |}.
Proof.
  rewrite (@X9_GET_user_answers_the_sorted_history demo_JSON demo_Sort demo_HTTPLibs amd64
             "u1" demo_World demo_DB); try reflexivity; discriminate.
Defined.

(** ** The manager: the contexts and the generators *)

Lemma ctx_Err_app (cs l : list Context) (c : nat) :
  (c < length cs)%nat ->
  (forall x p, cs !! c = Some x -> ctx_parent x = Some p -> (p < length cs)%nat) ->
  ctx_Err (cs ++ l) c = ctx_Err cs c.
Proof.
  intros Hc Hp. unfold ctx_Err. rewrite lookup_app_l by done.
  destruct (cs !! c) as [x|] eqn:Hx; [|done].
  destruct (ctx_own_err x); [done|].
  destruct (ctx_parent x) as [p|] eqn:Hpx; [|done].
  rewrite lookup_app_l; [done|]. by eapply Hp.
Qed.

Lemma ctx_le_refl (cs : list Context) : ctx_le cs cs.
Proof. split; [done|]. intros c x0 Hc. by exists x0. Qed.

Lemma ctx_le_trans (cs1 cs2 cs3 : list Context) :
  ctx_le cs1 cs2 -> ctx_le cs2 cs3 -> ctx_le cs1 cs3.
Proof.
  intros [Hl1 H1] [Hl2 H2]. split; [congruence|].
  intros c x0 Hc. destruct (H1 c x0 Hc) as (x1 & Hx1 & Hp1 & Hd1).
  destruct (H2 c x1 Hx1) as (x2 & Hx2 & Hp2 & Hd2).
  exists x2. split; [done|]. split; [congruence|].
  intros Hs. specialize (Hd1 Hs). subst x1. by apply Hd2.
Qed.

(** A context that is done stays done. *)
Lemma ctx_le_done (cs cs' : list Context) (c : nat) :
  ctx_le cs cs' -> is_Some (ctx_Err cs c) -> is_Some (ctx_Err cs' c).
Proof.
  intros [_ Hle]. unfold ctx_Err.
  destruct (cs !! c) as [x0|] eqn:Hx0; [|by intros [? ?]].
  destruct (Hle c x0 Hx0) as (x1 & -> & Hpar & Hdone).
  destruct (ctx_own_err x0) as [e|] eqn:Ho.
  - rewrite (Hdone (mk_is_Some _ _ eq_refl)), Ho. eauto.
  - destruct (ctx_own_err x1); [eauto|]. rewrite Hpar.
    destruct (ctx_parent x0) as [p|]; [|done].
    destruct (cs !! p) as [xp|] eqn:Hxp; [|by intros [? ?]].
    cbn. intros Hs. destruct (Hle p xp Hxp) as (xp' & -> & _ & Hd).
    cbn. by rewrite (Hd Hs).
Qed.

Lemma ctx_le_expire (c : nat) (cs : list Context) : ctx_le cs (expire_ctx c cs).
Proof.
  unfold expire_ctx. split; [by rewrite length_alter|].
  intros c0 x0 Hc0. destruct (decide (c = c0)) as [->|Hne].
  - rewrite list_lookup_alter_eq, Hc0. cbn. eexists. split; [done|]. cbn.
    split; [done|]. intros [e He]. destruct x0 as [p o]. cbn in *. by subst.
  - rewrite list_lookup_alter_ne by done. by exists x0.
Qed.

Lemma ctx_le_stop (m : Manager) :
  ctx_le (contexts m) (contexts (stopSimulationsInternal m)).
Proof.
  destruct (stop_contexts m) as [Hlen Hcs]. split; [done|].
  intros c x0 Hc. destruct (Hcs c x0 Hc) as (x1 & Hx1 & Hp & Hd & _).
  by exists x1.
Qed.

(** The expired context is done. *)
Lemma expire_ctx_done (c : nat) (cs : list Context) :
  (c < length cs)%nat ->
  exists x, expire_ctx c cs !! c = Some x /\ is_Some (ctx_own_err x).
Proof.
  intros Hc. destruct (lookup_lt_is_Some_2 _ _ Hc) as [x0 Hx0].
  unfold expire_ctx. rewrite list_lookup_alter_eq, Hx0. cbn.
  eexists. split; [done|]. cbn. eauto.
Qed.

(** ** The manager: what every reachable state satisfies *)

Lemma heap_wf_ctx_le (m m' : Manager) :
  heap_wf m -> ctx_le (contexts m) (contexts m') ->
  goroutines m' = goroutines m -> currentSimulationCtx m' = currentSimulationCtx m ->
  heap_wf m'.
Proof.
  intros (Hg & Hp & Hc) [Hlen Hle] Hgo Hcur. unfold heap_wf.
  rewrite Hgo, Hcur, Hlen. split; [done|]. split; [|done].
  apply Forall_lookup. intros c x1 Hx1.
  assert (Hlt : (c < length (contexts m))%nat).
  { rewrite <- Hlen. by eapply lookup_lt_Some. }
  destruct (lookup_lt_is_Some_2 _ _ Hlt) as [x0 Hx0].
  destruct (Hle c x0 Hx0) as (x1' & Hx1' & Hpar & _).
  assert (x1' = x1) by congruence. subst x1'. rewrite Hpar.
  by apply (Forall_lookup_1 _ _ _ _ Hp Hx0).
Qed.

Lemma has_session_ctx_le (m m' : Manager) :
  has_session m -> ctx_le (contexts m) (contexts m') ->
  goroutines m' = goroutines m -> has_session m'.
Proof.
  intros Hs [_ Hle] Hgo. unfold has_session, session_of in *. rewrite Hgo.
  eapply Forall_impl; [exact Hs|]. cbn. intros g [p Hp].
  destruct (contexts m !! g.1) as [x0|] eqn:Hx0; [|done]. cbn in Hp.
  destruct (Hle _ x0 Hx0) as (x1 & -> & Hpar & _). cbn. rewrite Hpar. eauto.
Qed.

Lemma heap_wf_stop (m : Manager) : heap_wf m -> heap_wf (stopSimulationsInternal m).
Proof.
  intros Hm. destruct (stop_keeps m) as (Hgo & Hcur & _).
  eapply heap_wf_ctx_le; [exact Hm|apply ctx_le_stop|done|done].
Qed.

Lemma has_session_stop (m : Manager) :
  has_session m -> has_session (stopSimulationsInternal m).
Proof.
  intros Hm. destruct (stop_keeps m) as (Hgo & _).
  eapply has_session_ctx_le; [exact Hm|apply ctx_le_stop|done].
Qed.

Lemma heap_wf_new_session (ids : list string) (m : Manager) :
  heap_wf m -> heap_wf (new_session ids m).
Proof.
  intros (Hg & Hp & _). unfold heap_wf, new_session. cbn.
  rewrite length_app. cbn. split; [|split; [|lia]].
  - eapply Forall_impl; [exact Hg|]. cbn. intros; lia.
  - apply Forall_app. split.
    + eapply Forall_impl; [exact Hp|]. cbn. intros x Hx.
      destruct (ctx_parent x); [lia|done].
    + by repeat constructor.
Qed.

Lemma has_session_app (m m' : Manager) (l : list Context) :
  heap_wf m -> has_session m ->
  contexts m' = contexts m ++ l -> goroutines m' = goroutines m ->
  has_session m'.
Proof.
  intros (Hg & _) Hs Hcs Hgo. unfold has_session, session_of in *. rewrite Hgo, Hcs.
  apply Forall_forall. intros g Hin.
  rewrite lookup_app_l by (by apply (proj1 (Forall_forall _ _) Hg)).
  by apply (proj1 (Forall_forall _ _) Hs).
Qed.

Lemma start_one_inv (m : Manager) (u : string) :
  heap_wf m -> has_session m -> is_Some (currentSimulationCtx m) ->
  heap_wf (start_one m u) /\ has_session (start_one m u)
  /\ currentSimulationCtx (start_one m u) = currentSimulationCtx m.
Proof.
  intros Hwf Hs [cur Hcur]. unfold start_one.
  destruct (String.eqb u ""); [done|].
  pose proof Hwf as (Hg & Hp & Hc). rewrite Hcur in Hc.
  split; [|split; [|done]].
  - unfold heap_wf. cbn. rewrite length_app. cbn. rewrite Hcur.
    split; [|split; [|lia]].
    + apply Forall_app. split.
      * eapply Forall_impl; [exact Hg|]. cbn. intros; lia.
      * repeat constructor. cbn. lia.
    + apply Forall_app. split.
      * eapply Forall_impl; [exact Hp|]. cbn. intros x Hx.
        destruct (ctx_parent x); [lia|done].
      * repeat constructor. cbn. lia.
  - unfold has_session, session_of in *. cbn. apply Forall_app. split.
    + apply Forall_forall. intros g Hin.
      rewrite lookup_app_l by (by apply (proj1 (Forall_forall _ _) Hg)).
      by apply (proj1 (Forall_forall _ _) Hs).
    + repeat constructor. cbn.
      rewrite lookup_app_r by done. rewrite Nat.sub_diag. cbn. rewrite Hcur. eauto.
Qed.

Lemma start_loop_inv (ids : list string) :
  forall m,
    heap_wf m -> has_session m -> is_Some (currentSimulationCtx m) ->
    heap_wf (fold_left start_one ids m) /\ has_session (fold_left start_one ids m).
Proof.
  induction ids as [|u ids IH]; intros m Hwf Hs Hcur; cbn [fold_left]; [done|].
  destruct (start_one_inv m u Hwf Hs Hcur) as (Hwf' & Hs' & Hcur').
  apply IH; [done|done|by rewrite Hcur'].
Qed.

Lemma handleStart_inv (r : Request) (m : Manager) :
  heap_wf m -> has_session m ->
  heap_wf (snd (handleStart r m)) /\ has_session (snd (handleStart r m)).
Proof.
  intros Hwf Hs. unfold handleStart.
  destruct (negb (String.eqb (Method r) "POST")); cbn [snd]; [done|].
  pose proof (heap_wf_stop m Hwf) as Hwf1. pose proof (has_session_stop m Hs) as Hs1.
  destruct (Body r) as [req|err]; cbn [snd]; [|done].
  destruct (Z.of_nat (length (UserIDs req)) =? 0); cbn [snd]; [done|].
  set (m1 := log_Println _ (stopSimulationsInternal m)).
  assert (Hwf2 : heap_wf (new_session (UserIDs req) m1)) by (by apply heap_wf_new_session).
  assert (Hs2 : has_session (new_session (UserIDs req) m1)).
  { eapply (has_session_app m1 _ [_]); [exact Hwf1|exact Hs1|done|done]. }
  destruct (start_loop_inv (UserIDs req) _ Hwf2 Hs2) as [Hwf3 Hs3]; [cbn; eauto|].
  done.
Qed.

Lemma deadline_ctx_le (c : nat) (m : Manager) :
  ctx_le (contexts m) (contexts (deadline c m))
  /\ goroutines (deadline c m) = goroutines m
  /\ currentSimulationCtx (deadline c m) = currentSimulationCtx m.
Proof.
  unfold deadline.
  set (m1 := {| activeSimulations := activeSimulations m;
                currentSimulationCtx := currentSimulationCtx m;
                currentUsers := currentUsers m;
                contexts := expire_ctx c (contexts m);
                goroutines := goroutines m;
                watchers := watchers m;
                mlog := mlog m |}).
  assert (H1 : ctx_le (contexts m) (contexts m1)) by apply ctx_le_expire.
  assert (Hstop : forall s, ctx_le (contexts m)
                              (contexts (stopSimulationsInternal (log_Println s m1)))
                            /\ goroutines (stopSimulationsInternal (log_Println s m1))
                               = goroutines m
                            /\ currentSimulationCtx (stopSimulationsInternal (log_Println s m1))
                               = currentSimulationCtx m).
  { intros s. destruct (stop_keeps (log_Println s m1)) as (Hgo & Hcur & _).
    split; [|by rewrite Hgo, Hcur].
    eapply ctx_le_trans; [exact H1|]. apply (ctx_le_stop (log_Println s m1)). }
  destruct (bool_decide _); [|done].
  cbn [currentSimulationCtx m1].
  destruct (currentSimulationCtx m) as [cur|]; [|done].
  destruct (ctx_Err _ cur) as [[|]|]; try done; apply Hstop.
Qed.

Lemma reachable_inv (m : Manager) : reachable m -> heap_wf m /\ has_session m.
Proof.
  induction 1 as [|r m _ [IH1 IH2]|r m _ [IH1 IH2]|c m _ [IH1 IH2]].
  - unfold heap_wf, has_session. cbn. by repeat constructor.
  - by apply handleStart_inv.
  - unfold handleStop. destruct (negb _); cbn [snd]; [done|].
    split; [by apply heap_wf_stop|by apply has_session_stop].
  - destruct (deadline_ctx_le c m) as (Hle & Hgo & Hcur).
    split; [by eapply heap_wf_ctx_le|by eapply has_session_ctx_le].
Qed.

Lemma steps_reachable (m m' : Manager) : reachable m -> steps m m' -> reachable m'.
Proof.
  intros Hm. induction 1 as [|r m m' _ IH|r m m' _ IH|c m m' _ IH]; [done|..].
  - apply reachable_handleStart, IH, Hm.
  - apply reachable_handleStop, IH, Hm.
  - apply reachable_deadline, IH, Hm.
Qed.

(** What [handleStart] makes of the heap and of the generators: contexts
    and generators are added, after the old contexts have been taken to
    where a stop takes them. *)
Lemma handleStart_shape (r : Request) (m : Manager) :
  exists cs l gs,
    ctx_le (contexts m) cs
    /\ contexts (snd (handleStart r m)) = cs ++ l
    /\ goroutines (snd (handleStart r m)) = goroutines m ++ gs.
Proof.
  unfold handleStart.
  destruct (negb (String.eqb (Method r) "POST")); cbn [snd].
  { exists (contexts m), [], []. rewrite !app_nil_r. split; [apply ctx_le_refl|done]. }
  destruct (stop_keeps m) as (Hgo & _).
  assert (Hstop : exists cs l gs,
             ctx_le (contexts m) cs
             /\ contexts (stopSimulationsInternal m) = cs ++ l
             /\ goroutines (stopSimulationsInternal m) = goroutines m ++ gs).
  { exists (contexts (stopSimulationsInternal m)), [], []. rewrite !app_nil_r.
    split; [apply ctx_le_stop|done]. }
  destruct (Body r) as [req|err]; cbn [snd]; [|exact Hstop].
  destruct (Z.of_nat (length (UserIDs req)) =? 0); cbn [snd]; [exact Hstop|].
  match goal with |- context [fold_left start_one ?ids ?m0] =>
    destruct (start_loop ids m0) as (gs & Hgs & _ & _ & Hcs & _) end.
  eexists (contexts (stopSimulationsInternal m)), _, gs.
  split; [apply ctx_le_stop|]. unfold go_watcher. cbn [contexts goroutines].
  rewrite Hcs, Hgs. cbn [new_session log_Println contexts goroutines].
  rewrite <- app_assoc, Hgo. done.
Qed.

(** A generator that is not live is never live again. *)
Lemma dead_ctx_le_app (m : Manager) (cs l : list Context) (g : nat * string) :
  heap_wf m -> g ∈ goroutines m -> ctx_le (contexts m) cs ->
  is_Some (ctx_Err (contexts m) (fst g)) -> is_Some (ctx_Err (cs ++ l) (fst g)).
Proof.
  intros (Hg & Hp & _) Hin Hle Hdead.
  pose proof (proj1 (Forall_forall _ _) Hg g Hin) as Hlt. cbn in Hlt.
  destruct Hle as [Hlen Hle'].
  rewrite ctx_Err_app.
  - apply (ctx_le_done (contexts m)); [by split|done].
  - by rewrite Hlen.
  - intros x1 p Hx1 Hpar. rewrite Hlen.
    destruct (lookup_lt_is_Some_2 _ _ Hlt) as [x0 Hx0].
    destruct (Hle' _ x0 Hx0) as (x1' & Hx1' & Hpar' & _).
    assert (x1' = x1) by congruence. subst x1'.
    pose proof (Forall_lookup_1 _ _ _ _ Hp Hx0) as Hp0. cbn in Hp0.
    rewrite <- Hpar', Hpar in Hp0. exact Hp0.
Qed.

Lemma live_false_iff (m : Manager) (g : nat * string) :
  live m g = false <-> is_Some (ctx_Err (contexts m) (fst g)).
Proof.
  unfold live. destruct (ctx_Err _ _); split; intros Hx; try done; eauto.
Qed.

Lemma dead_stays_dead (m m' : Manager) (g : nat * string) :
  reachable m -> steps m m' ->
  g ∈ goroutines m -> live m g = false ->
  g ∈ goroutines m' /\ live m' g = false.
Proof.
  intros Hm Hsteps Hin Hdead.
  induction Hsteps as [|r m m' Hs IH|r m m' Hs IH|c m m' Hs IH]; [done|..];
    destruct (IH Hm Hin Hdead) as [Hin' Hdead'];
    destruct (reachable_inv m' (steps_reachable m m' Hm Hs)) as [Hwf _];
    apply live_false_iff in Hdead'; rewrite live_false_iff.
  - destruct (handleStart_shape r m') as (cs & l & gs & Hle & -> & ->).
    split; [apply elem_of_app; by left|]. by eapply dead_ctx_le_app.
  - unfold handleStop. destruct (negb _); cbn [snd]; [done|].
    destruct (stop_keeps m') as (-> & _). split; [done|].
    rewrite <- (app_nil_r (contexts _)).
    eapply dead_ctx_le_app; [done|done|apply ctx_le_stop|done].
  - destruct (deadline_ctx_le c m') as (Hle & -> & _). split; [done|].
    rewrite <- (app_nil_r (contexts _)). by eapply dead_ctx_le_app.
Qed.

(** After the deadline of a session, the contexts are where the expiry of
    the session context has taken them, or further. *)
Lemma deadline_expired (c : nat) (m : Manager) :
  ctx_le (expire_ctx c (contexts m)) (contexts (deadline c m)).
Proof.
  unfold deadline.
  destruct (bool_decide _); [|apply ctx_le_refl].
  cbn [currentSimulationCtx contexts].
  destruct (currentSimulationCtx m) as [cur|]; [|apply ctx_le_refl].
  destruct (ctx_Err _ cur) as [[|]|]; try apply ctx_le_refl.
  match goal with |- context [stopSimulationsInternal ?m0] =>
    apply (ctx_le_stop m0) end.
Qed.

(** X10. A Start request that is refused with 400 (a body that does not
    decode, or an empty id list) has nevertheless stopped what was
    running: the table is empty, every context whose cancel function the
    table held is done, and no generator has been started. *)
Theorem X10_refused_Start_has_stopped_everything (r : Request) (m : Manager) :
  reachable m -> Method r = "POST" ->
  status (fst (handleStart r m)) = StatusBadRequest ->
  let m' := snd (handleStart r m) in
  activeSimulations m' = ∅
  /\ goroutines m' = goroutines m
  /\ (forall u control, activeSimulations m !! u = Some control ->
        is_Some (ctx_Err (contexts m') (cancelFunc control))).
Proof.
  intros Hreach Hpost Hst m'.
  assert (Hm' : m' = stopSimulationsInternal m).
  { subst m'. revert Hst. unfold handleStart. rewrite Hpost.
    change (negb (String.eqb "POST" "POST")) with false. cbv iota.
    destruct (Body r) as [req|err]; [|done].
    destruct (Z.of_nat (length (UserIDs req)) =? 0); [done|].
    cbn [fst status]. discriminate. }
  rewrite Hm'. split; [apply stop_empties_table|]. split; [apply stop_keeps|].
  intros u control Hu.
  pose proof (reachable_allocated m Hreach) as Hal.
  pose proof (map_Forall_lookup_1 _ _ _ _ Hal Hu) as Hlt. cbn in Hlt.
  destruct (lookup_lt_is_Some_2 _ _ Hlt) as [x0 Hx0].
  destruct (stop_contexts m) as [_ Hcs].
  destruct (Hcs _ _ Hx0) as (x1 & Hx1 & _ & _ & Hsig & _).
  destruct Hsig as [e He]; [eauto|].
  unfold ctx_Err. rewrite Hx1, He. eauto.
Qed.

(** X11. Every generator ever started runs under a child of a session
    context, and once the deadline of that session has passed the
    generator is not live, in that state and in every state the manager
    goes to from there: a generator that a Stop has missed still ends with
    its session. *)
Theorem X11_generators_end_with_their_session (m : Manager) (g : nat * string) :
  reachable m -> g ∈ goroutines m ->
  exists p,
    session_of m g = Some p
    /\ forall m', steps (deadline p m) m' ->
         g ∈ goroutines m' /\ live m' g = false.
Proof.
  intros Hreach Hin.
  destruct (reachable_inv m Hreach) as [Hwf Hs].
  pose proof Hwf as (Hg & Hp & _).
  destruct (proj1 (Forall_forall _ _) Hs g Hin) as [p Hsp].
  exists p. split; [exact Hsp|]. intros m' Hsteps.
  destruct (deadline_ctx_le p m) as (_ & Hgo & _).
  apply (dead_stays_dead (deadline p m)); [by constructor|done|by rewrite Hgo|].
  apply live_false_iff. apply (ctx_le_done _ _ _ (deadline_expired p m)).
  unfold session_of in Hsp.
  destruct (contexts m !! g.1) as [x0|] eqn:Hx0; [|done]. cbn in Hsp.
  pose proof (Forall_lookup_1 _ _ _ _ Hp Hx0) as Hlt. cbn in Hlt. rewrite Hsp in Hlt.
  destruct (ctx_le_expire p (contexts m)) as [_ Hle].
  destruct (Hle _ x0 Hx0) as (x1 & Hx1 & Hpar & _).
  destruct (expire_ctx_done p (contexts m) Hlt) as (xp & Hxp & [e He]).
  unfold ctx_Err. rewrite Hx1. destruct (ctx_own_err x1); [eauto|].
  rewrite Hpar, Hsp, Hxp. cbn. rewrite He. eauto.
Qed.

(** ** The manager without duplicate ids *)











(** A Start request with a body that does not decode, while "a" and "b" are
    running: it is answered 400 and both have been stopped. *)
Lemma X10_witness :
  let m := snd (handleStart (POST ["a"; "b"]) initial) in
  let r := {| Method := "POST"; Body := inr "unexpected end of JSON input" |} in
  status (fst (handleStart r m)) = StatusBadRequest
  /\ activeSimulations (snd (handleStart r m)) = ∅.
Proof.
  intros m r. split; [reflexivity|].
  apply (X10_refused_Start_has_stopped_everything r m).
  - apply reachable_handleStart, reachable_initial.
  - reflexivity.
  - reflexivity.
Defined.

(** The generator that Start with the ids "a", "a" and the Stop that follows
    leave live ends with the deadline of its session. *)
Lemma X11_witness :
  let m := snd (handleStop (POST []) (snd (handleStart (POST ["a"; "a"]) initial))) in
  live m (1%nat, "a") = true
  /\ exists p, session_of m (1%nat, "a") = Some p
               /\ live (deadline p m) (1%nat, "a") = false.
Proof.
  intros m. split; [reflexivity|].
  destruct (X11_generators_end_with_their_session m (1%nat, "a")) as (p & Hp & Hdead).
  - apply reachable_handleStop, reachable_handleStart, reachable_initial.
  - vm_compute. constructor.
  - exists p. split; [exact Hp|]. apply Hdead. constructor.
Defined.



(** ** The loop of the simulator *)

Section SimulatorRun.
Context `{JSON} `{Rand} `{Math}.

Lemma accepted_app (d : DB) (l1 l2 : list LocationData) :
  accepted d (l1 ++ l2) = accepted d l1 ++ accepted d l2.
Proof. apply omap_app. Qed.

Lemma accepted_put_error (d d' : DB) (l : list LocationData) :
  db_put_error d' = db_put_error d -> accepted d' l = accepted d l.
Proof. intros Hp. unfold accepted. by rewrite Hp. Qed.

Lemma grown_refl (userID : string) (d : DB) : grown userID d d [].
Proof. unfold grown. by rewrite app_nil_r. Qed.

Lemma grown_trans (userID : string) (d1 d2 d3 : DB) (l1 l2 : list string) :
  grown userID d1 d2 l1 -> grown userID d2 d3 l2 -> grown userID d1 d3 (l1 ++ l2).
Proof.
  intros (Hg1 & Hp1 & Hc1 & Ho1 & Hs1) (Hg2 & Hp2 & Hc2 & Ho2 & Hs2).
  unfold grown. rewrite Hg2, Hp2, Hc2, Hs2, Hs1, app_assoc.
  repeat split; try done. intros topic Hne. by rewrite Ho2, Ho1.
Qed.

(** A flush that the store commits. *)
Lemma flush_open (what userID : string) (buf : list LocationData) (w : World) (d : DB) :
  db w = Some d -> db_commit_error d = None ->
  exists d', db (flush what userID buf w) = Some d'
             /\ grown userID d d' (accepted d buf).
Proof.
  intros Hd Hc. unfold flush.
  destruct (WriteLocationData_db userID buf w d Hd)
    as (d' & Hd' & Herr & Hg & Hp & Hc' & Ho & Hs).
  rewrite Hc in Herr, Hs.
  destruct (WriteLocationData userID buf w) as [[err|] w']; cbn in Herr, Hd'; [done|].
  exists d'. split; [done|]. by repeat split.
Qed.

(** The run up to the round in which the context is found cancelled. *)
Lemma run_until_Done (userID : string) (pre : list select_case) :
  forall (post : list select_case) (s : Simulation) (w : World) (d : DB),
    db w = Some d -> db_commit_error d = None -> returned s = false ->
    Forall (fun c => c <> case_Done) pre ->
    let r := SimulateUserMovement_run userID (pre ++ case_Done :: post) s w in
    returned (fst r) = true
    /\ exists d', db (snd r) = Some d'
         /\ grown userID d d' (accepted d (dataBuffer s ++ generated (sim_rng s) pre)).
Proof.
  induction pre as [|c pre IH]; intros post s w d Hd Hc Hr Hpre r; subst r.
  - cbn [app SimulateUserMovement_run generated]. rewrite Hr, app_nil_r.
    cbn [SimulateUserMovement_round].
    assert (Hend : forall s' w',
               returned s' = true ->
               SimulateUserMovement_run userID post s' w' = (s', w')).
    { intros s' w' Hs'. destruct post; cbn; [done|by rewrite Hs']. }
    rewrite Hend by done. cbn [fst snd returned].
    split; [done|].
    destruct (Z.gtb_spec (Z.of_nat (length (dataBuffer s))) 0) as [Hpos|Hzero].
    + by apply flush_open.
    + exists d. split; [done|].
      destruct (dataBuffer s); [apply grown_refl|cbn in Hzero; lia].
  - apply Forall_cons in Hpre as [Hcne Hpre].
    cbn [app SimulateUserMovement_run]. rewrite Hr.
    destruct c as [| |now]; [done| |].
    + cbn [SimulateUserMovement_round generated].
      destruct (Z.gtb_spec (Z.of_nat (length (dataBuffer s))) 0) as [Hpos|Hzero].
      * destruct (flush_open "Error flushing data buffer for user " userID
                    (dataBuffer s) w d Hd Hc) as (d1 & Hd1 & Hg1).
        pose proof Hg1 as (_ & Hp1 & Hc1 & _). rewrite Hc in Hc1.
        destruct (IH post {| sim_rng := sim_rng s; dataBuffer := []; returned := false |}
                    _ d1 Hd1 Hc1 eq_refl Hpre) as (Hret & d' & Hd' & Hg').
        split; [exact Hret|]. exists d'. split; [exact Hd'|].
        cbn [dataBuffer sim_rng app] in Hg'.
        rewrite (accepted_put_error d d1 _ Hp1) in Hg'.
        rewrite accepted_app. by eapply grown_trans.
      * destruct (IH post s w d Hd Hc Hr Hpre) as (Hret & d' & Hd' & Hg').
        split; [exact Hret|]. by exists d'.
    + cbn [SimulateUserMovement_round generated].
      destruct (generateMovement (sim_rng s)) as [[dx dy] rng'].
      set (sample := {| DeltaX := dx; DeltaY := dy; Timestamp := now |}).
      destruct (Z.of_nat (length (dataBuffer s ++ [sample])) >=? batchSize).
      * destruct (flush_open "Error writing batch data for user " userID
                    (dataBuffer s ++ [sample]) w d Hd Hc) as (d1 & Hd1 & Hg1).
        pose proof Hg1 as (_ & Hp1 & Hc1 & _). rewrite Hc in Hc1.
        destruct (IH post {| sim_rng := rng'; dataBuffer := []; returned := false |}
                    _ d1 Hd1 Hc1 eq_refl Hpre) as (Hret & d' & Hd' & Hg').
        split; [exact Hret|]. exists d'. split; [exact Hd'|].
        cbn [dataBuffer sim_rng app] in Hg'.
        rewrite (accepted_put_error d d1 _ Hp1) in Hg'.
        replace (dataBuffer s ++ sample :: generated rng' pre)
          with ((dataBuffer s ++ [sample]) ++ generated rng' pre)
          by (by rewrite <- app_assoc).
        rewrite accepted_app. by eapply grown_trans.
      * destruct (IH post {| sim_rng := rng'; dataBuffer := dataBuffer s ++ [sample];
                             returned := false |}
                    w d Hd Hc eq_refl Hpre) as (Hret & d' & Hd' & Hg').
        split; [exact Hret|]. exists d'. split; [exact Hd'|].
        cbn [dataBuffer sim_rng] in Hg'. by rewrite <- app_assoc in Hg'.
Qed.

(** X14. When the store commits every batch, no sample is lost and none is
    written twice: after a run of the generator that ends in the round
    that finds the context cancelled, the stream of the entity is what it
    was, followed by the accepted payloads of the samples that were in the
    buffer and of those generated in the rounds of the run, in the order
    of their generation; the other streams are as they were, and the
    generator has returned. *)
Theorem X14_every_sample_reaches_the_store (userID : string)
    (pre post : list select_case) (s : Simulation) (w : World) (d : DB) :
  db w = Some d -> db_commit_error d = None -> returned s = false ->
  Forall (fun c => c <> case_Done) pre ->
  let r := SimulateUserMovement_run userID (pre ++ case_Done :: post) s w in
  returned (fst r) = true
  /\ exists d',
       db (snd r) = Some d'
       /\ default [] (db_topics d' !! GetTopicForUser userID)
          = default [] (db_topics d !! GetTopicForUser userID)
            ++ accepted d (dataBuffer s ++ generated (sim_rng s) pre)
       /\ forall topic, topic <> GetTopicForUser userID ->
                        db_topics d' !! topic = db_topics d !! topic.
Proof.
  intros Hd Hc Hr Hpre r.
  destruct (run_until_Done userID pre post s w d Hd Hc Hr Hpre)
    as (Hret & d' & Hd' & (_ & _ & _ & Ho & Hs)).
  split; [exact Hret|]. exists d'. by repeat split.
Qed.

(** X15. The buffer of a generator stays below [batchSize]: if it holds
    fewer than [batchSize] samples before a run, it does after it, whatever
    the rounds of the run are and whatever the store does. *)
Theorem X15_buffer_stays_below_batchSize (userID : string) (cases : list select_case) :
  forall (s : Simulation) (w : World),
    Z.of_nat (length (dataBuffer s)) < batchSize ->
    Z.of_nat (length (dataBuffer (fst (SimulateUserMovement_run userID cases s w))))
    < batchSize.
Proof.
  induction cases as [|c cases IH]; intros s w Hs; cbn [SimulateUserMovement_run];
    [done|].
  destruct (returned s); [done|].
  destruct (SimulateUserMovement_round userID c s w) as [s' w'] eqn:Hround.
  apply IH. revert Hround. unfold SimulateUserMovement_round.
  destruct c as [| |now].
  - by intros [= <- <-].
  - destruct (_ >? 0); by intros [= <- <-].
  - destruct (generateMovement (sim_rng s)) as [[dx dy] rng'].
    destruct (Z.geb_spec (Z.of_nat (length
                (dataBuffer s ++ [{| DeltaX := dx; DeltaY := dy; Timestamp := now |}])))
                batchSize) as [Hge|Hlt];
      by intros [= <- <-].
Qed.

End SimulatorRun.

(** Three rounds that generate a sample, a tick of the flush timer between
    them, and the cancellation: the three samples are in the store, in
    their order, after the two that were there. *)
Lemma X14_witness :
  let s := {| sim_rng := 0%nat : @rng_state demo_Rand; dataBuffer := [];
              returned := false |} in
  let r := @SimulateUserMovement_run demo_JSON demo_Rand demo_Math "u1"
             [case_default 100; case_flushTicker; case_default 101; case_default 102;
              case_Done] s demo_World in
  exists d', db (snd r) = Some d'
             /\ default [] (db_topics d' !! "user.u1.location")
                = ["b"; ""; "a"; "d"; "e"; "f"].
Proof.
  intros s r.
  destruct (@X14_every_sample_reaches_the_store demo_JSON demo_Rand demo_Math "u1"
              [case_default 100; case_flushTicker; case_default 101; case_default 102]
              [] s demo_World demo_DB eq_refl eq_refl eq_refl)
    as (_ & d' & Hd' & Hs & _).
  - repeat constructor; discriminate.
  - exists d'. split; [exact Hd'|]. exact Hs.
Defined.

Lemma X15_witness :
  let s := {| sim_rng := 0%nat : @rng_state demo_Rand; dataBuffer := [];
              returned := false |} in
  Z.of_nat (length (dataBuffer (fst (@SimulateUserMovement_run demo_JSON demo_Rand
                                      demo_Math "u1"
                                      [case_default 100; case_default 101] s demo_World))))
  < batchSize.
Proof.
  intros s.
  apply (@X15_buffer_stays_below_batchSize demo_JSON demo_Rand demo_Math "u1").
  reflexivity.
Defined.
